(** * The send pipeline of the bulk email sender

    A shallow embedding of the backend services
    - [services/emailService.js]   (provider failover, [sendEmail]),
    - [services/batchProcessor.js] (batch planning, synchronous fallback),
    - [services/queueService.js]   (queue workers, progress counters),
    - [services/retryService.js]   (retry of failed recipients),
    together with the properties the design document states about them.

    Conventions.  MongoDB collections are finite maps from document ids to
    records; an update on a missing document changes nothing.  JavaScript
    exceptions are an explicit completion ([Normal] / [Throw]).  [async]
    callbacks started together by [Promise.all] are run one after the other
    in list order.  Timestamps and socket emissions are left out: no control
    flow of the services reads them. *)

From stdpp Require Import base option list gmap strings pretty sorting.
From Stdlib Require Import ZArith Lia Sorted.

Local Open Scope Z_scope.
Local Open Scope string_scope.
Local Open Scope list_scope.
Local Open Scope stdpp_scope.

(** ** JavaScript values *)

(** A string-valued property: [None] is [undefined]. *)
Definition truthy (v : option string) : bool :=
  match v with
  | Some s => negb (String.eqb s "")
  | None => false
  end.

(** [a || b] on string-valued properties. *)
Definition js_or (a b : option string) : option string :=
  if truthy a then a else b.

(** [v || dflt] where the right operand is a string literal. *)
Definition or_default (v : option string) (dflt : string) : string :=
  match js_or v (Some dflt) with
  | Some s => s
  | None => dflt
  end.

(** A thrown value: an error object and its [message] property. *)
Record JsError := mkError { message : option string }.

Definition Error (msg : string) : JsError := mkError (Some msg).

(** Reading a property of [undefined]. *)
Definition TypeError : JsError :=
  Error "Cannot read properties of undefined".

Inductive Completion (A : Type) : Type :=
| Normal (a : A)
| Throw (e : JsError).
Arguments Normal {A} a.
Arguments Throw {A} e.

(** ** services/emailService.js *)

Module EmailService.

Record Attachment := { filename : string; path : string }.

Record EmailData := {
  from : string;
  to : string;
  subject : string;
  text : string;
  html : string;
  replyTo : string;
  attachments : list Attachment
}.

(** An entry of [this.providers]; the transport [instance] is reached
    through the network operations below. *)
Record Provider := { name : string; priority : nat }.

(** What a transport resolves with. *)
Record Response := {
  id : option string;
  resp_message : option string;
  messageId : option string;
  messageIds : list string
}.

Inductive SendResult :=
| Success (provider : string) (messageId : string) (result : option Response)
| Failure (error : string) (attempts : nat).

Definition success (r : SendResult) : bool :=
  match r with Success _ _ _ => true | Failure _ _ => false end.

(** Calls of [logger.info] / [logger.error] made by [sendEmail]. *)
Inductive LogEntry :=
| SentVia (provider to_ : string) (attempt : nat)
| FailedVia (provider to_ : string) (error : option string) (attempt : nat)
| AllFailed (to_ : string) (error : option string).

Definition isFailedVia (l : LogEntry) : bool :=
  match l with FailedVia _ _ _ _ => true | _ => false end.

Definition recipient (l : LogEntry) : string :=
  match l with
  | SentVia _ t _ => t
  | FailedVia _ t _ _ => t
  | AllFailed t _ => t
  end.

(** Every line of a stretch of log is about the recipient of the payload. *)
Definition about (d : EmailData) (l : list LogEntry) : Prop :=
  Forall (fun entry => recipient entry = to d) l.

(** [initializeProviders]: which credentials the environment holds. *)
Record Env := {
  MAILGUN : bool;
  MAILGUN_BACKUP : bool;
  SENDGRID_API_KEY : bool;
  SMTP : bool
}.

Definition initializeProviders (env : Env) : list Provider :=
  (if MAILGUN env then [ {| name := "mailgun"; priority := 1 |} ] else []) ++
  (if MAILGUN_BACKUP env then [ {| name := "mailgun-backup"; priority := 2 |} ] else []) ++
  (if SENDGRID_API_KEY env then [ {| name := "sendgrid"; priority := 3 |} ] else []) ++
  (if SMTP env then [ {| name := "smtp"; priority := 4 |} ] else []).

(** [getNextProvider], with [this.currentProviderIndex] passed explicitly;
    indexing past the end of the array yields [undefined], here [None]. *)
Definition getNextProvider (providers : list Provider) (currentProviderIndex : nat)
  : Completion (option Provider * nat) :=
  if (length providers =? 0)%nat
  then Throw (Error "No email providers configured")
  else Normal (providers !! currentProviderIndex,
               (currentProviderIndex + 1) mod length providers)%nat.

Section Transports.

(** The state of everything outside the process that the transports talk
    to.  A transport call may change it and resolves or rejects. *)
Context {Net : Type}.
Variable sendWithMailgun : Provider -> EmailData -> Net -> (option Response + JsError) * Net.
Variable sendWithSMTP : Provider -> EmailData -> Net -> (option Response + JsError) * Net.
(** The HTTP transport of the later revision of the service. *)
Variable sendWithBrevo : Provider -> EmailData -> Net -> (option Response + JsError) * Net.

Record World := mkWorld {
  net : Net;
  log : list LogEntry;      (* logger output, oldest first *)
  slept : list Z            (* setTimeout delays awaited (ms), oldest first *)
}.

Definition Eff (A : Type) : Type := World -> Completion A * World.

#[global] Instance Eff_ret : MRet Eff := fun A a w => (Normal a, w).
#[global] Instance Eff_bind : MBind Eff := fun A B f m w =>
  match m w with
  | (Normal a, w') => f a w'
  | (Throw e, w') => (Throw e, w')
  end.

Definition throw {A} (e : JsError) : Eff A := fun w => (Throw e, w).

Definition try_catch {A} (body : Eff A) (handler : JsError -> Eff A) : Eff A :=
  fun w =>
    match body w with
    | (Normal a, w') => (Normal a, w')
    | (Throw e, w') => handler e w'
    end.

Definition logger (l : LogEntry) : Eff unit :=
  fun w => (Normal tt, mkWorld (net w) (log w ++ [l]) (slept w)).

Definition setTimeout (ms : Z) : Eff unit :=
  fun w => (Normal tt, mkWorld (net w) (log w) (slept w ++ [ms])).

Definition await (call : Net -> (option Response + JsError) * Net) : Eff (option Response) :=
  fun w =>
    match call (net w) with
    | (inl r, n) => (Normal r, mkWorld n (log w) (slept w))
    | (inr e, n) => (Throw e, mkWorld n (log w) (slept w))
    end.

(** The body of the [try] block of [sendEmail] (emailService.js). *)
Definition tryProvider (provider : Provider) (emailData : EmailData) (attempt : nat)
  : Eff SendResult :=
  result ← (if String.eqb (name provider) "mailgun" || String.eqb (name provider) "mailgun-backup"
            then await (sendWithMailgun provider emailData)
            else if String.eqb (name provider) "smtp"
            then await (sendWithSMTP provider emailData)
            else if String.eqb (name provider) "sendgrid"
            then throw (Error "SendGrid not yet implemented")
            else mret None);
  logger (SentVia (name provider) (to emailData) (attempt + 1)) ;;
  match result with
  | None => throw TypeError                        (* result.id on undefined *)
  | Some r =>
    mret (Success (name provider)
                  (or_default (js_or (id r) (resp_message r)) "unknown")
                  result)
  end.

(** The body of the [try] block in the later revision (Brevo transport). *)
Definition tryProvider_brevo (provider : Provider) (emailData : EmailData) (attempt : nat)
  : Eff SendResult :=
  result ← (if String.eqb (name provider) "brevo" || String.eqb (name provider) "brevo-backup"
            then await (sendWithBrevo provider emailData)
            else if String.eqb (name provider) "smtp"
            then await (sendWithSMTP provider emailData)
            else mret None);
  logger (SentVia (name provider) (to emailData) (attempt + 1)) ;;
  mret (Success (name provider)
                (or_default (js_or (r ← result; messageId r)
                                   (r ← result; head (messageIds r))) "unknown")
                result).

Section Loop.

Variable tryBlock : Provider -> EmailData -> nat -> Eff SendResult.

(** [for (const provider of providersToTry)]: [inl] is the [return] taken
    inside the [try], [inr] the value of [lastError] when the list is
    exhausted.  After the [catch] the loop goes on to the next provider
    whether or not the [continue] is taken. *)
Fixpoint forProviders (providersToTry : list Provider) (emailData : EmailData)
    (attempt : nat) (lastError : option JsError) : Eff (SendResult + option JsError) :=
  match providersToTry with
  | [] => mret (inr lastError)
  | provider :: rest =>
    r ← try_catch
          (res ← tryBlock provider emailData attempt; mret (inl res))
          (fun error =>
             logger (FailedVia (name provider) (to emailData) (message error) (attempt + 1)) ;;
             mret (inr error));
    match r with
    | inl res => mret (inl res)
    | inr error => forProviders rest emailData attempt (Some error)
    end
  end.

(** [for (let attempt = 0; attempt < maxRetries; attempt++)] with
    [remaining = maxRetries - attempt], followed by the code after the loop. *)
Fixpoint forAttempts (remaining : nat) (attempt maxRetries : nat)
    (providersToTry : list Provider) (emailData : EmailData)
    (lastError : option JsError) : Eff SendResult :=
  match remaining with
  | O =>
    logger (AllFailed (to emailData) (e ← lastError; message e)) ;;
    mret (Failure (or_default (e ← lastError; message e) "Unknown error") maxRetries)
  | S remaining' =>
    r ← forProviders providersToTry emailData attempt lastError;
    match r with
    | inl res => mret res
    | inr lastError' =>
      (if (attempt <? maxRetries - 1)%nat
       then setTimeout (1000 * (Z.of_nat attempt + 1))
       else mret tt) ;;
      forAttempts remaining' (attempt + 1) maxRetries providersToTry emailData lastError'
    end
  end.

Definition sendEmailWith (providers : list Provider) (emailData : EmailData)
    (maxRetries : nat) : Eff SendResult :=
  forAttempts maxRetries 0 maxRetries providers emailData None.

End Loop.

Definition sendEmail := sendEmailWith tryProvider.
Definition sendEmail_brevo := sendEmailWith tryProvider_brevo.

(** *** Vocabulary for stating the behaviour of the loops *)

(** The world after the [catch] block has logged the error of an attempt. *)
Definition caught (p : Provider) (d : EmailData) (attempt : nat) (e : JsError)
    (w : World) : World :=
  mkWorld (net w)
          (log w ++ [FailedVia (name p) (to d) (message e) (attempt + 1)])
          (slept w).

(** The provider's send fails for this payload, whenever it is tried. *)
Definition fails (provider : Provider) (emailData : EmailData) : Prop :=
  forall attempt w, exists e w', tryProvider provider emailData attempt w = (Throw e, w').

(** The failed attempts a stretch of log records: provider, attempt number
    and error message of each 'Failed to send email via' line. *)
Definition failures (l : list LogEntry) : list (string * nat * option string) :=
  omap (fun entry => match entry with
                     | FailedVia p _ err a => Some (p, a, err)
                     | _ => None
                     end) l.

(** The world after a round in which no provider succeeded: the back-off
    delay is awaited unless this was the last round. *)
Definition afterRound (attempt maxRetries : nat) (w : World) : World :=
  if (attempt <? maxRetries - 1)%nat
  then mkWorld (net w) (log w) (slept w ++ [1000 * (Z.of_nat attempt + 1)])
  else w.

(** The error a failed stretch leaves in [lastError]. *)
Definition lastErrorAfter (le : option JsError) (fs : list (string * nat * option string))
    (le' : option JsError) : Prop :=
  match last fs with
  | Some (_, _, err) => exists e, le' = Some e /\ message e = err
  | None => le' = le
  end.

(** The delays awaited after rounds [attempt+1 .. attempt+k] when all fail. *)
Definition naps (attempt k maxRetries : nat) : list Z :=
  map (fun r => 1000 * Z.of_nat r) (filter (fun r => r < maxRetries)%nat (seq (attempt + 1) k)).

(** Two runs ended with the same completion and the same network (the
    logger and the timers are written, never read). *)
Definition sameOutcome {A} (r1 r2 : Completion A * World) : Prop :=
  r1.1 = r2.1 /\ net r1.2 = net r2.2.

(** During round [attempt] the providers of the list are tried in order
    from world [w] and each one fails, leaving world [w']. *)
Inductive RoundFails (emailData : EmailData) (attempt : nat)
  : list Provider -> World -> World -> Prop :=
| RoundFails_nil w : RoundFails emailData attempt [] w w
| RoundFails_cons p ps w e w1 w' :
    tryProvider p emailData attempt w = (Throw e, w1) ->
    RoundFails emailData attempt ps (caught p emailData attempt e w1) w' ->
    RoundFails emailData attempt (p :: ps) w w'.

(** [k] consecutive rounds, the first one numbered [attempt], in each of
    which every provider fails. *)
Inductive RoundsFail (providers : list Provider) (emailData : EmailData) (maxRetries : nat)
  : nat -> nat -> World -> World -> Prop :=
| RoundsFail_O attempt w : RoundsFail providers emailData maxRetries attempt 0 w w
| RoundsFail_S attempt k w w1 w' :
    RoundFails emailData attempt providers w w1 ->
    RoundsFail providers emailData maxRetries (S attempt) k (afterRound attempt maxRetries w1) w' ->
    RoundsFail providers emailData maxRetries attempt (S k) w w'.

End Transports.

(** Shape of the value [sendEmail] hands back. *)
Definition wellFormedResult (ps : list Provider) (maxRetries : nat) (r : SendResult) : Prop :=
  match r with
  | Success q _ _ => q ∈ map name ps
  | Failure _ a => a = maxRetries
  end.


(** *** Sample transports, used to exercise the statements

    The network state counts the transport calls made so far. *)

Definition refuse : Provider -> EmailData -> nat -> (option Response + JsError) * nat :=
  fun _ _ n => (inr (Error "connect ECONNREFUSED"), S n).

Definition accepted : Response :=
  {| id := Some "<20240101.1@mg.example.org>"; resp_message := Some "Queued. Thank you.";
     messageId := None; messageIds := [] |}.

(** Rejects the calls made before the [upFrom]-th one, resolves afterwards. *)
Definition flaky (upFrom : nat) : Provider -> EmailData -> nat -> (option Response + JsError) * nat :=
  fun _ _ n => (if (upFrom <=? n)%nat then inl (Some accepted) else inr (Error "ETIMEDOUT"), S n).

Definition mailgun : Provider := {| name := "mailgun"; priority := 1 |}.
Definition sendgrid : Provider := {| name := "sendgrid"; priority := 3 |}.
Definition smtp : Provider := {| name := "smtp"; priority := 4 |}.

Definition newsletter : EmailData :=
  {| from := "News <news@example.org>"; to := "ann@example.org"; subject := "Hello";
     text := "Hi Ann"; html := "<p>Hi Ann</p>"; replyTo := "news@example.org";
     attachments := [] |}.

Definition quiet : @World nat := mkWorld 0%nat [] [].

End EmailService.


(** ** models/Contact.js, models/Job.js, models/Campaign.js, models/Analytics.js *)

Module Contact.
Record t := {
  _id : nat;
  userId : nat;
  email : string;
  name : option string;
  tags : list string;
  status : string            (* 'active', 'bounced', 'unsubscribed', 'invalid' *)
}.
End Contact.

(** The [progress] sub-document of a job; also the shape of the entries of
    the in-memory progress cache. *)
Module Progress.
Record t := { total : Z; sent : Z; failed : Z }.
End Progress.

(** An element of [job.contacts]. *)
Module Recipient.
Record t := { contactId : nat; email : string; name : string }.
End Recipient.

(** An element of [job.errorLog], with the fields the services read and
    write; a missing [resolved] is [false]. *)
Module ErrorLog.
Record t := { email : string; error : string; retryCount : nat; resolved : bool }.
End ErrorLog.

Module Job.

Inductive Status := pending | processing | completed | failed.

#[global] Instance Status_eq_dec : EqDecision Status.
Proof. solve_decision. Defined.

Record t := {
  campaignId : nat;
  userId : nat;
  batchNumber : nat;
  contacts : list Recipient.t;
  status : Status;
  progress : Progress.t;
  errorLog : list ErrorLog.t
}.

(** Updates, as the update documents of the services spell them. *)
Definition set_status (st : Status) (j : t) : t :=
  {| campaignId := campaignId j; userId := userId j; batchNumber := batchNumber j;
     contacts := contacts j; status := st; progress := progress j; errorLog := errorLog j |}.

Definition set_progress (p : Progress.t) (j : t) : t :=
  {| campaignId := campaignId j; userId := userId j; batchNumber := batchNumber j;
     contacts := contacts j; status := status j; progress := p; errorLog := errorLog j |}.

Definition set_errorLog (l : list ErrorLog.t) (j : t) : t :=
  {| campaignId := campaignId j; userId := userId j; batchNumber := batchNumber j;
     contacts := contacts j; status := status j; progress := progress j; errorLog := l |}.

(** [$inc: { 'progress.sent': ds, 'progress.failed': df }] *)
Definition inc_progress (ds df : Z) (j : t) : t :=
  set_progress {| Progress.total := Progress.total (progress j);
                  Progress.sent := Progress.sent (progress j) + ds;
                  Progress.failed := Progress.failed (progress j) + df |} j.

(** [$set: { 'progress.total': n }] *)
Definition set_total (n : Z) (j : t) : t :=
  set_progress {| Progress.total := n;
                  Progress.sent := Progress.sent (progress j);
                  Progress.failed := Progress.failed (progress j) |} j.

(** [...(total ? { $set: { 'progress.total': total } } : {})] *)
Definition set_total_if_truthy (n : Z) (j : t) : t :=
  if (n =? 0)%Z then j else set_total n j.

(** [$push: { errorLog: entry }] *)
Definition push_errorLog (entry : ErrorLog.t) (j : t) : t :=
  set_errorLog (errorLog j ++ [entry]) j.

(** [Job.updateOne({ _id: id, ...cond }, update)]: nothing happens when no
    document has this id or the document does not meet the condition. *)
Definition updateOne (id : nat) (cond : t -> bool) (update : t -> t)
    (jobs : gmap nat t) : gmap nat t :=
  match jobs !! id with
  | Some j => if cond j then <[id := update j]> jobs else jobs
  | None => jobs
  end.

Definition always : t -> bool := fun _ => true.

(** [Job.create(doc)]: the document is stored under a new id. *)
Definition create (doc : t) (jobs : gmap nat t) : nat * gmap nat t :=
  let id := fresh (dom jobs) in (id, <[id := doc]> jobs).

(** [Job.countDocuments({ campaignId, status: { $in: ['pending', 'processing'] } })] *)
Definition countRemaining (campaign : nat) (jobs : gmap nat t) : nat :=
  length (filter (fun kv => campaignId kv.2 = campaign /\
                            (status kv.2 = pending \/ status kv.2 = processing))
                 (map_to_list jobs)).

End Job.

Module Campaign.

Inductive Status := draft | scheduled | sending | completed | paused | failed.

(** [stats] also counts delivered, opened, clicked and bounced messages;
    the send pipeline touches the three counters below. *)
Record t := {
  userId : nat;
  subject : string;
  body : string;
  bodyHtml : string;
  attachments : list EmailService.Attachment;
  fromEmail : string;
  fromName : string;
  replyTo : string;
  status : Status;
  stats : Progress.t
}.

Definition set_status (st : Status) (c : t) : t :=
  {| userId := userId c; subject := subject c; body := body c; bodyHtml := bodyHtml c;
     attachments := attachments c; fromEmail := fromEmail c; fromName := fromName c;
     replyTo := replyTo c; status := st; stats := stats c |}.

Definition set_stats (p : Progress.t) (c : t) : t :=
  {| userId := userId c; subject := subject c; body := body c; bodyHtml := bodyHtml c;
     attachments := attachments c; fromEmail := fromEmail c; fromName := fromName c;
     replyTo := replyTo c; status := status c; stats := p |}.

(** [$inc: { 'stats.sent': ds, 'stats.failed': df }, $set: { 'stats.total': n }] *)
Definition add_stats (ds df n : Z) (c : t) : t :=
  set_stats {| Progress.total := n;
               Progress.sent := Progress.sent (stats c) + ds;
               Progress.failed := Progress.failed (stats c) + df |} c.

Definition updateOne (id : nat) (update : t -> t) (campaigns : gmap nat t) : gmap nat t :=
  match campaigns !! id with
  | Some c => <[id := update c]> campaigns
  | None => campaigns
  end.

End Campaign.

Module Analytics.
Record t := {
  campaignId : nat;
  userId : nat;
  contactId : nat;
  email : string;
  event : string;                  (* 'sent' or 'failed' *)
  provider : option string;
  metadata : list (string * string)  (* a Map of String: values are cast to strings *)
}.

(** The validation of the Analytics schema as far as the documents the
    services build can fail it: [email] is required, so not empty, and
    [provider], when given, is one of 'postmark' and 'smtp'. *)
Definition valid (doc : t) : bool :=
  negb (String.eqb (email doc) EmptyString)
  && match provider doc with
     | None => true
     | Some p => String.eqb p "postmark" || String.eqb p "smtp"
     end.
End Analytics.

(** The payload handed from the campaign route to the batch processor. *)
Module CampaignData.
Record t := {
  subject : string;
  body : string;
  bodyHtml : string;
  fromEmail : string;
  fromName : string;
  replyTo : string;
  attachments : list EmailService.Attachment
}.
End CampaignData.

(** [a || b] on strings: the empty string is falsy. *)
Definition or_string (a b : string) : string :=
  if String.eqb a "" then b else a.

(** ** The Bull queue ([emailQueue]) *)

Module Queue.

(** [job.data] of the three kinds of job the services add. *)
Inductive Data :=
| send_batch (jobId campaignId userId : nat) (contacts : list Recipient.t)
             (campaignData : CampaignData.t)
| send_email (emailData : EmailService.EmailData) (jobId campaignId userId contactId : nat)
             (total : Z)
| retry_failed_emails (jobId : nat).

Record Opts := { priority : option nat; attempts : nat; delay : Z }.

Record Task := { id : nat; data : Data; opts : Opts; attemptsMade : nat }.

End Queue.

(** ** Environment of the services *)

Record Config := {
  MAX_EMAILS_PER_BATCH : nat;
  SYNC_SEND_CONCURRENCY : nat;
  SYNC_SEND_RETRIES : nat;
  BATCH_ENQUEUE_SIZE : nat;
  JOB_ATTEMPTS_EMAIL : nat;
  ANALYTICS_ENABLED : bool;
  PROGRESS_BATCHING : bool;
  PROGRESS_BATCH_SIZE : Z
}.

(** The values the services fall back to when the variables are unset. *)
Definition defaults : Config :=
  {| MAX_EMAILS_PER_BATCH := 1000; SYNC_SEND_CONCURRENCY := 10; SYNC_SEND_RETRIES := 1;
     BATCH_ENQUEUE_SIZE := 200; JOB_ATTEMPTS_EMAIL := 1; ANALYTICS_ENABLED := true;
     PROGRESS_BATCHING := false; PROGRESS_BATCH_SIZE := 10 |}.

Section State.

Context {Net : Type}.

(** Everything the services read and write. *)
Record State := mkState {
  contacts : list Contact.t;              (* Contact collection, in natural order *)
  jobs : gmap nat Job.t;                  (* Job collection *)
  campaigns : gmap nat Campaign.t;        (* Campaign collection *)
  analytics : list Analytics.t;           (* Analytics collection *)
  progressCache : gmap nat Progress.t;    (* queueService's in-memory Map *)
  queue : list Queue.Task;                (* waiting Bull jobs, oldest first *)
  queued : nat;                           (* jobs added so far: the next Bull job id *)
  outages : list bool;                    (* for the coming [add] calls: is Redis down? *)
  world : @EmailService.World Net         (* network, logger, timers *)
}.

Definition with_jobs (f : gmap nat Job.t -> gmap nat Job.t) (s : State) : State :=
  mkState (contacts s) (f (jobs s)) (campaigns s) (analytics s) (progressCache s)
          (queue s) (queued s) (outages s) (world s).

Definition with_campaigns (f : gmap nat Campaign.t -> gmap nat Campaign.t) (s : State) : State :=
  mkState (contacts s) (jobs s) (f (campaigns s)) (analytics s) (progressCache s)
          (queue s) (queued s) (outages s) (world s).

Definition with_analytics (f : list Analytics.t -> list Analytics.t) (s : State) : State :=
  mkState (contacts s) (jobs s) (campaigns s) (f (analytics s)) (progressCache s)
          (queue s) (queued s) (outages s) (world s).

Definition with_progressCache (f : gmap nat Progress.t -> gmap nat Progress.t) (s : State) : State :=
  mkState (contacts s) (jobs s) (campaigns s) (analytics s) (f (progressCache s))
          (queue s) (queued s) (outages s) (world s).

Definition with_queue (f : list Queue.Task -> list Queue.Task) (s : State) : State :=
  mkState (contacts s) (jobs s) (campaigns s) (analytics s) (progressCache s)
          (f (queue s)) (queued s) (outages s) (world s).

Definition with_outages (f : list bool -> list bool) (s : State) : State :=
  mkState (contacts s) (jobs s) (campaigns s) (analytics s) (progressCache s)
          (queue s) (queued s) (f (outages s)) (world s).

Definition with_world (w : @EmailService.World Net) (s : State) : State :=
  mkState (contacts s) (jobs s) (campaigns s) (analytics s) (progressCache s)
          (queue s) (queued s) (outages s) w.

(** A service call: it may not return ([None], a loop that never ends),
    return normally or throw; the state changes made before a throw stay. *)
Definition Proc (A : Type) : Type := State -> option (Completion A * State).

#[global] Instance Proc_ret : MRet Proc := fun A a s => Some (Normal a, s).
#[global] Instance Proc_bind : MBind Proc := fun A B f m s =>
  match m s with
  | Some (Normal a, s') => f a s'
  | Some (Throw e, s') => Some (Throw e, s')
  | None => None
  end.

Definition raise {A} (e : JsError) : Proc A := fun s => Some (Throw e, s).

Definition tryCatch {A} (body : Proc A) (handler : JsError -> Proc A) : Proc A :=
  fun s =>
    match body s with
    | Some (Normal a, s') => Some (Normal a, s')
    | Some (Throw e, s') => handler e s'
    | None => None
    end.

Definition gets {A} (f : State -> A) : Proc A := fun s => Some (Normal (f s), s).

Definition modify (f : State -> State) : Proc unit := fun s => Some (Normal tt, f s).

(** A call into the email service. *)
Definition call {A} (m : @EmailService.Eff Net A) : Proc A :=
  fun s => let (c, w) := m (world s) in Some (c, with_world w s).

(** [await new Promise(resolve => setTimeout(resolve, ms))] *)
Definition sleep (ms : Z) : Proc unit := call (EmailService.setTimeout ms).

(** [array.slice(i, j)] *)
Definition slice {A} (i j : nat) (l : list A) : list A := take (j - i) (drop i l).

(** [for (let i = 0; i < n; i += step) acc = body(i, acc)], started at [i].
    The loop needs one unit of fuel per iteration. *)
Fixpoint forChunks {A} (fuel : nat) (i step n : nat) (body : nat -> A -> Proc A) (acc : A)
  : Proc A :=
  if (i <? n)%nat then
    match fuel with
    | O => fun _ => None
    | S fuel' => acc' ← body i acc; forChunks fuel' (i + step) step n body acc'
    end
  else mret acc.

(** [await Promise.all(callbacks)]: every callback runs; the first
    rejection, if any, is what the [await] throws.  The callbacks are run
    one after the other, in the order of the array.  The callbacks of the
    services also take turns at their [await]s; what they write are atomic
    increments and pushes on a document, so the counters they leave do not
    depend on the turns taken, whereas the order of the entries they push
    and of the records they create does. *)
Fixpoint promiseAll (callbacks : list (Proc unit)) : Proc unit :=
  match callbacks with
  | [] => mret tt
  | c :: rest =>
    fun s =>
      match c s with
      | Some (Normal _, s') => promiseAll rest s'
      | Some (Throw e, s') =>
        match promiseAll rest s' with
        | Some (_, s'') => Some (Throw e, s'')
        | None => None
        end
      | None => None
      end
  end.

(** [emailQueue.add(name, data, opts)]: throws when Redis cannot be
    reached, otherwise appends the job and returns its id. *)
Definition emailQueue_add (data : Queue.Data) (opts : Queue.Opts) : Proc nat :=
  fun s =>
    let s' := mkState (contacts s) (jobs s) (campaigns s) (analytics s) (progressCache s)
                      (queue s) (queued s) (tail (outages s)) (world s) in
    match head (outages s) with
    | Some true => Some (Throw (Error "connect ECONNREFUSED 127.0.0.1:6379"), s')
    | _ =>
      Some (Normal (queued s),
            mkState (contacts s) (jobs s) (campaigns s) (analytics s) (progressCache s)
                    (queue s ++ [ {| Queue.id := queued s; Queue.data := data;
                                     Queue.opts := opts; Queue.attemptsMade := 0 |} ])
                    (S (queued s)) (tail (outages s)) (world s))
    end.

End State.

Arguments State : clear implicits.
Arguments Proc : clear implicits.

(** ** The services *)

Module Batch.
(** An element of the [batches] array [createBatches] returns. *)
Record t := { jobId : nat; batchNumber : nat; contacts : list Recipient.t; total : Z }.
End Batch.

Record Plan := { totalContacts : nat; totalBatches : nat; batches : list Batch.t }.

Record ContactFilters := { filter_tags : list string; filter_status : list string }.

(** An element of the array [processBatches] returns. *)
Record Submitted := { sub_jobId : nat; queueJobId : option nat; sub_batchNumber : nat }.

Record RetryReport := { retried : nat; retry_total : option nat }.

(** [x || y] on numbers: zero is falsy. *)
Definition or_number (x y : Z) : Z := if (x =? 0)%Z then y else x.

(** [Math.ceil(n / b)] for natural numbers, [b] positive. *)
Definition ceil_div (n b : nat) : nat :=
  if (n mod b =? 0)%nat then (n / b)%nat else (n / b + 1)%nat.

(** The query of [createBatches]:
    [{ userId, status: 'active' }], with [status] replaced by
    [{ $in: contactFilters.status }] and [tags: { $in: contactFilters.tags }]
    added when the respective filter is not empty. *)
Definition matchesQuery (user : nat) (contactFilters : ContactFilters) (c : Contact.t) : bool :=
  (Contact.userId c =? user)%nat
  && (match filter_status contactFilters with
      | [] => String.eqb (Contact.status c) "active"
      | sts => existsb (String.eqb (Contact.status c)) sts
      end)
  && (match filter_tags contactFilters with
      | [] => true
      | tgs => existsb (fun t => existsb (String.eqb t) tgs) (Contact.tags c)
      end).

(** [{ contactId: contact._id, email: contact.email, name: contact.name || '' }] *)
Definition toRecipient (contact : Contact.t) : Recipient.t :=
  {| Recipient.contactId := Contact._id contact;
     Recipient.email := Contact.email contact;
     Recipient.name := or_default (Contact.name contact) "" |}.

(** The [emailData] object built for a recipient, the same way in the
    synchronous executor, the batch worker and the retry service. *)
Definition emailDataFor (fromName fromEmail subject body bodyHtml replyTo : string)
    (attachments : list EmailService.Attachment) (to : string) : EmailService.EmailData :=
  {| EmailService.from := fromName ++ " <" ++ fromEmail ++ ">";
     EmailService.to := to;
     EmailService.subject := subject;
     EmailService.text := body;
     EmailService.html := or_string bodyHtml body;
     EmailService.replyTo := or_string replyTo fromEmail;
     EmailService.attachments := attachments |}.

Definition emailDataOf (campaignData : CampaignData.t) (to : string) : EmailService.EmailData :=
  emailDataFor (CampaignData.fromName campaignData) (CampaignData.fromEmail campaignData)
               (CampaignData.subject campaignData) (CampaignData.body campaignData)
               (CampaignData.bodyHtml campaignData) (CampaignData.replyTo campaignData)
               (CampaignData.attachments campaignData) to.

(** The entries both retry paths select:
    [errorLog.filter(error => error.retryCount < 3 && !error.resolved)]. *)
Definition failedEmails (job : Job.t) : list ErrorLog.t :=
  List.filter (fun error => (ErrorLog.retryCount error <? 3)%nat && negb (ErrorLog.resolved error))
              (Job.errorLog job).

Definition unresolvedErrors (job : Job.t) : list ErrorLog.t :=
  List.filter (fun error => (ErrorLog.retryCount error <? 3)%nat && negb (ErrorLog.resolved error))
              (Job.errorLog job).

(** The entries a scan leaves out. *)
Definition excluded (job : Job.t) : list ErrorLog.t :=
  List.filter (fun error => negb ((ErrorLog.retryCount error <? 3)%nat
                                  && negb (ErrorLog.resolved error)))
              (Job.errorLog job).

(** The positional update [{ 'errorLog.$.field': ... }] under the filter
    ['errorLog.email': email]: the first entry with this address changes. *)
Fixpoint updateFirst (email : string) (f : ErrorLog.t -> ErrorLog.t) (l : list ErrorLog.t)
  : list ErrorLog.t :=
  match l with
  | [] => []
  | e :: rest =>
    if String.eqb (ErrorLog.email e) email then f e :: rest
    else e :: updateFirst email f rest
  end.

Definition hasErrorFor (email : string) (j : Job.t) : bool :=
  existsb (fun e => String.eqb (ErrorLog.email e) email) (Job.errorLog j).

(** [Math.pow(2, maxRetryCount) * 60000] with
    [maxRetryCount = Math.max(...unresolvedErrors.map(e => e.retryCount))]. *)
Definition retryDelay (unresolved : list ErrorLog.t) : Z :=
  2 ^ Z.of_nat (max_list (map ErrorLog.retryCount unresolved)) * 60000.

Section Services.

Context {Net : Type}.
Variable sendWithMailgun :
  EmailService.Provider -> EmailService.EmailData -> Net
  -> (option EmailService.Response + JsError) * Net.
Variable sendWithSMTP :
  EmailService.Provider -> EmailService.EmailData -> Net
  -> (option EmailService.Response + JsError) * Net.
(** [emailService.providers], set up once when the service is loaded. *)
Variable providers : list EmailService.Provider.
Variable cfg : Config.

(** [emailService.sendEmail(emailData, maxRetries)] *)
Definition emailService_sendEmail (emailData : EmailService.EmailData) (maxRetries : nat)
  : Proc Net EmailService.SendResult :=
  call (EmailService.sendEmail sendWithMailgun sendWithSMTP providers emailData maxRetries).

Definition Job_updateOne (id : nat) (cond : Job.t -> bool) (update : Job.t -> Job.t)
  : Proc Net unit :=
  modify (with_jobs (Job.updateOne id cond update)).

Definition Campaign_updateOne (id : nat) (update : Campaign.t -> Campaign.t) : Proc Net unit :=
  modify (with_campaigns (Campaign.updateOne id update)).

Definition Job_findById (id : nat) : Proc Net (option Job.t) :=
  gets (fun s => jobs s !! id).

(** [Analytics.create(doc)]: a document that fails the validation of the
    schema is not stored and the call rejects; the message of the error
    is cut after the name of the model. *)
Definition Analytics_create (doc : Analytics.t) : Proc Net unit :=
  if Analytics.valid doc
  then modify (with_analytics (fun l => l ++ [doc]))
  else raise (Error "Analytics validation failed").

(** *** services/batchProcessor.js *)

(** The document [createBatches] stores for a batch. *)
Definition newJob (campaignId userId batchNumber : nat) (batchContacts : list Recipient.t)
  : Job.t :=
  {| Job.campaignId := campaignId; Job.userId := userId; Job.batchNumber := batchNumber;
     Job.contacts := batchContacts; Job.status := Job.pending;
     Job.progress := {| Progress.total := Z.of_nat (length batchContacts);
                        Progress.sent := 0; Progress.failed := 0 |};
     Job.errorLog := [] |}.

Definition Job_create (doc : Job.t) : Proc Net nat :=
  fun s => let (id, js) := Job.create doc (jobs s) in
           Some (Normal id, with_jobs (fun _ => js) s).

(** One iteration of the [for] loop of [createBatches].  With a batch
    size of 0 the loop is at index 0, where
    [Math.floor(i / this.batchSize) + 1] is [NaN]: [batchNumber] is a
    required [Number] of the Job schema, so [Job.create] rejects the
    document and stores nothing; the message of the error is cut after
    the path. *)
Definition createBatch (campaignId userId : nat) (found : list Contact.t)
    (i : nat) (batches : list Batch.t) : Proc Net (list Batch.t) :=
  let batchSize := MAX_EMAILS_PER_BATCH cfg in
  let batchContacts := map toRecipient (slice i (i + batchSize) found) in
  if (batchSize =? 0)%nat
  then raise (Error "Job validation failed: batchNumber")
  else
    let batchNumber := (i / batchSize + 1)%nat in
    job_id ← Job_create (newJob campaignId userId batchNumber batchContacts);
    mret (batches ++ [ {| Batch.jobId := job_id; Batch.batchNumber := batchNumber;
                          Batch.contacts := batchContacts;
                          Batch.total := Z.of_nat (length batchContacts) |} ]).

Definition createBatches (fuel : nat) (campaignId userId : nat)
    (contactFilters : ContactFilters) : Proc Net Plan :=
  let batchSize := MAX_EMAILS_PER_BATCH cfg in
  found ← gets (fun s => List.filter (matchesQuery userId contactFilters) (contacts s));
  let totalContacts := length found in
  if (totalContacts =? 0)%nat then raise (Error "No contacts found matching the filters")
  else
    let totalBatches := ceil_div totalContacts batchSize in
    batches ← forChunks fuel 0 batchSize totalContacts
                (createBatch campaignId userId found) [];
    mret {| totalContacts := totalContacts; totalBatches := totalBatches; batches := batches |}.

(** The callback run for each contact of a slice in the synchronous
    executor. *)
Definition sendSynchronously (jobId campaignId userId : nat) (campaignData : CampaignData.t)
    (totalContacts : Z) (contact : Recipient.t) : Proc Net unit :=
  let emailData := emailDataOf campaignData (Recipient.email contact) in
  result ← emailService_sendEmail emailData (SYNC_SEND_RETRIES cfg);
  match result with
  | EmailService.Success provider messageId _ =>
    Job_updateOne jobId Job.always
      (fun j => Job.set_total totalContacts (Job.inc_progress 1 0 j)) ;;
    tryCatch
      (Analytics_create
         {| Analytics.campaignId := campaignId; Analytics.userId := userId;
            Analytics.contactId := Recipient.contactId contact;
            Analytics.email := EmailService.to emailData; Analytics.event := "sent";
            Analytics.provider := Some provider;
            Analytics.metadata := [("messageId", messageId); ("sync", "true")] |})
      (fun _ => mret tt)
  | EmailService.Failure error attempts =>
    Job_updateOne jobId Job.always
      (fun j => Job.push_errorLog
                  {| ErrorLog.email := EmailService.to emailData; ErrorLog.error := error;
                     ErrorLog.retryCount := 0; ErrorLog.resolved := false |}
                  (Job.inc_progress 0 1 j)) ;;
    tryCatch
      (Analytics_create
         {| Analytics.campaignId := campaignId; Analytics.userId := userId;
            Analytics.contactId := Recipient.contactId contact;
            Analytics.email := EmailService.to emailData; Analytics.event := "failed";
            Analytics.provider := None;
            Analytics.metadata := [("error", error); ("attempts", pretty attempts);
                                   ("sync", "true")] |})
      (fun _ => mret tt)
  end.

Definition processBatchSynchronously (fuel : nat) (batch : Batch.t) (campaignId userId : nat)
    (campaignData : CampaignData.t) : Proc Net unit :=
  let jobId := Batch.jobId batch in
  let contacts := Batch.contacts batch in
  Job_updateOne jobId Job.always (Job.set_status Job.processing) ;;
  let totalContacts := Z.of_nat (length contacts) in
  forChunks fuel 0 (SYNC_SEND_CONCURRENCY cfg) (length contacts)
    (fun i _ =>
       promiseAll (map (sendSynchronously jobId campaignId userId campaignData totalContacts)
                       (slice i (i + SYNC_SEND_CONCURRENCY cfg) contacts)))
    tt ;;
  updatedJob ← Job_findById jobId;
  match updatedJob with
  | None => raise TypeError                      (* updatedJob.progress on null *)
  | Some updatedJob =>
    let sentCount := Progress.sent (Job.progress updatedJob) in
    let failedCount := Progress.failed (Job.progress updatedJob) in
    Job_updateOne jobId Job.always (Job.set_status Job.completed) ;;
    Campaign_updateOne campaignId (Campaign.add_stats sentCount failedCount totalContacts) ;;
    remaining ← gets (fun s => Job.countRemaining campaignId (jobs s));
    if (remaining =? 0)%nat
    then Campaign_updateOne campaignId (Campaign.set_status Campaign.completed)
    else mret tt
  end.

(** [for (const batch of batches)] of [processBatches]. *)
Fixpoint processBatches_loop (fuel : nat) (campaignId userId : nat)
    (campaignData : CampaignData.t) (batches : list Batch.t) (submitted : list Submitted)
  : Proc Net (list Submitted) :=
  match batches with
  | [] => mret submitted
  | batch :: rest =>
    entry ← tryCatch
      (queueJob ← emailQueue_add
         (Queue.send_batch (Batch.jobId batch) campaignId userId (Batch.contacts batch)
                           campaignData)
         {| Queue.priority := Some 1%nat; Queue.attempts := 1; Queue.delay := 0 |};
       mret {| sub_jobId := Batch.jobId batch; queueJobId := Some queueJob;
               sub_batchNumber := Batch.batchNumber batch |})
      (fun err =>
         processBatchSynchronously fuel batch campaignId userId campaignData ;;
         mret {| sub_jobId := Batch.jobId batch; queueJobId := None;
                 sub_batchNumber := Batch.batchNumber batch |});
    processBatches_loop fuel campaignId userId campaignData rest (submitted ++ [entry])
  end.

Definition processBatches (fuel : nat) (campaignId userId : nat)
    (campaignData : CampaignData.t) (batches : list Batch.t) : Proc Net (list Submitted) :=
  processBatches_loop fuel campaignId userId campaignData batches [].

(** *** services/retryService.js *)

(** The callback [retryFailedEmails] runs for one selected entry; [job] is
    the document as read at the start of the call.  The result is the new
    value of the counter [retried].  Of the fields the update of a
    successful retry sets, ['errorLog.$.resolved'] and
    ['errorLog.$.resolvedAt'] are no paths of the error-log schema of
    models/Job.js: they do not reach the document, whose entry keeps the
    [resolved] it had. *)
Definition retryOne (jobId : nat) (job : Job.t) (retried : nat) (errorLog : ErrorLog.t)
  : Proc Net nat :=
  tryCatch
    (match List.find (fun c => String.eqb (Recipient.email c) (ErrorLog.email errorLog))
                     (Job.contacts job) with
     | None => mret retried
     | Some contact =>
       campaign ← gets (fun s => campaigns s !! Job.campaignId job);
       match campaign with
       | None => mret retried
       | Some campaign =>
         let emailData :=
           emailDataFor (Campaign.fromName campaign) (Campaign.fromEmail campaign)
                        (Campaign.subject campaign) (Campaign.body campaign)
                        (Campaign.bodyHtml campaign) (Campaign.replyTo campaign)
                        (Campaign.attachments campaign) (ErrorLog.email errorLog) in
         result ← emailService_sendEmail emailData 3;
         match result with
         | EmailService.Success provider messageId _ =>
           Job_updateOne jobId (hasErrorFor (ErrorLog.email errorLog))
             (fun j =>
                Job.inc_progress 1 (-1)
                  (Job.set_errorLog
                     (updateFirst (ErrorLog.email errorLog)
                        (fun e => {| ErrorLog.email := ErrorLog.email e;
                                     ErrorLog.error := ErrorLog.error e;
                                     ErrorLog.retryCount := ErrorLog.retryCount errorLog + 1;
                                     ErrorLog.resolved := ErrorLog.resolved e |})
                        (Job.errorLog j)) j)) ;;
           Analytics_create
             {| Analytics.campaignId := Job.campaignId job; Analytics.userId := Job.userId job;
                Analytics.contactId := Recipient.contactId contact;
                Analytics.email := ErrorLog.email errorLog; Analytics.event := "sent";
                Analytics.provider := Some provider;
                Analytics.metadata := [("messageId", messageId); ("retried", "true")] |} ;;
           mret (retried + 1)%nat
         | EmailService.Failure error _ =>
           Job_updateOne jobId (hasErrorFor (ErrorLog.email errorLog))
             (fun j =>
                Job.set_errorLog
                  (updateFirst (ErrorLog.email errorLog)
                     (fun e => {| ErrorLog.email := ErrorLog.email e;
                                  ErrorLog.error := error;
                                  ErrorLog.retryCount := ErrorLog.retryCount errorLog + 1;
                                  ErrorLog.resolved := ErrorLog.resolved e |})
                     (Job.errorLog j)) j) ;;
           mret retried
         end
       end
     end)
    (fun _ => mret retried).

(** [await Promise.all(failedEmails.map(async (errorLog) => ...))] *)
Fixpoint retryAll (jobId : nat) (job : Job.t) (entries : list ErrorLog.t) (retried : nat)
  : Proc Net nat :=
  match entries with
  | [] => mret retried
  | errorLog :: rest =>
    retried' ← retryOne jobId job retried errorLog;
    retryAll jobId job rest retried'
  end.

Definition retryFailedEmails (jobId : nat) : Proc Net RetryReport :=
  job ← Job_findById jobId;
  match job with
  | None => raise (Error "Job not found")
  | Some job =>
    if (length (Job.errorLog job) =? 0)%nat
    then mret {| retried := 0; retry_total := None |}
    else
      let failedEmails := failedEmails job in
      if (length failedEmails =? 0)%nat
      then mret {| retried := 0; retry_total := None |}
      else
        retried ← retryAll jobId job failedEmails 0;
        mret {| retried := retried; retry_total := Some (length failedEmails) |}
  end.

(** [Job.find({ status: 'completed', errorLog: { $exists: true, $ne: [] } })] *)
Definition failedJobs (js : gmap nat Job.t) : list (nat * Job.t) :=
  List.filter (fun kv => bool_decide (Job.status kv.2 = Job.completed)
                         && negb (length (Job.errorLog kv.2) =? 0)%nat)
              (map_to_list js).

(** [for (const job of failedJobs)] of [scheduleRetries]. *)
Fixpoint scheduleRetries_loop (found : list (nat * Job.t)) : Proc Net unit :=
  match found with
  | [] => mret tt
  | (job_id, job) :: rest =>
    let unresolvedErrors := unresolvedErrors job in
    (if (0 <? length unresolvedErrors)%nat
     then
       emailQueue_add (Queue.retry_failed_emails job_id)
         {| Queue.priority := None; Queue.attempts := 1;
            Queue.delay := retryDelay unresolvedErrors |} ;;
       mret tt
     else mret tt) ;;
    scheduleRetries_loop rest
  end.

Definition scheduleRetries : Proc Net unit :=
  tryCatch
    (found ← gets (fun s => failedJobs (jobs s));
     scheduleRetries_loop found)
    (fun _ => mret tt).

(** *** services/queueService.js *)

Definition flushProgress (jobId : nat) : Proc Net unit :=
  cached ← gets (fun s => progressCache s !! jobId);
  match cached with
  | None => mret tt
  | Some cached =>
    let sent := Progress.sent cached in
    let failed := Progress.failed cached in
    let total := Progress.total cached in
    if (sent =? 0)%Z && (failed =? 0)%Z then mret tt
    else
      Job_updateOne jobId Job.always
        (fun j => Job.set_total_if_truthy total (Job.inc_progress sent failed j)) ;;
      modify (with_progressCache
                (insert jobId {| Progress.total := total; Progress.sent := 0;
                                 Progress.failed := 0 |}))
  end.

Definition incProgress (jobId : nat) (sent failed total : Z) : Proc Net unit :=
  if negb (PROGRESS_BATCHING cfg) then
    Job_updateOne jobId Job.always
      (fun j => Job.set_total_if_truthy total (Job.inc_progress sent failed j))
  else
    existing ← gets (fun s => default {| Progress.total := 0; Progress.sent := 0;
                                         Progress.failed := 0 |}
                                      (progressCache s !! jobId));
    let next := {| Progress.total := or_number total (Progress.total existing);
                   Progress.sent := Progress.sent existing + sent;
                   Progress.failed := Progress.failed existing + failed |} in
    modify (with_progressCache (insert jobId next)) ;;
    let batchCount := Progress.sent next + Progress.failed next in
    if (PROGRESS_BATCH_SIZE cfg <=? batchCount)%Z then flushProgress jobId else mret tt.

(** The completion check made after an outcome is recorded, from
    [const updatedJob = await Job.findById(jobId)] on. *)
Definition checkCompletion (jobId campaignId : nat) (dataTotal : Z) : Proc Net unit :=
  updatedJob ← Job_findById jobId;
  match updatedJob with
  | None => raise TypeError                      (* updatedJob.progress on null *)
  | Some updatedJob =>
    let total := or_number dataTotal (or_number (Progress.total (Job.progress updatedJob)) 0) in
    let done := (total <=? Progress.sent (Job.progress updatedJob)
                           + Progress.failed (Job.progress updatedJob))%Z
                && (0 <? total)%Z in
    if done && negb (bool_decide (Job.status updatedJob = Job.completed)) then
      Job_updateOne jobId (fun j => negb (bool_decide (Job.status j = Job.completed)))
                    (Job.set_status Job.completed) ;;
      Campaign_updateOne campaignId
        (Campaign.add_stats (Progress.sent (Job.progress updatedJob))
                            (Progress.failed (Job.progress updatedJob)) total) ;;
      remaining ← gets (fun s => Job.countRemaining campaignId (jobs s));
      if (remaining =? 0)%nat
      then Campaign_updateOne campaignId (Campaign.set_status Campaign.completed)
      else mret tt
    else mret tt
  end.

(** The check as it stands after a successful send: the cached progress is
    flushed first, and whatever is thrown is swallowed. *)
Definition completionCheck (jobId campaignId : nat) (dataTotal : Z) : Proc Net unit :=
  tryCatch (flushProgress jobId ;; checkCompletion jobId campaignId dataTotal)
           (fun _ => mret tt).

(** The check as it stands after a failed send: no flush. *)
Definition completionCheck_onFailure (jobId campaignId : nat) (dataTotal : Z) : Proc Net unit :=
  tryCatch (checkCompletion jobId campaignId dataTotal) (fun _ => mret tt).

(** [emailQueue.process('send-email', ...)] *)
Definition process_send_email (emailData : EmailService.EmailData)
    (jobId campaignId userId contactId : nat) (total : Z) : Proc Net unit :=
  result ← emailService_sendEmail emailData 1;
  match result with
  | EmailService.Success provider messageId _ =>
    incProgress jobId 1 0 (or_number total 0) ;;
    (if ANALYTICS_ENABLED cfg then
       Analytics_create
         {| Analytics.campaignId := campaignId; Analytics.userId := userId;
            Analytics.contactId := contactId; Analytics.email := EmailService.to emailData;
            Analytics.event := "sent"; Analytics.provider := Some provider;
            Analytics.metadata := [("messageId", messageId)] |}
     else mret tt) ;;
    completionCheck jobId campaignId total
  | EmailService.Failure error attempts =>
    incProgress jobId 0 1 (or_number total 0) ;;
    (if ANALYTICS_ENABLED cfg then
       Analytics_create
         {| Analytics.campaignId := campaignId; Analytics.userId := userId;
            Analytics.contactId := contactId; Analytics.email := EmailService.to emailData;
            Analytics.event := "failed"; Analytics.provider := None;
            Analytics.metadata := [("error", error); ("attempts", pretty attempts)] |}
     else mret tt) ;;
    completionCheck_onFailure jobId campaignId total ;;
    raise (Error error)
  end.

(** [emailQueue.process('send-batch', ...)]; [during] is what the other
    workers do while this one waits its 200 ms. *)
Definition process_send_batch_during (during : Proc Net unit) (fuel : nat)
    (jobId campaignId userId : nat) (contacts : list Recipient.t)
    (campaignData : CampaignData.t) : Proc Net unit :=
  tryCatch
    (jobDoc ← Job_findById jobId;
     match jobDoc with
     | None => raise (Error "Job not found")
     | Some _ =>
       Job_updateOne jobId Job.always (Job.set_status Job.processing) ;;
       let totalContacts := Z.of_nat (length contacts) in
       let batchSize := BATCH_ENQUEUE_SIZE cfg in
       forChunks fuel 0 batchSize (length contacts)
         (fun i _ =>
            promiseAll
              (map (fun contact =>
                      emailQueue_add
                        (Queue.send_email (emailDataOf campaignData (Recipient.email contact))
                                          jobId campaignId userId (Recipient.contactId contact)
                                          totalContacts)
                        {| Queue.priority := Some 1%nat;
                           Queue.attempts := JOB_ATTEMPTS_EMAIL cfg; Queue.delay := 0 |} ;;
                      mret tt)
                   (slice i (i + batchSize) contacts)))
         tt ;;
       sleep 200 ;;
       during ;;
       updatedJob ← Job_findById jobId;
       match updatedJob with
       | None => raise TypeError
       | Some updatedJob =>
         let sentCount := Progress.sent (Job.progress updatedJob) in
         let failedCount := Progress.failed (Job.progress updatedJob) in
         if (totalContacts <=? sentCount + failedCount)%Z then
           Job_updateOne jobId Job.always (Job.set_status Job.completed) ;;
           Campaign_updateOne campaignId
             (Campaign.add_stats sentCount failedCount totalContacts) ;;
           remaining ← gets (fun s => Job.countRemaining campaignId (jobs s));
           if (remaining =? 0)%nat
           then Campaign_updateOne campaignId (Campaign.set_status Campaign.completed)
           else mret tt
         else mret tt
       end
     end)
    (fun error =>
       Job_updateOne jobId Job.always (Job.set_status Job.failed) ;;
       raise error).

(** The batch worker when nothing else happens during its wait. *)
Definition process_send_batch (fuel : nat) (jobId campaignId userId : nat)
    (contacts : list Recipient.t) (campaignData : CampaignData.t) : Proc Net unit :=
  process_send_batch_during (mret tt) fuel jobId campaignId userId contacts campaignData.

(** The processor registered for the name of the job. *)
Definition handler (fuel : nat) (data : Queue.Data) : Proc Net unit :=
  match data with
  | Queue.send_batch jobId campaignId userId contacts campaignData =>
    process_send_batch fuel jobId campaignId userId contacts campaignData
  | Queue.send_email emailData jobId campaignId userId contactId total =>
    process_send_email emailData jobId campaignId userId contactId total
  | Queue.retry_failed_emails jobId =>
    retryFailedEmails jobId ;; mret tt
  end.

(** One turn of a Bull worker: the oldest waiting job is taken off the
    queue and its processor run; a job whose processor throws is put back
    as long as it has been attempted fewer than [opts.attempts] times. *)
Definition workOne (fuel : nat) : Proc Net unit :=
  fun s =>
    match queue s with
    | [] => Some (Normal tt, s)
    | task :: rest =>
      match handler fuel (Queue.data task) (with_queue (fun _ => rest) s) with
      | Some (Normal _, s') => Some (Normal tt, s')
      | Some (Throw _, s') =>
        if (Queue.attemptsMade task + 1 <? Queue.attempts (Queue.opts task))%nat
        then Some (Normal tt,
                   with_queue (fun q => q ++ [ {| Queue.id := Queue.id task;
                                                  Queue.data := Queue.data task;
                                                  Queue.opts := Queue.opts task;
                                                  Queue.attemptsMade :=
                                                    Queue.attemptsMade task + 1 |} ]) s')
        else Some (Normal tt, s')
      | None => None
      end
    end.

(** The workers run until the queue is empty ([turns] bounds the number of
    jobs taken).  This is one schedule of the workers: jobs are taken in
    the order they were added and each processor runs to its end before the
    next job is taken, so a batch worker has ended its wait of 200 ms
    before the first of its send tasks is processed.  With several workers
    the processors take turns at their [await]s. *)
Fixpoint work (turns fuel : nat) : Proc Net unit :=
  match turns with
  | O => fun s => match queue s with [] => Some (Normal tt, s) | _ => None end
  | S turns' =>
    fun s => match queue s with
             | [] => Some (Normal tt, s)
             | _ => (workOne fuel ;; work turns' fuel) s
             end
  end.

End Services.

(** ** Vocabulary for stating the behaviour of the workers *)

Section WorkerVocabulary.

Context {Net : Type}.

(** What [flushProgress] does to the state. *)
Definition flushed (jobId : nat) (s : State Net) : State Net :=
  match progressCache s !! jobId with
  | None => s
  | Some cached =>
    if (Progress.sent cached =? 0)%Z && (Progress.failed cached =? 0)%Z then s
    else
      with_progressCache
        (insert jobId {| Progress.total := Progress.total cached; Progress.sent := 0;
                         Progress.failed := 0 |})
        (with_jobs (Job.updateOne jobId Job.always
                      (fun j => Job.set_total_if_truthy (Progress.total cached)
                                  (Job.inc_progress (Progress.sent cached)
                                                    (Progress.failed cached) j))) s)
  end.

(** The condition under which the completion check closes a job out:
    [done && updatedJob.status !== 'completed']. *)
Definition closesOut (dataTotal : Z) (j : Job.t) : bool :=
  let total := or_number dataTotal (or_number (Progress.total (Job.progress j)) 0) in
  ((total <=? Progress.sent (Job.progress j) + Progress.failed (Job.progress j))%Z
   && (0 <? total)%Z)
  && negb (bool_decide (Job.status j = Job.completed)).

End WorkerVocabulary.

(** ** Vocabulary for stating the behaviour of the retry scan *)

Section RetryVocabulary.

Context {Net : Type}.

(** The scan re-submits the retry job of [jobId]: after the scan a job
    added by it is waiting in the queue, addressed to [jobId], to be
    attempted once, after the back-off delay computed from the pending
    entries of [job], and that delay is at most 240000 ms. *)
Definition resubmits (s : State Net) (jobId : nat) (job : Job.t) : Prop :=
  exists s' task,
    scheduleRetries s = Some (Normal tt, s')
    /\ task ∈ queue s'
    /\ (queued s <= Queue.id task)%nat
    /\ Queue.data task = Queue.retry_failed_emails jobId
    /\ Queue.attempts (Queue.opts task) = 1%nat
    /\ Queue.delay (Queue.opts task)
       = 60000 * 2 ^ Z.of_nat (max_list (map ErrorLog.retryCount (unresolvedErrors job)))
    /\ Queue.delay (Queue.opts task) <= 240000.

(** The log lines written between two states are all about addresses of
    the given entries. *)
Definition logsOnlyFor (entries : list ErrorLog.t) (s s' : State Net) : Prop :=
  exists new,
    EmailService.log (world s') = EmailService.log (world s) ++ new
    /\ Forall (fun l => exists e, In e entries
                                  /\ EmailService.recipient l = ErrorLog.email e) new.

End RetryVocabulary.

(** ** Vocabulary for comparing the two ways a batch is processed *)

Section DeliveryVocabulary.

Context {Net : Type}.
Variable sendWithMailgun :
  EmailService.Provider -> EmailService.EmailData -> Net
  -> (option EmailService.Response + JsError) * Net.
Variable sendWithSMTP :
  EmailService.Provider -> EmailService.EmailData -> Net
  -> (option EmailService.Response + JsError) * Net.
Variable providers : list EmailService.Provider.

(** Sending one message, seen from the network: whether it succeeded, and
    the network afterwards. *)
Definition deliver (maxRetries : nat) (emailData : EmailService.EmailData) (n : Net)
  : bool * Net :=
  let (c, w) := EmailService.sendEmail sendWithMailgun sendWithSMTP providers emailData
                  maxRetries (EmailService.mkWorld n [] []) in
  (match c with Normal r => EmailService.success r | Throw _ => false end,
   EmailService.net w).

Definition count1 (maxRetries : nat) (campaignData : CampaignData.t)
    (acc : Z * Z * Net) (r : Recipient.t) : Z * Z * Net :=
  let '(sent, failed, n) := acc in
  let (ok, n') := deliver maxRetries (emailDataOf campaignData (Recipient.email r)) n in
  if ok then (sent + 1, failed, n') else (sent, failed + 1, n').

(** Sending to the recipients one after the other, starting from network
    [n]: how many were sent, how many failed, and the network afterwards. *)
Definition tally (maxRetries : nat) (campaignData : CampaignData.t)
    (recipients : list Recipient.t) (n : Net) : Z * Z * Net :=
  foldl (count1 maxRetries campaignData) (0, 0, n) recipients.

End DeliveryVocabulary.

(** The campaign documents after a batch with the given counts is closed
    out: the counts are added to the statistics of the campaign, which is
    marked completed when none of its jobs is pending or processing. *)
Definition closeCampaign (campaignId : nat) (sent failed total : Z)
    (js : gmap nat Job.t) (cs : gmap nat Campaign.t) : gmap nat Campaign.t :=
  let cs' := Campaign.updateOne campaignId (Campaign.add_stats sent failed total) cs in
  if (Job.countRemaining campaignId js =? 0)%nat
  then Campaign.updateOne campaignId (Campaign.set_status Campaign.completed) cs'
  else cs'.

Section FrameVocabulary.

Context {Net : Type}.

(** Two states agree on everything but the jobs, the analytics records
    and the world. *)
Definition sameElsewhere (s s' : State Net) : Prop :=
  contacts s' = contacts s /\ campaigns s' = campaigns s
  /\ progressCache s' = progressCache s /\ queue s' = queue s
  /\ queued s' = queued s /\ outages s' = outages s.

End FrameVocabulary.

Section FallbackVocabulary.

Context {Net : Type}.
Variable sendWithMailgun :
  EmailService.Provider -> EmailService.EmailData -> Net
  -> (option EmailService.Response + JsError) * Net.
Variable sendWithSMTP :
  EmailService.Provider -> EmailService.EmailData -> Net
  -> (option EmailService.Response + JsError) * Net.
Variable providers : list EmailService.Provider.

(** The state of a batch while its recipients are being worked through:
    the job is [processing], its total is the number of recipients, its
    counters and the network are those of the recipients done so far, and
    nothing else has moved since [s0]. *)
Definition underway (maxRetries : nat) (campaignData : CampaignData.t) (jobId : nat)
    (total : Z) (j0 : Job.t) (s0 : State Net) (done : list Recipient.t) (s : State Net) : Prop :=
  exists j,
    jobs s !! jobId = Some j
    /\ Job.status j = Job.processing
    /\ Job.campaignId j = Job.campaignId j0
    /\ Job.contacts j = Job.contacts j0
    /\ Progress.total (Job.progress j) = total
    /\ (Progress.sent (Job.progress j), Progress.failed (Job.progress j),
        EmailService.net (world s))
       = tally sendWithMailgun sendWithSMTP providers maxRetries campaignData done
               (EmailService.net (world s0))
    /\ campaigns s = campaigns s0
    /\ progressCache s = progressCache s0
    /\ forall id, id <> jobId -> jobs s !! id = jobs s0 !! id.

(** The state of a batch once it is closed out: the job is [completed]
    and fully accounted for, with the counters of its recipients, and the
    campaign has been updated accordingly. *)
Definition closedOut (maxRetries : nat) (campaignData : CampaignData.t)
    (jobId campaignId : nat) (j0 : Job.t) (s0 s : State Net) : Prop :=
  exists j,
    jobs s !! jobId = Some j
    /\ Job.status j = Job.completed
    /\ Job.campaignId j = Job.campaignId j0
    /\ Progress.total (Job.progress j) = Z.of_nat (length (Job.contacts j0))
    /\ Progress.sent (Job.progress j) + Progress.failed (Job.progress j)
       = Progress.total (Job.progress j)
    /\ (Progress.sent (Job.progress j), Progress.failed (Job.progress j),
        EmailService.net (world s))
       = tally sendWithMailgun sendWithSMTP providers maxRetries campaignData
               (Job.contacts j0) (EmailService.net (world s0))
    /\ campaigns s
       = closeCampaign campaignId (Progress.sent (Job.progress j))
                       (Progress.failed (Job.progress j))
                       (Z.of_nat (length (Job.contacts j0))) (jobs s) (campaigns s0)
    /\ progressCache s = progressCache s0
    /\ forall id, id <> jobId -> jobs s !! id = jobs s0 !! id.

(** The send task the batch worker adds for the [k]-th recipient. *)
Definition emailTask (attempts : nat) (campaignData : CampaignData.t)
    (jobId campaignId userId : nat) (total : Z) (first : nat) (k : nat)
    (contact : Recipient.t) : Queue.Task :=
  {| Queue.id := first + k;
     Queue.data := Queue.send_email (emailDataOf campaignData (Recipient.email contact))
                                    jobId campaignId userId (Recipient.contactId contact) total;
     Queue.opts := {| Queue.priority := Some 1%nat; Queue.attempts := attempts;
                      Queue.delay := 0 |};
     Queue.attemptsMade := 0 |}.

End FallbackVocabulary.

(** ** Sample data, used to exercise the statements *)

Module Sample.

Definition contact (n : nat) (email : string) (status : string) : Contact.t :=
  {| Contact._id := n; Contact.userId := 1; Contact.email := email;
     Contact.name := None; Contact.tags := ["news"]; Contact.status := status |}.

Definition addressBook : list Contact.t :=
  [ contact 11 "ann@example.org" "active";
    contact 12 "bob@example.org" "active";
    contact 13 "cyd@example.org" "bounced";
    contact 14 "dee@example.org" "active";
    contact 15 "eve@example.org" "active";
    contact 16 "fay@example.org" "active" ].

Definition noFilters : ContactFilters := {| filter_tags := []; filter_status := [] |}.

(** Batches of two recipients; everything else as in [defaults]. *)
Definition smallBatches : Config :=
  {| MAX_EMAILS_PER_BATCH := 2; SYNC_SEND_CONCURRENCY := 10; SYNC_SEND_RETRIES := 1;
     BATCH_ENQUEUE_SIZE := 200; JOB_ATTEMPTS_EMAIL := 1; ANALYTICS_ENABLED := true;
     PROGRESS_BATCHING := false; PROGRESS_BATCH_SIZE := 10 |}.

Definition campaign : Campaign.t :=
  {| Campaign.userId := 1; Campaign.subject := "Hello"; Campaign.body := "Hi there";
     Campaign.bodyHtml := ""; Campaign.attachments := [];
     Campaign.fromEmail := "news@example.org"; Campaign.fromName := "News";
     Campaign.replyTo := ""; Campaign.status := Campaign.sending;
     Campaign.stats := {| Progress.total := 0; Progress.sent := 0; Progress.failed := 0 |} |}.

Definition campaignData : CampaignData.t :=
  {| CampaignData.subject := "Hello"; CampaignData.body := "Hi there";
     CampaignData.bodyHtml := "Hi there"; CampaignData.fromEmail := "news@example.org";
     CampaignData.fromName := "News"; CampaignData.replyTo := "news@example.org";
     CampaignData.attachments := [] |}.

(** Campaign 7 is about to be sent; nothing has been planned or queued. *)
Definition unsent : State nat :=
  mkState addressBook ∅ {[ 7%nat := campaign ]} [] ∅ [] 0 [] EmailService.quiet.


Definition pendingError (email : string) (retryCount : nat) : ErrorLog.t :=
  {| ErrorLog.email := email; ErrorLog.error := "ETIMEDOUT";
     ErrorLog.retryCount := retryCount; ErrorLog.resolved := false |}.

Definition batchOfThree (status : Job.Status) (errorLog : list ErrorLog.t) : Job.t :=
  {| Job.campaignId := 7; Job.userId := 1; Job.batchNumber := 1;
     Job.contacts := map toRecipient (take 3 addressBook);
     Job.status := status;
     Job.progress := {| Progress.total := 3;
                        Progress.sent := 3 - Z.of_nat (length errorLog);
                        Progress.failed := Z.of_nat (length errorLog) |};
     Job.errorLog := errorLog |}.

(** A completed batch with two pending entries (retried never and twice)
    and one entry at the ceiling. *)
Definition finishedJob : Job.t :=
  batchOfThree Job.completed
    [ pendingError "ann@example.org" 0; pendingError "bob@example.org" 2;
      pendingError "cyd@example.org" 3 ].

Definition finished : State nat :=
  mkState addressBook {[ 1%nat := finishedJob ]} {[ 7%nat := campaign ]} [] ∅ [] 0 []
          EmailService.quiet.

(** A batch still being processed, with one pending entry. *)
Definition stalledJob : Job.t :=
  batchOfThree Job.processing [ pendingError "bob@example.org" 1 ].

Definition stalled : State nat :=
  mkState addressBook {[ 1%nat := stalledJob ]} {[ 7%nat := campaign ]} [] ∅ [] 0 []
          EmailService.quiet.


(** The first batch of campaign 7 as [createBatches] plans it with batches
    of two, stored as job 1; [outage] says whether Redis is down for the
    coming [add] calls. *)
Definition batch1 : Batch.t :=
  {| Batch.jobId := 1; Batch.batchNumber := 1;
     Batch.contacts := map toRecipient (take 2 addressBook); Batch.total := 2 |}.

Definition planned (outage : list bool) : State nat :=
  mkState addressBook {[ 1%nat := newJob 7 1 1 (Batch.contacts batch1) ]}
          {[ 7%nat := campaign ]} [] ∅ [] 0 outage EmailService.quiet.

(** Two attempts per send task (JOB_ATTEMPTS_EMAIL=2); everything else as
    in [defaults]. *)
Definition twoAttempts : Config :=
  {| MAX_EMAILS_PER_BATCH := 2; SYNC_SEND_CONCURRENCY := 10; SYNC_SEND_RETRIES := 1;
     BATCH_ENQUEUE_SIZE := 200; JOB_ATTEMPTS_EMAIL := 2; ANALYTICS_ENABLED := true;
     PROGRESS_BATCHING := false; PROGRESS_BATCH_SIZE := 10 |}.

End Sample.

(** ** More of services/emailService.js *)

Module EmailServiceMore.

Import EmailService.

(** [array.sort((a, b) => a.priority - b.priority)]: the sort is stable,
    an element goes in front of the first one whose priority is not
    smaller. *)
Fixpoint insertByPriority (p : Provider) (sorted : list Provider) : list Provider :=
  match sorted with
  | [] => [p]
  | q :: rest =>
    if (priority q <? priority p)%nat then q :: insertByPriority p rest
    else p :: q :: rest
  end.

Definition sortByPriority (providers : list Provider) : list Provider :=
  foldr insertByPriority [] providers.

(** [k] calls of [getNextProvider] in a row: the providers handed out and
    [this.currentProviderIndex] afterwards. *)
Fixpoint getNextProviders (k : nat) (providers : list Provider) (currentProviderIndex : nat)
  : Completion (list (option Provider) * nat) :=
  match k with
  | O => Normal ([], currentProviderIndex)
  | S k' =>
    match getNextProvider providers currentProviderIndex with
    | Throw e => Throw e
    | Normal (provider, next) =>
      match getNextProviders k' providers next with
      | Throw e => Throw e
      | Normal (rest, final) => Normal (provider :: rest, final)
      end
    end
  end.

(** The [data] object [sendWithMailgun] hands to the Mailgun client; a key
    that is not set is [None]. *)
Record MailgunData := {
  mg_from : string;
  mg_to : string;
  mg_subject : string;
  mg_text : string;
  mg_html : string;
  h_Reply_To : string;
  attachment : option (list string)
}.

Definition mailgunData (emailData : EmailData) : MailgunData :=
  {| mg_from := from emailData;
     mg_to := to emailData;
     mg_subject := subject emailData;
     mg_text := text emailData;
     mg_html := html emailData;
     h_Reply_To := or_string (replyTo emailData) (from emailData);
     attachment := if (0 <? length (attachments emailData))%nat
                   then Some (map path (attachments emailData))
                   else None |}.

(** The [mailOptions] object [sendWithSMTP] hands to the transporter. *)
Record MailOptions := {
  mo_from : string;
  mo_to : string;
  mo_subject : string;
  mo_text : string;
  mo_html : string;
  mo_replyTo : string;
  mo_attachments : option (list Attachment)
}.

Definition mailOptions (emailData : EmailData) : MailOptions :=
  {| mo_from := from emailData;
     mo_to := to emailData;
     mo_subject := subject emailData;
     mo_text := text emailData;
     mo_html := html emailData;
     mo_replyTo := or_string (replyTo emailData) (from emailData);
     mo_attachments := if (0 <? length (attachments emailData))%nat
                       then Some (map (fun att => {| filename := filename att;
                                                     path := path att |})
                                      (attachments emailData))
                       else None |}.

End EmailServiceMore.

(** ** More of services/batchProcessor.js *)

(** An element of the [jobs] array of [getAllBatchStatuses]; what
    [getBatchStatus] returns has the same fields and two timestamps. *)
Module BatchStatus.
Record t := { jobId : nat; batchNumber : nat; status : Job.Status; progress : Progress.t }.
End BatchStatus.

Record AllBatchStatuses := { statusJobs : list BatchStatus.t; totalProgress : Progress.t }.

Definition byBatchNumber (a b : nat * Job.t) : Prop :=
  (Job.batchNumber a.2 <= Job.batchNumber b.2)%nat.

#[global] Instance byBatchNumber_dec a b : Decision (byBatchNumber a b).
Proof. unfold byBatchNumber. apply _. Defined.

(** [Job.find({ campaignId }).sort({ batchNumber: 1 })] *)
Definition jobsOfCampaign (campaignId : nat) (js : gmap nat Job.t) : list (nat * Job.t) :=
  merge_sort byBatchNumber
    (List.filter (fun kv => (Job.campaignId kv.2 =? campaignId)%nat) (map_to_list js)).

(** The body of [jobs.forEach(job => { totalProgress.total += ...; ... })]. *)
Definition addProgress (totalProgress : Progress.t) (job : nat * Job.t) : Progress.t :=
  {| Progress.total := Progress.total totalProgress + Progress.total (Job.progress job.2);
     Progress.sent := Progress.sent totalProgress + Progress.sent (Job.progress job.2);
     Progress.failed := Progress.failed totalProgress + Progress.failed (Job.progress job.2) |}.

Definition statusOf (job : nat * Job.t) : BatchStatus.t :=
  {| BatchStatus.jobId := job.1; BatchStatus.batchNumber := Job.batchNumber job.2;
     BatchStatus.status := Job.status job.2; BatchStatus.progress := Job.progress job.2 |}.

(** ** routes/campaigns.js: POST /api/campaigns/:id/send *)

Module SendRoute.

(** What the route answers: [res.json({...})] with the plan, or
    [res.status(code).json({ message })]. *)
Inductive Response :=
| queuedForSending (campaignId totalContacts totalBatches : nat) (batches : list (nat * nat))
| status (code : nat) (message : option string).

End SendRoute.

Section MoreServices.

Context {Net : Type}.
Variable sendWithMailgun :
  EmailService.Provider -> EmailService.EmailData -> Net
  -> (option EmailService.Response + JsError) * Net.
Variable sendWithSMTP :
  EmailService.Provider -> EmailService.EmailData -> Net
  -> (option EmailService.Response + JsError) * Net.
Variable providers : list EmailService.Provider.
Variable cfg : Config.
(** [campaign.contactFilters], by campaign id: a field of the campaign
    documents that the send pipeline reads and never writes. *)
Variable contactFilters : nat -> ContactFilters.

Definition getBatchStatus (jobId : nat) : Proc Net BatchStatus.t :=
  job ← Job_findById jobId;
  match job with
  | None => raise (Error "Job not found")
  | Some job => mret (statusOf (jobId, job))
  end.

Definition getAllBatchStatuses (campaignId : nat) : Proc Net AllBatchStatuses :=
  found ← gets (fun s => jobsOfCampaign campaignId (jobs s));
  let totalProgress :=
    foldl addProgress {| Progress.total := 0; Progress.sent := 0; Progress.failed := 0 |}
          found in
  mret {| statusJobs := map statusOf found; totalProgress := totalProgress |}.

(** [Campaign.findOne({ _id: id, userId: user })] *)
Definition ownCampaign (id user : nat) (s : State Net) : option Campaign.t :=
  c ← campaigns s !! id;
  if (Campaign.userId c =? user)%nat then Some c else None.

(** The [campaignData] object the route prepares. *)
Definition campaignDataOf (campaign : Campaign.t) : CampaignData.t :=
  {| CampaignData.subject := Campaign.subject campaign;
     CampaignData.body := Campaign.body campaign;
     CampaignData.bodyHtml := or_string (Campaign.bodyHtml campaign) (Campaign.body campaign);
     CampaignData.fromEmail := Campaign.fromEmail campaign;
     CampaignData.fromName := or_string (Campaign.fromName campaign) "";
     CampaignData.replyTo := or_string (Campaign.replyTo campaign) (Campaign.fromEmail campaign);
     CampaignData.attachments := Campaign.attachments campaign |}.

(** The handler of the route, for the campaign [id] and the signed-in
    user [user]. *)
Definition sendCampaign (fuel : nat) (id user : nat) : Proc Net SendRoute.Response :=
  tryCatch
    (campaign ← gets (ownCampaign id user);
     match campaign with
     | None => mret (SendRoute.status 404 (Some "Campaign not found"))
     | Some campaign =>
       match Campaign.status campaign with
       | Campaign.sending =>
         mret (SendRoute.status 400 (Some "Campaign is already being sent"))
       | _ =>
         Campaign_updateOne id (Campaign.set_status Campaign.sending) ;;
         plan ← createBatches cfg fuel id user (contactFilters id);
         processBatches sendWithMailgun sendWithSMTP providers cfg fuel id user
                        (campaignDataOf campaign) (batches plan) ;;
         mret (SendRoute.queuedForSending id (totalContacts plan) (totalBatches plan)
                 (map (fun b => (Batch.jobId b, Batch.batchNumber b)) (batches plan)))
       end
     end)
    (fun error =>
       Campaign_updateOne id (Campaign.set_status Campaign.draft) ;;
       mret (SendRoute.status 500 (message error))).

End MoreServices.

(** ** The direct send route: POST /api/email/send *)

Module EmailRoute.

(** [req.body]; a field that is not given is [None]. *)
Record Body := {
  to : option string;
  subject : option string;
  text : option string;
  html : option string;
  fromEmail : option string;
  fromName : option string;
  replyTo : option string;
  attachments : option (list EmailService.Attachment)
}.

(** What the route answers. *)
Inductive Response :=
| sent (provider messageId to : string)                       (* 200 *)
| missingFields                                                (* 400 *)
| failedToSend (error : string) (to : string)                  (* 502 *)
| serverError (message : string).                              (* 500 *)

(** The [emailData] object the route builds; [text] and [html] hold the
    empty string where the route passes [undefined]. *)
Definition directEmailData (body : Body) (userEmail : string) : EmailService.EmailData :=
  let senderEmail := or_default (fromEmail body) userEmail in
  {| EmailService.from := if truthy (fromName body)
                          then or_default (fromName body) "" ++ " <" ++ senderEmail ++ ">"
                          else senderEmail;
     EmailService.to := or_default (to body) "";
     EmailService.subject := or_default (subject body) "";
     EmailService.text := or_default (text body) "";
     EmailService.html := or_default (html body) "";
     EmailService.replyTo := or_default (replyTo body) senderEmail;
     EmailService.attachments := default [] (attachments body) |}.

(** [!to || !subject || (!text && !html)] *)
Definition incomplete (body : Body) : bool :=
  negb (truthy (to body)) || negb (truthy (subject body))
  || (negb (truthy (text body)) && negb (truthy (html body))).

End EmailRoute.

Section DirectSend.

Context {Net : Type}.
Variable sendWithMailgun :
  EmailService.Provider -> EmailService.EmailData -> Net
  -> (option EmailService.Response + JsError) * Net.
Variable sendWithSMTP :
  EmailService.Provider -> EmailService.EmailData -> Net
  -> (option EmailService.Response + JsError) * Net.
Variable providers : list EmailService.Provider.

(** The handler of the route, for the signed-in user's address. *)
Definition sendDirect (body : EmailRoute.Body) (userEmail : string)
  : Proc Net EmailRoute.Response :=
  tryCatch
    (if EmailRoute.incomplete body then mret EmailRoute.missingFields
     else
       let emailData := EmailRoute.directEmailData body userEmail in
       result ← emailService_sendEmail sendWithMailgun sendWithSMTP providers emailData 3;
       match result with
       | EmailService.Success provider messageId _ =>
         mret (EmailRoute.sent provider messageId (EmailService.to emailData))
       | EmailService.Failure error _ =>
         mret (EmailRoute.failedToSend error (EmailService.to emailData))
       end)
    (fun error =>
       mret (EmailRoute.serverError (or_default (message error) "Internal Server Error"))).

End DirectSend.

(** ** Vocabulary for the retry scan and the batch submission *)

(** The job the retry scan adds for a batch. *)
Definition retryTask (first k : nat) (found : nat * Job.t) : Queue.Task :=
  {| Queue.id := first + k;
     Queue.data := Queue.retry_failed_emails found.1;
     Queue.opts := {| Queue.priority := None; Queue.attempts := 1;
                      Queue.delay := retryDelay (unresolvedErrors found.2) |};
     Queue.attemptsMade := 0 |}.

(** The batches of the scan that have entries left to retry. *)
Definition toRetry (js : gmap nat Job.t) : list (nat * Job.t) :=
  List.filter (fun kv => (0 <? length (unresolvedErrors kv.2))%nat) (failedJobs js).

(** The job [processBatches] adds for a batch. *)
Definition batchTask (campaignId userId : nat) (campaignData : CampaignData.t)
    (first k : nat) (batch : Batch.t) : Queue.Task :=
  {| Queue.id := first + k;
     Queue.data := Queue.send_batch (Batch.jobId batch) campaignId userId
                                    (Batch.contacts batch) campaignData;
     Queue.opts := {| Queue.priority := Some 1%nat; Queue.attempts := 1; Queue.delay := 0 |};
     Queue.attemptsMade := 0 |}.

(** What [processBatches] pushes for a batch it has queued. *)
Definition submittedAs (first k : nat) (batch : Batch.t) : Submitted :=
  {| sub_jobId := Batch.jobId batch; queueJobId := Some (first + k)%nat;
     sub_batchNumber := Batch.batchNumber batch |}.

Section PlanningVocabulary.

Context {Net : Type}.

(** Two states differ in the job collection at most. *)
Definition sameButJobs (s s' : State Net) : Prop :=
  contacts s' = contacts s /\ campaigns s' = campaigns s /\ analytics s' = analytics s
  /\ progressCache s' = progressCache s /\ queue s' = queue s /\ queued s' = queued s
  /\ outages s' = outages s /\ world s' = world s.

End PlanningVocabulary.

(** A contact is one the query of [createBatches] selects. *)
Definition selected (user : nat) (contactFilters : ContactFilters) (c : Contact.t) : Prop :=
  Contact.userId c = user
  /\ (filter_status contactFilters = [] -> Contact.status c = "active")
  /\ (filter_status contactFilters <> [] -> Contact.status c ∈ filter_status contactFilters)
  /\ (filter_tags contactFilters <> [] ->
      exists t, t ∈ Contact.tags c /\ t ∈ filter_tags contactFilters).


Section RecordsVocabulary.

Context {Net : Type}.


End RecordsVocabulary.

(** The status entry of a batch that has been planned and not started. *)
Definition plannedStatus (b : Batch.t) : BatchStatus.t :=
  {| BatchStatus.jobId := Batch.jobId b; BatchStatus.batchNumber := Batch.batchNumber b;
     BatchStatus.status := Job.pending;
     BatchStatus.progress := {| Progress.total := Z.of_nat (length (Batch.contacts b));
                                Progress.sent := 0; Progress.failed := 0 |} |}.

(** ** More sample data *)

Module SampleMore.

(** MAX_EMAILS_PER_BATCH=0; everything else as in [defaults]. *)
Definition emptyBatches : Config :=
  {| MAX_EMAILS_PER_BATCH := 0; SYNC_SEND_CONCURRENCY := 10; SYNC_SEND_RETRIES := 1;
     BATCH_ENQUEUE_SIZE := 200; JOB_ATTEMPTS_EMAIL := 1; ANALYTICS_ENABLED := true;
     PROGRESS_BATCHING := false; PROGRESS_BATCH_SIZE := 10 |}.

(** Progress updates are cached and written ten at a time
    (PROGRESS_BATCHING=true); everything else as in [defaults]. *)
Definition cachedProgress : Config :=
  {| MAX_EMAILS_PER_BATCH := 1000; SYNC_SEND_CONCURRENCY := 10; SYNC_SEND_RETRIES := 1;
     BATCH_ENQUEUE_SIZE := 200; JOB_ATTEMPTS_EMAIL := 1; ANALYTICS_ENABLED := true;
     PROGRESS_BATCHING := true; PROGRESS_BATCH_SIZE := 10 |}.


(** A completed batch whose only entry has reached the ceiling. *)
Definition settledJob : Job.t :=
  Sample.batchOfThree Job.completed [ Sample.pendingError "cyd@example.org" 3 ].

Definition settled : State nat :=
  mkState Sample.addressBook {[ 1%nat := settledJob ]} {[ 7%nat := Sample.campaign ]} [] ∅
          [] 0 [] EmailService.quiet.

(** The finished batch of [Sample.finished] after its campaign was deleted. *)
Definition orphaned : State nat :=
  mkState Sample.addressBook {[ 1%nat := Sample.finishedJob ]} ∅ [] ∅ [] 0 []
          EmailService.quiet.

(** Campaign 7 after an earlier send, and as a draft. *)
Definition sentCampaign : Campaign.t := Campaign.set_status Campaign.completed Sample.campaign.
Definition draftCampaign : Campaign.t := Campaign.set_status Campaign.draft Sample.campaign.

Definition resend : State nat :=
  mkState Sample.addressBook ∅ {[ 7%nat := sentCampaign ]} [] ∅ [] 0 [] EmailService.quiet.

Definition drafted : State nat :=
  mkState Sample.addressBook ∅ {[ 7%nat := draftCampaign ]} [] ∅ [] 0 [] EmailService.quiet.

Definition everyone : nat -> ContactFilters := fun _ => Sample.noFilters.
Definition vipOnly : nat -> ContactFilters :=
  fun _ => {| filter_tags := ["vip"]; filter_status := [] |}.




(** The first batch of campaign 7, planned as job 1, submitted while Redis
    is down: the synchronous fallback runs. *)
Definition viaFallback (sendWithMailgun sendWithSMTP :
                          EmailService.Provider -> EmailService.EmailData -> nat
                          -> (option EmailService.Response + JsError) * nat)
    (cfg : Config) : option (Completion (list Submitted) * State nat) :=
  processBatches sendWithMailgun sendWithSMTP [EmailService.mailgun; EmailService.smtp] cfg
    2 7 1 Sample.campaignData [Sample.batch1] (Sample.planned [true]).

(** The same batch submitted while Redis is up, and the workers run until
    the queue is empty. *)
Definition viaQueue (sendWithMailgun sendWithSMTP :
                       EmailService.Provider -> EmailService.EmailData -> nat
                       -> (option EmailService.Response + JsError) * nat)
    (cfg : Config) : option (Completion unit * State nat) :=
  (processBatches sendWithMailgun sendWithSMTP [EmailService.mailgun; EmailService.smtp] cfg
     2 7 1 Sample.campaignData [Sample.batch1]
   ≫= fun _ => work sendWithMailgun sendWithSMTP [EmailService.mailgun; EmailService.smtp]
                    cfg 3 2)
    (Sample.planned []).

(** The same batch once its batch task is taken, in the schedule where
    the two send tasks are processed while the batch worker waits. *)
Definition viaQueueOverlapping (sendWithMailgun sendWithSMTP :
                                  EmailService.Provider -> EmailService.EmailData -> nat
                                  -> (option EmailService.Response + JsError) * nat)
    (cfg : Config) : option (Completion unit * State nat) :=
  process_send_batch_during cfg
    (work sendWithMailgun sendWithSMTP [EmailService.mailgun; EmailService.smtp] cfg 2 2)
    2 1 7 1 (Batch.contacts Sample.batch1) Sample.campaignData (Sample.planned []).

End SampleMore.

(** ** Vocabulary for the progress counters *)

(** The part of a job document the queue workers never write. *)
Definition fixedPart (j : Job.t)
  : nat * nat * nat * list Recipient.t * list ErrorLog.t :=
  (Job.campaignId j, Job.userId j, Job.batchNumber j, Job.contacts j, Job.errorLog j).

Section ProgressVocabulary.

Context {Net : Type}.


(** [progressCache.get(jobId) || { sent: 0, failed: 0, total: 0 }] *)
Definition cached (jobId : nat) (s : State Net) : Progress.t :=
  default {| Progress.total := 0; Progress.sent := 0; Progress.failed := 0 |}
          (progressCache s !! jobId).


(** Between two states only counters and statuses of jobs, campaign
    documents, analytics records, the progress cache and the world have
    changed. *)
Definition countersOnly (s s' : State Net) : Prop :=
  fixedPart <$> jobs s' = fixedPart <$> jobs s
  /\ queue s' = queue s /\ queued s' = queued s /\ outages s' = outages s
  /\ contacts s' = contacts s.

End ProgressVocabulary.

(** ** Vocabulary for the retry service *)

(** What a retry leaves alone in a job document: everything but how the
    outcomes split between sent and failed, and the contents of the
    error-log entries (their addresses, in order, stay). *)
Definition keptByRetry (j : Job.t)
  : nat * nat * nat * list Recipient.t * Job.Status * Z * Z * list string :=
  (Job.campaignId j, Job.userId j, Job.batchNumber j, Job.contacts j, Job.status j,
   Progress.total (Job.progress j),
   Progress.sent (Job.progress j) + Progress.failed (Job.progress j),
   map ErrorLog.email (Job.errorLog j)).

(** * Properties *)

(** Unfolds the operations of the service monad. *)
Ltac proc :=
  unfold Job_updateOne, Campaign_updateOne, Job_findById, Analytics_create in *;
  unfold mbind, Proc_bind, mret, Proc_ret, gets, modify, raise, tryCatch in *;
  cbv beta in *.

(** ** Provider failover ([sendEmail]) *)

Section EmailServiceFacts.

Import EmailService.

Context {Net : Type}.
Variable sendWithMailgun : Provider -> EmailData -> Net -> (option Response + JsError) * Net.
Variable sendWithSMTP : Provider -> EmailData -> Net -> (option Response + JsError) * Net.
Variable sendWithBrevo : Provider -> EmailData -> Net -> (option Response + JsError) * Net.

#[local] Abbreviation World := (@World Net).
#[local] Abbreviation Eff := (@Eff Net).
#[local] Abbreviation tryProvider := (tryProvider sendWithMailgun sendWithSMTP).
#[local] Abbreviation tryProvider_brevo := (tryProvider_brevo sendWithSMTP sendWithBrevo).
#[local] Abbreviation sendEmail := (sendEmail sendWithMailgun sendWithSMTP).
#[local] Abbreviation fails := (fails sendWithMailgun sendWithSMTP).
#[local] Abbreviation RoundFails := (RoundFails sendWithMailgun sendWithSMTP).
#[local] Abbreviation RoundsFail := (RoundsFail sendWithMailgun sendWithSMTP).
#[local] Abbreviation sameOutcome := (@sameOutcome Net).
#[local] Abbreviation sendEmail_brevo := (sendEmail_brevo sendWithSMTP sendWithBrevo).

(** One step of the provider loop, for any [try] block. *)
Lemma forProviders_cons (tb : Provider -> EmailData -> nat -> Eff SendResult)
    p ps d attempt le w :
  forProviders tb (p :: ps) d attempt le w =
  match tb p d attempt w with
  | (Normal res, w1) => (Normal (inl res), w1)
  | (Throw e, w1) => forProviders tb ps d attempt (Some e) (caught p d attempt e w1)
  end.
Proof.
  cbn [forProviders]. unfold mbind, Eff_bind, try_catch, mret, Eff_ret, logger.
  destruct (tb p d attempt w) as [[res|e] w1]; reflexivity.
Qed.

(** No exception leaves the provider loop. *)
Lemma forProviders_returns (tb : Provider -> EmailData -> nat -> Eff SendResult)
    ps d attempt le w :
  exists r w', forProviders tb ps d attempt le w = (Normal r, w').
Proof.
  revert le w. induction ps as [|p ps IH]; intros le w.
  - eexists _, _. reflexivity.
  - rewrite forProviders_cons.
    destruct (tb p d attempt w) as [[res|e] w1]; eauto.
Qed.

Lemma forAttempts_S (tb : Provider -> EmailData -> nat -> Eff SendResult)
    k attempt maxRetries ps d le w :
  forAttempts tb (S k) attempt maxRetries ps d le w =
  match forProviders tb ps d attempt le w with
  | (Normal (inl res), w1) => (Normal res, w1)
  | (Normal (inr le'), w1) =>
    forAttempts tb k (attempt + 1) maxRetries ps d le' (afterRound attempt maxRetries w1)
  | (Throw e, w1) => (Throw e, w1)
  end.
Proof.
  cbn [forAttempts]. unfold mbind at 1. unfold Eff_bind.
  destruct (forProviders tb ps d attempt le w) as [[[res|le']|e] w1]; try reflexivity.
  unfold mbind, Eff_bind, setTimeout, mret, Eff_ret, afterRound.
  destruct (attempt <? maxRetries - 1)%nat; reflexivity.
Qed.

Lemma forProviders_provider (tb : Provider -> EmailData -> nat -> Eff SendResult)
    (Htb : forall p d a w res w', tb p d a w = (Normal res, w') ->
                                  exists m r, res = Success (name p) m r)
    ps d attempt le w res w' :
  forProviders tb ps d attempt le w = (Normal (inl res), w') ->
  exists q m r, q ∈ ps /\ res = Success (name q) m r.
Proof.
  revert le w. induction ps as [|p ps IH]; intros le w H.
  - discriminate.
  - rewrite forProviders_cons in H.
    destruct (tb p d attempt w) as [[res0|e] w1] eqn:E.
    + injection H as -> ->. destruct (Htb _ _ _ _ _ _ E) as (m & r & ->).
      exists p, m, r. split; [left | reflexivity].
    + destruct (IH _ _ H) as (q & m & r & Hq & ->).
      exists q, m, r. split; [by right | reflexivity].
Qed.

Lemma forAttempts_returns (tb : Provider -> EmailData -> nat -> Eff SendResult)
    (Htb : forall p d a w res w', tb p d a w = (Normal res, w') ->
                                  exists m r, res = Success (name p) m r)
    k attempt maxRetries ps d le w :
  exists res w', forAttempts tb k attempt maxRetries ps d le w = (Normal res, w')
                 /\ wellFormedResult ps maxRetries res.
Proof.
  revert attempt le w. induction k as [|k IH]; intros attempt le w.
  - eexists _, _. split; [reflexivity | reflexivity].
  - rewrite forAttempts_S.
    destruct (forProviders_returns tb ps d attempt le w) as ([res|le'] & w1 & E); rewrite E.
    + exists res, w1. split; [reflexivity|].
      destruct (forProviders_provider tb Htb _ _ _ _ _ _ _ E) as (q & m & r & Hq & ->).
      cbn. apply list_elem_of_fmap. eauto.
    + apply IH.
Qed.

Lemma tryProvider_success p d a w res w' :
  tryProvider p d a w = (Normal res, w') -> exists m r, res = Success (name p) m r.
Proof.
  unfold EmailService.tryProvider, mbind, Eff_bind, await, throw, mret, Eff_ret, logger.
  intros H.
  repeat match type of H with
  | context [if ?b then _ else _] => destruct b
  | context [match ?c (net w) with _ => _ end] => destruct (c (net w)) as [[[r|]|e] n]
  end; cbn in H; try discriminate; injection H as <- <-; eauto.
Qed.

Lemma tryProvider_brevo_success p d a w res w' :
  tryProvider_brevo p d a w = (Normal res, w') -> exists m r, res = Success (name p) m r.
Proof.
  unfold EmailService.tryProvider_brevo, mbind, Eff_bind, await, throw, mret, Eff_ret, logger.
  intros H.
  repeat match type of H with
  | context [if ?b then _ else _] => destruct b
  | context [match ?c (net w) with _ => _ end] => destruct (c (net w)) as [[[r|]|e] n]
  end; cbn in H; try discriminate; injection H as <- <-; eauto.
Qed.

Lemma sendEmail_returns ps d n w :
  exists res w', sendEmail ps d n w = (Normal res, w') /\ wellFormedResult ps n res.
Proof. apply forAttempts_returns, tryProvider_success. Qed.

(** C10: [sendEmail] is total at its interface.  Whatever the payload, the
    configured providers, the number of rounds and the behaviour of the
    transports, the call completes normally with a result object, either a
    success naming one of the providers or a failure carrying [maxRetries]
    as its [attempts]; an exception raised while a provider is tried never
    leaves the function.  This holds for both revisions of the service. *)
Theorem sendEmail_total (providers : list Provider) (emailData : EmailData)
    (maxRetries : nat) (w : World) :
  (exists res w', sendEmail providers emailData maxRetries w = (Normal res, w')
                  /\ wellFormedResult providers maxRetries res) /\
  (exists res w', sendEmail_brevo providers emailData maxRetries w = (Normal res, w')
                  /\ wellFormedResult providers maxRetries res).
Proof.
  split.
  - apply sendEmail_returns.
  - apply forAttempts_returns, tryProvider_brevo_success.
Qed.


(** [initializeProviders] yields the providers in ascending priority. *)
Lemma initializeProviders_sorted (env : Env) :
  StronglySorted (fun p q => (priority p <= priority q)%nat) (initializeProviders env).
Proof.
  destruct env as [[] [] [] []]; cbn;
    repeat (constructor; [|repeat (constructor; try (cbn; lia))]); constructor.
Qed.

(** *** Effects of one attempt *)

Lemma failures_app l1 l2 : failures (l1 ++ l2) = failures l1 ++ failures l2.
Proof. apply omap_app. Qed.

(** The [try] block logs at most a 'sent successfully' line and never sleeps. *)
Lemma tryProvider_effects p d a w c w' :
  tryProvider p d a w = (c, w') ->
  slept w' = slept w /\ exists l, log w' = log w ++ l /\ failures l = [].
Proof.
  unfold EmailService.tryProvider, mbind, Eff_bind, await, throw, mret, Eff_ret, logger.
  intros H.
  repeat match type of H with
  | context [if ?b then _ else _] => destruct b
  | context [match ?c (net w) with _ => _ end] => destruct (c (net w)) as [[[r|]|e] n]
  end; cbn in H; injection H as <- <-; cbn; split; try reflexivity;
  first [ exists []; split; [by rewrite app_nil_r | reflexivity]
        | eexists [_]; split; reflexivity ].
Qed.

Lemma RoundFails_of_fails d a ps :
  (forall p, p ∈ ps -> fails p d) -> forall w, exists w', RoundFails d a ps w w'.
Proof.
  induction ps as [|p ps IH]; intros Hall w.
  - exists w. constructor.
  - destruct (Hall p (list_elem_of_here _ _) a w) as (e & w1 & E).
    destruct (IH (fun q Hq => Hall q (list_elem_of_further _ _ _ Hq))
                 (caught p d a e w1)) as (w' & Hr).
    exists w'. econstructor; eassumption.
Qed.

Lemma lastErrorAfter_app le fs1 le1 fs2 le2 :
  lastErrorAfter le fs1 le1 -> lastErrorAfter le1 fs2 le2 ->
  lastErrorAfter le (fs1 ++ fs2) le2.
Proof.
  unfold lastErrorAfter. intros H1 H2.
  destruct fs2 as [|f fs2] using rev_ind.
  - rewrite app_nil_r. cbn in H2. by subst.
  - rewrite app_assoc, last_snoc. by rewrite last_snoc in H2.
Qed.

(** A stretch of providers that all fail: the loop logs one failure per
    provider, awaits nothing and goes on with the providers that follow. *)
Lemma RoundFails_prefix d a ps w w' :
  RoundFails d a ps w w' ->
  forall rest le, exists le' new,
    forProviders tryProvider (ps ++ rest) d a le w = forProviders tryProvider rest d a le' w'
    /\ log w' = log w ++ new
    /\ (failures new).*1 = map (fun p => (name p, a + 1)%nat) ps
    /\ slept w' = slept w
    /\ lastErrorAfter le (failures new) le'.
Proof.
  induction 1 as [w | p ps w e w1 w' E _ IH]; intros rest le.
  - exists le, []. repeat split; try reflexivity. by rewrite app_nil_r.
  - destruct (IH rest (Some e)) as (le' & new & Hrun & Hlog & Hf & Hs & Hl).
    destruct (tryProvider_effects _ _ _ _ _ _ E) as (Hs1 & l1 & Hl1 & Hf1).
    exists le', (l1 ++ FailedVia (name p) (to d) (message e) (a + 1) :: new).
    rewrite <- app_comm_cons, forProviders_cons, E. split; [exact Hrun|].
    split; [|split; [|split]].
    + rewrite Hlog. cbn. rewrite Hl1, <- !app_assoc. reflexivity.
    + rewrite failures_app, Hf1. cbn [app].
      change (failures (FailedVia (name p) (to d) (message e) (a + 1) :: new))
        with ((name p, (a + 1)%nat, message e) :: failures new).
      rewrite fmap_cons, Hf. reflexivity.
    + rewrite Hs. cbn. exact Hs1.
    + rewrite failures_app, Hf1. cbn [app].
      change (failures (FailedVia (name p) (to d) (message e) (a + 1) :: new))
        with ([(name p, (a + 1)%nat, message e)] ++ failures new).
      eapply lastErrorAfter_app; [|exact Hl].
      unfold lastErrorAfter. cbn. eauto.
Qed.

Lemma RoundFails_run d a ps w w' :
  RoundFails d a ps w w' ->
  forall le, exists le' new,
    forProviders tryProvider ps d a le w = (Normal (inr le'), w')
    /\ log w' = log w ++ new
    /\ (failures new).*1 = map (fun p => (name p, a + 1)%nat) ps
    /\ slept w' = slept w
    /\ lastErrorAfter le (failures new) le'.
Proof.
  intros H le. destruct (RoundFails_prefix _ _ _ _ _ H [] le) as (le' & new & Hrun & Hrest).
  rewrite app_nil_r in Hrun. exists le', new. split; [exact Hrun | exact Hrest].
Qed.

Lemma naps_S attempt k maxRetries :
  naps attempt (S k) maxRetries =
  (if (attempt <? maxRetries - 1)%nat then [1000 * (Z.of_nat attempt + 1)] else [])
  ++ naps (S attempt) k maxRetries.
Proof.
  unfold naps. cbn [seq]. rewrite filter_cons.
  replace (S attempt + 1)%nat with (S (attempt + 1)) by lia.
  destruct (Nat.ltb_spec attempt (maxRetries - 1)) as [H|H];
    case_decide; try lia; [|reflexivity].
  cbn [map app]. do 2 f_equal. lia.
Qed.

Lemma naps_all attempt k maxRetries :
  (attempt + k < maxRetries)%nat ->
  naps attempt k maxRetries = map (fun r => 1000 * Z.of_nat r) (seq (attempt + 1) k).
Proof.
  revert attempt. induction k as [|k IH]; intros attempt H; [reflexivity|].
  rewrite naps_S, IH by lia.
  destruct (Nat.ltb_spec attempt (maxRetries - 1)); [|lia].
  cbn [seq map app]. replace (S attempt + 1)%nat with (S (attempt + 1)) by lia.
  do 2 f_equal. lia.
Qed.

(** Rounds in which every provider fails are run through one by one. *)
Lemma RoundsFail_run ps d maxRetries a k w w' :
  RoundsFail ps d maxRetries a k w w' ->
  forall j le, exists le' new,
    forAttempts tryProvider (k + j) a maxRetries ps d le w
      = forAttempts tryProvider j (a + k) maxRetries ps d le' w'
    /\ log w' = log w ++ new
    /\ (failures new).*1
       = flat_map (fun r => map (fun p => (name p, r)) ps) (seq (a + 1) k)
    /\ slept w' = slept w ++ naps a k maxRetries
    /\ lastErrorAfter le (failures new) le'.
Proof.
  induction 1 as [a w | a k w w1 w' Hround _ IH]; intros j le.
  - exists le, []. rewrite Nat.add_0_r, !app_nil_r. repeat split; reflexivity.
  - destruct (RoundFails_run _ _ _ _ _ Hround le) as (le1 & new1 & Hrun & Hlog1 & Hf1 & Hs1 & Hl1).
    destruct (IH j le1) as (le' & new & Hrest & Hlog & Hf & Hs & Hl).
    exists le', (new1 ++ new).
    cbn [Nat.add]. rewrite forAttempts_S, Hrun.
    replace (a + 1)%nat with (S a) at 1 by lia. rewrite Hrest.
    replace (S a + k)%nat with (a + S k)%nat by lia.
    split; [reflexivity|]. split; [|split; [|split]].
    + rewrite Hlog. unfold afterRound. destruct (a <? maxRetries - 1)%nat; cbn;
        rewrite Hlog1, <- app_assoc; reflexivity.
    + rewrite failures_app, fmap_app, Hf1, Hf. cbn [seq flat_map].
      replace (S a + 1)%nat with (S (a + 1)) by lia. reflexivity.
    + rewrite Hs, naps_S. unfold afterRound. destruct (a <? maxRetries - 1)%nat; cbn;
        rewrite Hs1, <- ?app_assoc; reflexivity.
    + rewrite failures_app. eapply lastErrorAfter_app; eassumption.
Qed.

Lemma RoundsFail_of_fails ps d maxRetries :
  (forall p, p ∈ ps -> fails p d) ->
  forall k a w, exists w', RoundsFail ps d maxRetries a k w w'.
Proof.
  intros Hall. induction k as [|k IH]; intros a w.
  - exists w. constructor.
  - destruct (RoundFails_of_fails d a ps Hall w) as (w1 & H1).
    destruct (IH (S a) (afterRound a maxRetries w1)) as (w' & H').
    exists w'. econstructor; eassumption.
Qed.


(** A successful attempt logs exactly its 'sent successfully' line. *)
Lemma tryProvider_success_effects p d a w res w' :
  tryProvider p d a w = (Normal res, w') ->
  log w' = log w ++ [SentVia (name p) (to d) (a + 1)] /\ slept w' = slept w.
Proof.
  unfold EmailService.tryProvider, mbind, Eff_bind, await, throw, mret, Eff_ret, logger.
  intros H.
  repeat match type of H with
  | context [if ?b then _ else _] => destruct b
  | context [match ?c (net w) with _ => _ end] => destruct (c (net w)) as [[[r|]|e] n]
  end; cbn in H; try discriminate; injection H as <- <-; split; reflexivity.
Qed.

(** C4: when every configured provider fails, [sendEmail] with three rounds
    tries each provider once per round, in order, which makes exactly
    3 x (number of providers) failed attempts, waits 1000 ms and 2000 ms
    between the rounds and then returns the failure result whose [error]
    is the message of the last error caught (or 'Unknown error' when that
    message is empty) and whose [attempts] is the number of rounds. *)
Theorem sendEmail_all_providers_fail (providers : list Provider) (emailData : EmailData)
    (w : World) :
  providers <> [] ->
  (forall p, p ∈ providers -> fails p emailData) ->
  exists (e : JsError) (w' : World) (new : list LogEntry),
    sendEmail providers emailData 3 w
      = (Normal (Failure (or_default (message e) "Unknown error") 3), w')
    /\ log w' = log w ++ new ++ [AllFailed (to emailData) (message e)]
    /\ (failures new).*1
       = flat_map (fun r => map (fun p => (name p, r)) providers) [1; 2; 3]%nat
    /\ length (failures new) = (3 * length providers)%nat
    /\ snd <$> last (failures new) = Some (message e)
    /\ slept w' = slept w ++ [1000; 2000].
Proof.
  intros Hne Hall.
  destruct (RoundsFail_of_fails providers emailData 3 Hall 3 0 w)%nat as (w1 & Hrounds).
  destruct (RoundsFail_run _ _ _ _ _ _ _ Hrounds 0%nat None)
    as (le' & new & Hrun & Hlog & Hf & Hs & Hl).
  assert (Hlen : length (failures new) = (3 * length providers)%nat).
  { rewrite <- (length_fmap fst), Hf. cbn. rewrite !length_app, !length_map. cbn. lia. }
  unfold lastErrorAfter in Hl.
  destruct (last (failures new)) as [[[q r] err]|] eqn:Elast.
  - destruct Hl as (e & -> & Hmsg).
    exists e, (mkWorld (net w1) (log w1 ++ [AllFailed (to emailData) (message e)]) (slept w1)), new.
    split; [|split; [|split; [|split; [|split]]]].
    + unfold EmailService.sendEmail, sendEmailWith. exact Hrun.
    + cbn. rewrite Hlog, <- app_assoc. reflexivity.
    + exact Hf.
    + exact Hlen.
    + rewrite Elast, <- Hmsg. reflexivity.
    + cbn. exact Hs.
  - apply last_None in Elast. rewrite Elast in Hlen. cbn in Hlen.
    destruct providers; [congruence | cbn in Hlen; lia].
Qed.

(** C5: if the providers ahead of [p] in the list fail in the first round
    in which [p]'s send succeeds (every provider having failed in the [k]
    rounds before), [sendEmail] returns that success, attributed to [p].
    The final world is the one [p]'s attempt leaves: no later provider is
    tried, no further round is started and no further delay awaited; the
    log holds one failure per provider and earlier round, one per provider
    ahead of [p] in this round, and then [p]'s success. *)
Theorem sendEmail_first_success (providers pre post : list Provider) (p : Provider)
    (emailData : EmailData) (maxRetries k : nat) (w w1 w2 w3 : World) (res : SendResult) :
  providers = pre ++ p :: post ->
  (k < maxRetries)%nat ->
  RoundsFail providers emailData maxRetries 0 k w w1 ->
  RoundFails emailData k pre w1 w2 ->
  tryProvider p emailData k w2 = (Normal res, w3) ->
  sendEmail providers emailData maxRetries w = (Normal res, w3)
  /\ (exists m r, res = Success (name p) m r)
  /\ slept w3 = slept w ++ map (fun r => 1000 * Z.of_nat r) (seq 1 k)
  /\ exists new,
       log w3 = log w ++ new ++ [SentVia (name p) (to emailData) (k + 1)]
       /\ (failures new).*1
          = flat_map (fun r => map (fun q => (name q, r)) providers) (seq 1 k)
            ++ map (fun q => (name q, k + 1)%nat) pre.
Proof.
  intros -> Hk Hrounds Hpre Hp.
  destruct maxRetries as [|n]; [lia|].
  destruct (RoundsFail_run _ _ _ _ _ _ _ Hrounds (S n - k)%nat None)
    as (le1 & new1 & Hrun1 & Hlog1 & Hf1 & Hs1 & _).
  destruct (RoundFails_prefix _ _ _ _ _ Hpre (p :: post) le1)
    as (le2 & new2 & Hrun2 & Hlog2 & Hf2 & Hs2 & _).
  destruct (tryProvider_success_effects _ _ _ _ _ _ Hp) as (Hlog3 & Hs3).
  split; [|split; [|split]].
  - unfold EmailService.sendEmail, sendEmailWith.
    replace (S n) with (k + (S n - k))%nat at 1 by lia. rewrite Hrun1.
    replace (S n - k)%nat with (S (n - k)) by lia.
    rewrite forAttempts_S. cbn [Nat.add]. rewrite Hrun2, forProviders_cons, Hp.
    reflexivity.
  - eapply tryProvider_success. exact Hp.
  - rewrite Hs3, Hs2, Hs1. f_equal. apply naps_all. cbn. exact Hk.
  - exists (new1 ++ new2). split.
    + rewrite Hlog3, Hlog2, Hlog1, <- !app_assoc. reflexivity.
    + rewrite failures_app, fmap_app, Hf1, Hf2. reflexivity.
Qed.

(** C6 (behaviour of the code): with no provider configured, [sendEmail]
    with three rounds goes through all three rounds, awaits the 1000 ms and
    2000 ms delays and returns the ordinary exhausted-retries failure with
    the error text 'Unknown error'.  The configuration error exists only in
    [getNextProvider], which [sendEmail] does not call. *)
Theorem sendEmail_no_providers (emailData : EmailData) (w : World) :
  sendEmail [] emailData 3 w
    = (Normal (Failure "Unknown error" 3),
       mkWorld (net w) (log w ++ [AllFailed (to emailData) None])
               (slept w ++ [1000; 2000]))
  /\ getNextProvider [] 0 = Throw (Error "No email providers configured").
Proof.
  split; [|reflexivity].
  unfold EmailService.sendEmail, sendEmailWith. cbn.
  unfold mbind, Eff_bind, mret, Eff_ret, setTimeout, logger. cbn.
  rewrite <- app_assoc. reflexivity.
Qed.

(** *** Every line [sendEmail] logs is about the recipient of the payload *)

Lemma tryProvider_about p d a w c w' :
  tryProvider p d a w = (c, w') -> exists l, log w' = log w ++ l /\ about d l.
Proof.
  unfold EmailService.tryProvider, mbind, Eff_bind, await, throw, mret, Eff_ret, logger.
  intros H.
  repeat match type of H with
  | context [if ?b then _ else _] => destruct b
  | context [match ?c (net w) with _ => _ end] => destruct (c (net w)) as [[[r|]|e] n]
  end; cbn in H; injection H as <- <-; cbn;
  first [ exists []; split; [by rewrite app_nil_r | constructor]
        | eexists [_]; split; [reflexivity | repeat constructor] ].
Qed.

Lemma forProviders_about ps d a le w c w' :
  forProviders tryProvider ps d a le w = (c, w') ->
  exists l, log w' = log w ++ l /\ about d l.
Proof.
  revert le w. induction ps as [|p ps IH]; intros le w H.
  - injection H as <- <-. exists []. split; [by rewrite app_nil_r | constructor].
  - rewrite forProviders_cons in H.
    destruct (tryProvider p d a w) as [[res|e] w1] eqn:E;
      destruct (tryProvider_about _ _ _ _ _ _ E) as (l1 & Hl1 & Ha1).
    + injection H as <- <-. eauto.
    + destruct (IH _ _ H) as (l2 & Hl2 & Ha2).
      exists (l1 ++ FailedVia (name p) (to d) (message e) (a + 1) :: l2). split.
      * rewrite Hl2. cbn. rewrite Hl1, <- !app_assoc. reflexivity.
      * apply Forall_app. split; [exact Ha1|]. constructor; [reflexivity | exact Ha2].
Qed.

Lemma forAttempts_about k a n ps d le w c w' :
  forAttempts tryProvider k a n ps d le w = (c, w') ->
  exists l, log w' = log w ++ l /\ about d l.
Proof.
  revert a le w. induction k as [|k IH]; intros a le w H.
  - cbn in H. unfold mbind, Eff_bind, logger, mret, Eff_ret in H.
    injection H as <- <-. eexists [_]. split; [reflexivity | repeat constructor].
  - rewrite forAttempts_S in H.
    destruct (forProviders tryProvider ps d a le w) as [[[res|le']|e] w1] eqn:E;
      destruct (forProviders_about _ _ _ _ _ _ _ E) as (l1 & Hl1 & Ha1).
    + injection H as <- <-. eauto.
    + destruct (IH _ _ _ H) as (l2 & Hl2 & Ha2).
      exists (l1 ++ l2). split.
      * rewrite Hl2. unfold afterRound. destruct (a <? n - 1)%nat; cbn;
          rewrite Hl1, <- app_assoc; reflexivity.
      * apply Forall_app. split; assumption.
    + injection H as <- <-. eauto.
Qed.

Lemma sendEmail_about ps d n w c w' :
  sendEmail ps d n w = (c, w') -> exists l, log w' = log w ++ l /\ about d l.
Proof. apply forAttempts_about. Qed.


(** *** The outcome of [sendEmail] depends on the network alone *)

Lemma tryProvider_net p d a w1 w2 :
  net w1 = net w2 -> sameOutcome (tryProvider p d a w1) (tryProvider p d a w2).
Proof.
  intros Hn.
  unfold EmailService.tryProvider, mbind, Eff_bind, await, throw, mret, Eff_ret, logger,
    sameOutcome.
  repeat match goal with
  | |- context [if ?b then _ else _] => destruct b
  end; cbv beta; rewrite ?Hn;
  repeat match goal with
  | |- context [match ?c (net w2) with _ => _ end] => destruct (c (net w2)) as [[[r|]|e] n]
  end; cbn; auto.
Qed.

Lemma forProviders_net ps d a le w1 w2 :
  net w1 = net w2 ->
  sameOutcome (forProviders tryProvider ps d a le w1) (forProviders tryProvider ps d a le w2).
Proof.
  revert le w1 w2. induction ps as [|p ps IH]; intros le w1 w2 Hn.
  - split; [reflexivity | exact Hn].
  - rewrite !forProviders_cons.
    destruct (tryProvider_net p d a w1 w2 Hn) as (Hc & Hn').
    destruct (tryProvider p d a w1) as [[res1|e1] w1'], (tryProvider p d a w2) as [[res2|e2] w2'];
      cbn in Hc, Hn'; try discriminate.
    + injection Hc as ->. split; [reflexivity | exact Hn'].
    + injection Hc as ->. apply IH. exact Hn'.
Qed.

Lemma forAttempts_net k a n ps d le w1 w2 :
  net w1 = net w2 ->
  sameOutcome (forAttempts tryProvider k a n ps d le w1)
              (forAttempts tryProvider k a n ps d le w2).
Proof.
  revert a le w1 w2. induction k as [|k IH]; intros a le w1 w2 Hn.
  - split; [reflexivity | exact Hn].
  - rewrite !forAttempts_S.
    destruct (forProviders_net ps d a le w1 w2 Hn) as (Hc & Hn').
    destruct (forProviders tryProvider ps d a le w1) as [[[res1|le1]|e1] w1'],
             (forProviders tryProvider ps d a le w2) as [[[res2|le2]|e2] w2'];
      cbn in Hc, Hn'; try discriminate.
    + injection Hc as ->. split; [reflexivity | exact Hn'].
    + injection Hc as ->. apply IH. unfold afterRound.
      destruct (a <? n - 1)%nat; exact Hn'.
    + injection Hc as ->. split; [reflexivity | exact Hn'].
Qed.

Lemma sendEmail_net ps d n w1 w2 :
  net w1 = net w2 -> sameOutcome (sendEmail ps d n w1) (sendEmail ps d n w2).
Proof. apply forAttempts_net. Qed.


End EmailServiceFacts.

(** *** The statements at sample inputs *)

Section EmailServiceSamples.

Import EmailService.

Lemma sendEmail_all_providers_fail_sample :
  exists (e : JsError) w' new,
    sendEmail refuse refuse [mailgun; sendgrid; smtp] newsletter 3 quiet
      = (Normal (Failure (or_default (message e) "Unknown error") 3), w')
    /\ log w' = log quiet ++ new ++ [AllFailed (to newsletter) (message e)]
    /\ (failures new).*1
       = flat_map (fun r => map (fun p => (name p, r)) [mailgun; sendgrid; smtp]) [1; 2; 3]%nat
    /\ length (failures new) = (3 * length [mailgun; sendgrid; smtp])%nat
    /\ snd <$> last (failures new) = Some (message e)
    /\ slept w' = slept quiet ++ [1000; 2000].
Proof.
  apply (sendEmail_all_providers_fail refuse refuse [mailgun; sendgrid; smtp] newsletter quiet).
  - discriminate.
  - intros p Hp attempt w.
    apply elem_of_cons in Hp as [->|Hp]; [eexists _, _; reflexivity|].
    apply elem_of_cons in Hp as [->|Hp]; [eexists _, _; reflexivity|].
    apply elem_of_cons in Hp as [->|Hp]; [eexists _, _; reflexivity|].
    by apply elem_of_nil in Hp.
Defined.

(** Round 1: mailgun and smtp both fail.  Round 2: mailgun fails, smtp
    (reachable from the fourth call on) succeeds. *)
Lemma sendEmail_first_success_sample :
  exists w3 res,
    sendEmail refuse (flaky 3) [mailgun; smtp; sendgrid] newsletter 3 quiet = (Normal res, w3)
    /\ (exists m r, res = Success (name smtp) m r)
    /\ slept w3 = slept quiet ++ map (fun r => 1000 * Z.of_nat r) (seq 1 1)
    /\ exists new,
         log w3 = log quiet ++ new ++ [SentVia (name smtp) (to newsletter) (1 + 1)]
         /\ (failures new).*1
            = flat_map (fun r => map (fun q => (name q, r)) [mailgun; smtp; sendgrid]) (seq 1 1)
              ++ map (fun q => (name q, 1 + 1)%nat) [mailgun].
Proof.
  eexists _, _.
  eapply (sendEmail_first_success refuse (flaky 3) [mailgun; smtp; sendgrid]
            [mailgun] [sendgrid] smtp newsletter 3 1 quiet).
  - reflexivity.
  - lia.
  - eapply RoundsFail_S; [|apply RoundsFail_O].
    eapply RoundFails_cons; [reflexivity|].
    eapply RoundFails_cons; [reflexivity|].
    eapply RoundFails_cons; [reflexivity|].
    apply RoundFails_nil.
  - eapply RoundFails_cons; [reflexivity|]. apply RoundFails_nil.
  - reflexivity.
Defined.

End EmailServiceSamples.

(** ** Batch planning ([createBatches]) *)

Section BatchPlanning.

Context {Net : Type}.
Variable cfg : Config.

#[local] Abbreviation B := (MAX_EMAILS_PER_BATCH cfg).

Lemma ceil_div_0 b : ceil_div 0 b = 0%nat.
Proof. unfold ceil_div. rewrite Nat.Div0.mod_0_l, Nat.Div0.div_0_l. reflexivity. Qed.

Lemma ceil_div_step n b :
  (0 < b)%nat -> (0 < n)%nat -> ceil_div n b = S (ceil_div (n - b) b).
Proof.
  intros Hb Hn. unfold ceil_div.
  destruct (Nat.le_gt_cases n b) as [Hle|Hgt].
  - replace (n - b)%nat with 0%nat by lia.
    rewrite Nat.Div0.mod_0_l, Nat.Div0.div_0_l. cbn [Nat.eqb].
    destruct (Nat.eq_dec n b) as [->|Hne].
    + rewrite Nat.Div0.mod_same, Nat.div_same by lia. reflexivity.
    + rewrite Nat.mod_small, Nat.div_small by lia.
      destruct (Nat.eqb_spec n 0); [lia | reflexivity].
  - assert (Hm : (n mod b = (n - b) mod b)%nat).
    { replace n with ((n - b) + 1 * b)%nat at 1 by lia. apply Nat.Div0.mod_add. }
    assert (Hd : (n / b = (n - b) / b + 1)%nat).
    { replace n with ((n - b) + 1 * b)%nat at 1 by lia. apply Nat.div_add. lia. }
    rewrite Hm, Hd. destruct (_ =? 0)%nat; lia.
Qed.

Lemma slice_drop {A} (l : list A) i b :
  slice i (i + b) l ++ drop (i + b) l = drop i l.
Proof.
  unfold slice. replace (i + b - i)%nat with b by lia.
  rewrite <- (drop_drop l b i). apply take_drop.
Qed.

Lemma length_slice {A} (l : list A) i b :
  (i < length l)%nat -> (0 < b)%nat ->
  (0 < length (slice i (i + b) l) <= b)%nat.
Proof.
  intros Hi Hb. unfold slice. replace (i + b - i)%nat with b by lia.
  rewrite length_take, length_drop. lia.
Qed.

(** The loop of [createBatches], from index [i] on. *)
Lemma createBatches_loop (campaignId userId : nat) (found : list Contact.t) :
  (0 < B)%nat ->
  forall fuel i acc (s : State Net),
    (length found - i <= fuel)%nat ->
    exists bs s',
      forChunks fuel i B (length found) (createBatch cfg campaignId userId found) acc s
        = Some (Normal (acc ++ bs), s')
      /\ length bs = ceil_div (length found - i) B
      /\ concat (map Batch.contacts bs) = map toRecipient (drop i found)
      /\ map Batch.batchNumber bs = seq (i / B + 1) (length bs)
      /\ (forall k b, bs !! k = Some b ->
            Batch.contacts b = map toRecipient (slice (i + k * B) (i + k * B + B) found)
            /\ (0 < length (Batch.contacts b) <= B)%nat
            /\ Batch.total b = Z.of_nat (length (Batch.contacts b))
            /\ jobs s' !! Batch.jobId b
               = Some (newJob campaignId userId (Batch.batchNumber b) (Batch.contacts b)))
      /\ (forall id j, jobs s !! id = Some j -> jobs s' !! id = Some j).
Proof.
  intros HB. induction fuel as [|fuel IH]; intros i acc s Hfuel.
  - exists [], s. cbn [forChunks].
    destruct (Nat.ltb_spec i (length found)) as [Hi|Hi]; [lia|].
    replace (length found - i)%nat with 0%nat by lia.
    rewrite drop_ge by lia. rewrite app_nil_r, ceil_div_0.
    repeat split; try reflexivity; try done.
  - cbn [forChunks].
    destruct (Nat.ltb_spec i (length found)) as [Hi|Hi].
    + unfold mbind at 1. unfold Proc_bind.
      unfold createBatch at 1. destruct (Nat.eqb_spec B 0) as [HB0|_]; [lia|].
      unfold mbind, Proc_bind, Job_create, Job.create, mret, Proc_ret.
      set (cs := map toRecipient (slice i (i + B) found)).
      set (s1 := with_jobs _ s).
      set (b0 := {| Batch.jobId := _ |}).
      destruct (IH (i + B)%nat (acc ++ [b0]) s1 ltac:(lia))
        as (bs & s' & Hrun & Hlen & Hcat & Hnum & Hat & Hkeep).
      assert (Hfresh : jobs s !! fresh (dom (jobs s)) = None).
      { apply not_elem_of_dom, is_fresh. }
      exists (b0 :: bs), s'. rewrite Hrun, <- app_assoc. split; [reflexivity|].
      split; [|split; [|split; [|split]]].
      * cbn [length]. rewrite Hlen.
        rewrite (ceil_div_step (length found - i) B) by lia.
        do 2 f_equal. lia.
      * cbn [map concat]. rewrite Hcat. subst b0 cs. cbn [Batch.contacts].
        rewrite <- fmap_app, slice_drop. reflexivity.
      * cbn [map length seq]. rewrite Hnum. f_equal.
        replace (i + B)%nat with (i + 1 * B)%nat by lia.
        rewrite Nat.div_add by lia. f_equal. lia.
      * intros [|k] b Hb.
        -- cbn in Hb. injection Hb as <-. subst b0 cs. cbn.
           rewrite Nat.add_0_r. split; [reflexivity|]. split.
           { rewrite length_fmap. apply length_slice; lia. }
           split; [reflexivity|].
           apply Hkeep. subst s1. cbn. apply lookup_insert_eq.
        -- cbn in Hb. destruct (Hat k b Hb) as (Hc & Hl & Ht & Hj).
           split; [|tauto]. rewrite Hc. do 2 f_equal; cbn; lia.
      * intros id j Hj. apply Hkeep. subst s1. cbn.
        rewrite lookup_insert_ne; [exact Hj|]. intros <-. congruence.
    + exists [], s. replace (length found - i)%nat with 0%nat by lia.
      rewrite drop_ge by lia. rewrite app_nil_r, ceil_div_0.
      repeat split; try reflexivity; try done.
Qed.

Lemma length_concat_map {A C} (f : A -> list C) (l : list A) :
  sum_list (map (fun a => length (f a)) l) = length (concat (map f l)).
Proof.
  induction l as [|a l IH]; [reflexivity|].
  cbn. rewrite length_app, IH. reflexivity.
Qed.

(** C1: for a positive batch size [B] and [N > 0] matching contacts,
    [createBatches] returns [ceil(N/B)] batches.  Their sizes sum to [N],
    none is empty or larger than [B], the [k]-th one (counting from 0)
    holds the contacts [k*B .. k*B+B-1] of the query result in order, so
    that the batches laid end to end are the query result, and the batch
    numbers are 1, 2, ..., ceil(N/B).  Each batch is stored as a pending
    job with its batch number and recipients, [progress.total] equal to the
    number of its recipients and [progress.sent = progress.failed = 0]. *)
Theorem createBatches_partition (fuel campaignId userId : nat)
    (contactFilters : ContactFilters) (s : State Net) :
  let found := List.filter (matchesQuery userId contactFilters) (contacts s) in
  let N := length found in
  (0 < N)%nat -> (0 < B)%nat -> (N <= fuel)%nat ->
  exists plan s',
    createBatches cfg fuel campaignId userId contactFilters s = Some (Normal plan, s')
    /\ totalContacts plan = N
    /\ totalBatches plan = ceil_div N B
    /\ length (batches plan) = ceil_div N B
    /\ sum_list (map (fun b => length (Batch.contacts b)) (batches plan)) = N
    /\ concat (map Batch.contacts (batches plan)) = map toRecipient found
    /\ map Batch.batchNumber (batches plan) = seq 1 (ceil_div N B)
    /\ forall k b, batches plan !! k = Some b ->
         Batch.contacts b = map toRecipient (slice (k * B) (k * B + B) found)
         /\ (0 < length (Batch.contacts b) <= B)%nat
         /\ Batch.batchNumber b = (k + 1)%nat
         /\ Batch.total b = Z.of_nat (length (Batch.contacts b))
         /\ exists job,
              jobs s' !! Batch.jobId b = Some job
              /\ Job.campaignId job = campaignId
              /\ Job.batchNumber job = (k + 1)%nat
              /\ Job.contacts job = Batch.contacts b
              /\ Job.status job = Job.pending
              /\ Job.progress job
                 = {| Progress.total := Z.of_nat (length (Batch.contacts b));
                      Progress.sent := 0; Progress.failed := 0 |}.
Proof.
  intros found N HN HB Hfuel.
  destruct (createBatches_loop campaignId userId found HB fuel 0%nat [] s ltac:(lia))
    as (bs & s' & Hrun & Hlen & Hcat & Hnum & Hat & _).
  rewrite Nat.sub_0_r in Hlen. rewrite drop_0 in Hcat.
  rewrite Nat.Div0.div_0_l in Hnum. cbn [Nat.add] in Hnum.
  exists {| totalContacts := N; totalBatches := ceil_div N B; batches := bs |}, s'.
  split.
  { unfold createBatches, mbind, Proc_bind, gets. fold found. fold N.
    destruct (Nat.eqb_spec N 0) as [H0|_]; [lia|].
    unfold N. rewrite Hrun. reflexivity. }
  cbn [totalContacts totalBatches batches].
  split; [reflexivity|]. split; [reflexivity|]. split; [exact Hlen|].
  split.
  { rewrite length_concat_map, Hcat, length_map. reflexivity. }
  split; [exact Hcat|]. split; [by rewrite Hnum, Hlen|].
  intros k b Hb. destruct (Hat k b Hb) as (Hc & Hl & Ht & Hj).
  assert (Hn : Batch.batchNumber b = (k + 1)%nat).
  { assert (Hk : map Batch.batchNumber bs !! k = Some (Batch.batchNumber b)).
    { change (map Batch.batchNumber bs) with (Batch.batchNumber <$> bs).
      rewrite list_lookup_fmap, Hb. reflexivity. }
    rewrite Hnum in Hk. apply lookup_seq in Hk. lia. }
  split; [exact Hc|]. split; [exact Hl|]. split; [exact Hn|]. split; [exact Ht|].
  eexists. split; [exact Hj|]. rewrite Hn. repeat split; reflexivity.
Qed.

End BatchPlanning.

Lemma createBatches_partition_sample :
  exists plan s',
    createBatches Sample.smallBatches 5 7 1 Sample.noFilters Sample.unsent
      = Some (Normal plan, s')
    /\ totalContacts plan = 5%nat
    /\ totalBatches plan = ceil_div 5 2
    /\ length (batches plan) = ceil_div 5 2
    /\ sum_list (map (fun b => length (Batch.contacts b)) (batches plan)) = 5%nat
    /\ concat (map Batch.contacts (batches plan))
       = map toRecipient (List.filter (matchesQuery 1 Sample.noFilters) Sample.addressBook)
    /\ map Batch.batchNumber (batches plan) = seq 1 (ceil_div 5 2)
    /\ forall k b, batches plan !! k = Some b ->
         Batch.contacts b
         = map toRecipient
               (slice (k * 2) (k * 2 + 2)
                      (List.filter (matchesQuery 1 Sample.noFilters) Sample.addressBook))
         /\ (0 < length (Batch.contacts b) <= 2)%nat
         /\ Batch.batchNumber b = (k + 1)%nat
         /\ Batch.total b = Z.of_nat (length (Batch.contacts b))
         /\ exists job,
              jobs s' !! Batch.jobId b = Some job
              /\ Job.campaignId job = 7%nat
              /\ Job.batchNumber job = (k + 1)%nat
              /\ Job.contacts job = Batch.contacts b
              /\ Job.status job = Job.pending
              /\ Job.progress job
                 = {| Progress.total := Z.of_nat (length (Batch.contacts b));
                      Progress.sent := 0; Progress.failed := 0 |}.
Proof.
  apply (createBatches_partition Sample.smallBatches 5 7 1 Sample.noFilters Sample.unsent);
    cbn; lia.
Defined.

(** ** Completion check and progress counters (queue workers) *)

Section QueueFacts.

Context {Net : Type}.

Lemma flushProgress_run jobId (s : State Net) :
  flushProgress jobId s = Some (Normal tt, flushed jobId s).
Proof.
  unfold flushProgress, flushed. proc.
  destruct (progressCache s !! jobId) as [cached|]; [|reflexivity].
  destruct (_ && _); reflexivity.
Qed.


Lemma flushed_jobs_status jobId (s : State Net) id :
  Job.status <$> jobs (flushed jobId s) !! id = Job.status <$> jobs s !! id.
Proof.
  unfold flushed. destruct (progressCache s !! jobId) as [cached|]; [|reflexivity].
  destruct (_ && _); [reflexivity|]. cbn. unfold Job.updateOne.
  destruct (jobs s !! jobId) as [j|] eqn:E; [|reflexivity]. cbn.
  destruct (decide (jobId = id)) as [<-|Hne].
  - rewrite lookup_insert_eq, E. cbn. unfold Job.set_total_if_truthy.
    destruct (_ =? 0)%Z; reflexivity.
  - rewrite lookup_insert_ne by done. reflexivity.
Qed.

Lemma flushed_campaigns jobId (s : State Net) : campaigns (flushed jobId s) = campaigns s.
Proof.
  unfold flushed. destruct (progressCache s !! jobId) as [cached|]; [|reflexivity].
  destruct (_ && _); reflexivity.
Qed.

(** Flushing depends on the cache alone: once the entry of the job is
    empty, a flush changes nothing, whatever else happened to the state. *)
Lemma flushed_same_cache jobId (s s' : State Net) :
  progressCache s' = progressCache (flushed jobId s) -> flushed jobId s' = s'.
Proof.
  intros H. unfold flushed at 1. rewrite H. unfold flushed.
  destruct (progressCache s !! jobId) as [cached|] eqn:E.
  - destruct (_ && _) eqn:Ez.
    + rewrite E, Ez. reflexivity.
    + cbn. rewrite lookup_insert_eq. reflexivity.
  - rewrite E. reflexivity.
Qed.

(** The check proper: it throws when the job is gone, does nothing unless
    the job is to be closed out, and otherwise marks the job completed. *)
Lemma checkCompletion_run jobId campaignId total (s : State Net) :
  match jobs s !! jobId with
  | None => checkCompletion jobId campaignId total s = Some (Throw TypeError, s)
  | Some j =>
    if closesOut total j then
      exists s', checkCompletion jobId campaignId total s = Some (Normal tt, s')
                 /\ jobs s' = <[jobId := Job.set_status Job.completed j]> (jobs s)
                 /\ progressCache s' = progressCache s
    else checkCompletion jobId campaignId total s = Some (Normal tt, s)
  end.
Proof.
  unfold checkCompletion, closesOut. proc.
  destruct (jobs s !! jobId) as [j|] eqn:E; [|reflexivity].
  destruct (_ && negb _) eqn:Ec; [|reflexivity].
  match goal with |- context [if ?c then _ else _] => destruct c end;
    eexists; (split; [reflexivity|]); cbn; unfold Job.updateOne; rewrite E;
    apply andb_prop in Ec as [_ ->]; split; reflexivity.
Qed.

Lemma closesOut_completed total j :
  Job.status j = Job.completed -> closesOut total j = false.
Proof.
  intros H. unfold closesOut. rewrite bool_decide_eq_true_2 by exact H.
  apply andb_false_r.
Qed.

(** Running the check proper on a state it has produced changes nothing. *)
Lemma checkCompletion_again jobId campaignId total (s s1 : State Net) c :
  checkCompletion jobId campaignId total s = Some (c, s1) ->
  checkCompletion jobId campaignId total s1 = Some (c, s1)
  /\ progressCache s1 = progressCache s
  /\ (forall job, jobs s !! jobId = Some job -> Job.status job = Job.completed -> s1 = s).
Proof.
  intros H. pose proof (checkCompletion_run jobId campaignId total s) as Hrun.
  destruct (jobs s !! jobId) as [j|] eqn:E.
  - destruct (closesOut total j) eqn:Ec.
    + destruct Hrun as (s' & Hs' & Hjobs & Hcache). rewrite Hs' in H.
      injection H as <- <-. split; [|split; [exact Hcache|]].
      * pose proof (checkCompletion_run jobId campaignId total s') as Hrun'.
        rewrite Hjobs, lookup_insert_eq in Hrun'.
        rewrite closesOut_completed in Hrun' by reflexivity. exact Hrun'.
      * intros job [= <-] Hst. rewrite closesOut_completed in Ec by exact Hst. discriminate.
    + rewrite Hrun in H. injection H as <- <-. rewrite Hrun. repeat split; reflexivity.
  - rewrite Hrun in H. injection H as <- <-. rewrite Hrun. split; [reflexivity|].
    split; [reflexivity|]. intros job [=].
Qed.

(** C3: the completion check made after each outcome is idempotent.  It
    always returns; run again on the state it leaves, it changes nothing
    (no further status transition, no further increment of the campaign
    statistics); and on a job that is already [completed] it leaves every
    job status and the whole Campaign collection as they were.  This holds
    for the check after a successful send (which first flushes the cached
    progress) and for the check after a failed send. *)
Theorem completionCheck_idempotent (jobId campaignId : nat) (total : Z) (s : State Net) :
  (exists s1,
      completionCheck jobId campaignId total s = Some (Normal tt, s1)
      /\ completionCheck jobId campaignId total s1 = Some (Normal tt, s1)
      /\ forall job, jobs s !! jobId = Some job -> Job.status job = Job.completed ->
           campaigns s1 = campaigns s
           /\ forall id, Job.status <$> jobs s1 !! id = Job.status <$> jobs s !! id)
  /\ (exists s1,
      completionCheck_onFailure jobId campaignId total s = Some (Normal tt, s1)
      /\ completionCheck_onFailure jobId campaignId total s1 = Some (Normal tt, s1)
      /\ forall job, jobs s !! jobId = Some job -> Job.status job = Job.completed ->
           s1 = s).
Proof.
  split.
  - unfold completionCheck, tryCatch, mbind, Proc_bind.
    rewrite flushProgress_run.
    destruct (checkCompletion jobId campaignId total (flushed jobId s))
      as [[c s1]|] eqn:Hc.
    2:{ pose proof (checkCompletion_run jobId campaignId total (flushed jobId s)) as Hrun.
        destruct (jobs (flushed jobId s) !! jobId) as [j|]; [|congruence].
        destruct (closesOut total j); [destruct Hrun as (? & ? & _)|]; congruence. }
    destruct (checkCompletion_again _ _ _ _ _ _ Hc) as (Hagain & Hcache & Hsame).
    assert (Hflush : flushed jobId s1 = s1) by (apply (flushed_same_cache jobId s); exact Hcache).
    exists s1. split; [|split].
    + destruct c as [[]|?]; reflexivity.
    + rewrite flushProgress_run, Hflush, Hagain. destruct c as [[]|?]; reflexivity.
    + intros job Hjob Hst.
      assert (Hst' : Job.status <$> jobs (flushed jobId s) !! jobId = Some Job.completed).
      { rewrite flushed_jobs_status, Hjob. cbn. by rewrite Hst. }
      destruct (jobs (flushed jobId s) !! jobId) as [j'|] eqn:E'; [|discriminate].
      injection Hst' as Hst'.
      rewrite (Hsame j' eq_refl Hst'). split; [apply flushed_campaigns|].
      intros id. apply flushed_jobs_status.
  - unfold completionCheck_onFailure, tryCatch.
    destruct (checkCompletion jobId campaignId total s) as [[c s1]|] eqn:Hc.
    2:{ pose proof (checkCompletion_run jobId campaignId total s) as Hrun.
        destruct (jobs s !! jobId) as [j|]; [|congruence].
        destruct (closesOut total j); [destruct Hrun as (? & ? & _)|]; congruence. }
    destruct (checkCompletion_again _ _ _ _ _ _ Hc) as (Hagain & Hcache & Hsame).
    exists s1. split; [|split].
    + destruct c as [[]|?]; reflexivity.
    + rewrite Hagain. destruct c as [[]|?]; reflexivity.
    + exact Hsame.
Qed.


End QueueFacts.

(** ** Retry of failed recipients *)

Section RetryFacts.

Context {Net : Type}.

Lemma selected_spec (job : Job.t) (e : ErrorLog.t) :
  In e (failedEmails job) <->
  In e (Job.errorLog job) /\ (ErrorLog.retryCount e < 3)%nat /\ ErrorLog.resolved e = false.
Proof.
  unfold failedEmails. rewrite filter_In, andb_true_iff, Nat.ltb_lt, negb_true_iff.
  reflexivity.
Qed.

Lemma max_list_below (l : list nat) (n : nat) :
  Forall (fun x => x <= n)%nat l -> (max_list l <= n)%nat.
Proof. induction 1; cbn; lia. Qed.

(** The delay is 60000 ms times a power of two, and at most 240000 ms for
    the entries a scan selects. *)
Lemma retryDelay_bound (job : Job.t) :
  retryDelay (unresolvedErrors job)
    = 60000 * 2 ^ Z.of_nat (max_list (map ErrorLog.retryCount (unresolvedErrors job)))
  /\ retryDelay (unresolvedErrors job) <= 240000.
Proof.
  unfold retryDelay. split; [lia|].
  assert (H : (max_list (map ErrorLog.retryCount (unresolvedErrors job)) <= 2)%nat).
  { apply max_list_below, Forall_forall. intros x Hx.
    apply list_elem_of_In, in_map_iff in Hx as (e & <- & He).
    apply (selected_spec job e) in He. lia. }
  assert (2 ^ Z.of_nat (max_list (map ErrorLog.retryCount (unresolvedErrors job))) <= 2 ^ 2).
  { apply Z.pow_le_mono_r; lia. }
  lia.
Qed.

Lemma emailQueue_add_up (data : Queue.Data) (opts : Queue.Opts) (s : State Net) :
  true ∉ outages s ->
  exists s',
    emailQueue_add data opts s = Some (Normal (queued s), s')
    /\ jobs s' = jobs s
    /\ (true ∉ outages s')
    /\ queued s' = S (queued s)
    /\ queue s' = queue s ++ [ {| Queue.id := queued s; Queue.data := data;
                                  Queue.opts := opts; Queue.attemptsMade := 0 |} ]
    /\ campaigns s' = campaigns s /\ progressCache s' = progressCache s
    /\ world s' = world s.
Proof.
  intros Hup. unfold emailQueue_add.
  destruct (outages s) as [|[] rest] eqn:E; cbn.
  - eexists. repeat split; try reflexivity. cbn. apply not_elem_of_nil.
  - exfalso. apply Hup. left.
  - eexists. repeat split; try reflexivity. cbn. intros H. apply Hup. by right.
Qed.

Lemma emailQueue_add_jobs (data : Queue.Data) (opts : Queue.Opts) (s : State Net) :
  exists c s', emailQueue_add data opts s = Some (c, s') /\ jobs s' = jobs s.
Proof.
  unfold emailQueue_add. destruct (head (outages s)) as [[]|]; eauto.
Qed.

(** A scan reads the jobs and only adds to the queue. *)
Lemma scheduleRetries_loop_jobs (found : list (nat * Job.t)) (s : State Net) :
  exists c s', scheduleRetries_loop found s = Some (c, s') /\ jobs s' = jobs s.
Proof.
  revert s. induction found as [|[id job] found IH]; intros s.
  - eexists _, _. split; reflexivity.
  - cbn [scheduleRetries_loop]. proc.
    destruct (0 <? length (unresolvedErrors job))%nat.
    + destruct (emailQueue_add_jobs (Queue.retry_failed_emails id)
                  {| Queue.priority := None; Queue.attempts := 1;
                     Queue.delay := retryDelay (unresolvedErrors job) |} s)
        as ([n|e] & s1 & -> & Hj).
      * destruct (IH s1) as (c & s' & -> & Hj'). eexists _, _. split; [reflexivity|]. congruence.
      * eexists _, _. split; [reflexivity|]. exact Hj.
    + apply IH.
Qed.

Lemma scheduleRetries_jobs (s : State Net) :
  exists s', scheduleRetries s = Some (Normal tt, s') /\ jobs s' = jobs s.
Proof.
  unfold scheduleRetries. proc.
  destruct (scheduleRetries_loop_jobs (failedJobs (jobs s)) s) as ([[]|e] & s' & -> & Hj);
    eauto.
Qed.

(** With Redis reachable, every job of the scan that has pending entries
    gets its retry job. *)
Lemma scheduleRetries_loop_up (found : list (nat * Job.t)) (s : State Net) :
  true ∉ outages s ->
  exists s',
    scheduleRetries_loop found s = Some (Normal tt, s')
    /\ (forall t, t ∈ queue s -> t ∈ queue s')
    /\ (queued s <= queued s')%nat
    /\ forall id job, (id, job) ∈ found -> unresolvedErrors job <> [] ->
         exists task, task ∈ queue s'
                      /\ (queued s <= Queue.id task)%nat
                      /\ Queue.data task = Queue.retry_failed_emails id
                      /\ Queue.opts task
                         = {| Queue.priority := None; Queue.attempts := 1;
                              Queue.delay := retryDelay (unresolvedErrors job) |}.
Proof.
  revert s. induction found as [|[id0 job0] found IH]; intros s Hup.
  - exists s. split; [reflexivity|]. split; [auto|]. split; [lia|].
    intros id job H. by apply elem_of_nil in H.
  - cbn [scheduleRetries_loop]. proc.
    destruct (Nat.ltb_spec 0 (length (unresolvedErrors job0))) as [Hlen|Hlen].
    + destruct (emailQueue_add_up (Queue.retry_failed_emails id0)
                  {| Queue.priority := None; Queue.attempts := 1;
                     Queue.delay := retryDelay (unresolvedErrors job0) |} s Hup)
        as (s1 & -> & _ & Hup1 & Hq1 & Hqueue & _).
      destruct (IH s1 Hup1) as (s' & -> & Hkeep & Hle & Hall).
      exists s'. split; [reflexivity|]. split; [|split; [lia|]].
      * intros t Ht. apply Hkeep. rewrite Hqueue. apply elem_of_app. by left.
      * intros id job Hin Hne. apply elem_of_cons in Hin as [[= <- <-]|Hin].
        -- eexists. split; [apply Hkeep; rewrite Hqueue; apply elem_of_app; right; left|].
           cbn. repeat split; reflexivity || lia.
        -- destruct (Hall id job Hin Hne) as (task & Ht & Hid & Hrest).
           exists task. split; [exact Ht|]. split; [lia | exact Hrest].
    + destruct (IH s Hup) as (s' & -> & Hkeep & Hle & Hall).
      exists s'. split; [reflexivity|]. split; [exact Hkeep|]. split; [exact Hle|].
      intros id job Hin Hne. apply elem_of_cons in Hin as [[= <- <-]|Hin].
      * destruct (unresolvedErrors job); [congruence | cbn in Hlen; lia].
      * exact (Hall id job Hin Hne).
Qed.

(** C9 (as amended): for every batch whose status is [completed] and which
    has unresolved entries under the ceiling, a scan made while the queue
    accepts jobs re-submits the retry job with delay 60000 ms x 2^m, [m]
    being the largest retry count among the pending entries of the batch;
    as pending entries have a retry count of at most 2, the delay never
    exceeds 240000 ms. *)
Theorem scheduleRetries_delay (s : State Net) (jobId : nat) (job : Job.t) :
  jobs s !! jobId = Some job ->
  Job.status job = Job.completed ->
  unresolvedErrors job <> [] ->
  true ∉ outages s ->
  resubmits s jobId job.
Proof.
  intros Hjob Hst Hne Hup.
  assert (Hin : (jobId, job) ∈ failedJobs (jobs s)).
  { unfold failedJobs. apply list_elem_of_In, filter_In. split.
    - apply list_elem_of_In, elem_of_map_to_list. exact Hjob.
    - cbn. rewrite bool_decide_eq_true_2 by exact Hst. cbn.
      destruct (Job.errorLog job) eqn:E; [|reflexivity].
      exfalso. apply Hne. unfold unresolvedErrors. by rewrite E. }
  destruct (scheduleRetries_loop_up (failedJobs (jobs s)) s Hup)
    as (s' & Hrun & _ & _ & Hall).
  destruct (Hall jobId job Hin Hne) as (task & Ht & Hid & Hdata & Hopts).
  destruct (retryDelay_bound job) as (Hd & Hb).
  exists s', task. split.
  { unfold scheduleRetries. proc. rewrite Hrun. reflexivity. }
  rewrite Hopts. cbn. repeat split; assumption.
Qed.

End RetryFacts.

Section RetryAttempts.

Context {Net : Type}.
Variable sendWithMailgun :
  EmailService.Provider -> EmailService.EmailData -> Net
  -> (option EmailService.Response + JsError) * Net.
Variable sendWithSMTP :
  EmailService.Provider -> EmailService.EmailData -> Net
  -> (option EmailService.Response + JsError) * Net.
Variable providers : list EmailService.Provider.

#[local] Abbreviation retryOne := (retryOne sendWithMailgun sendWithSMTP providers).
#[local] Abbreviation retryAll := (retryAll sendWithMailgun sendWithSMTP providers).
#[local] Abbreviation retryFailedEmails :=
  (retryFailedEmails sendWithMailgun sendWithSMTP providers).

Lemma logsOnlyFor_refl entries (s : State Net) : logsOnlyFor entries s s.
Proof. exists []. split; [by rewrite app_nil_r | constructor]. Qed.

Lemma logsOnlyFor_trans entries (s s1 s2 : State Net) :
  logsOnlyFor entries s s1 -> logsOnlyFor entries s1 s2 -> logsOnlyFor entries s s2.
Proof.
  intros (l1 & H1 & F1) (l2 & H2 & F2). exists (l1 ++ l2). split.
  - rewrite H2, H1, app_assoc. reflexivity.
  - apply Forall_app. split; assumption.
Qed.

Lemma logsOnlyFor_weaken entries entries' (s s' : State Net) :
  (forall e, In e entries -> In e entries') ->
  logsOnlyFor entries s s' -> logsOnlyFor entries' s s'.
Proof.
  intros Hsub (l & H & F). exists l. split; [exact H|].
  eapply Forall_impl; [exact F|]. intros x (e & He & Hx). eauto.
Qed.

(** One retry: it returns, and what it logs is about the entry's address. *)
Lemma retryOne_log jobId job retried (e : ErrorLog.t) (s : State Net) :
  exists n s', retryOne jobId job retried e s = Some (Normal n, s')
               /\ logsOnlyFor [e] s s'.
Proof.
  unfold retryOne. proc.
  destruct (find _ (Job.contacts job)) as [contact|];
    [|eexists _, _; split; [reflexivity | apply logsOnlyFor_refl]].
  destruct (campaigns s !! Job.campaignId job) as [campaign|];
    [|eexists _, _; split; [reflexivity | apply logsOnlyFor_refl]].
  unfold emailService_sendEmail, call.
  match goal with
  | |- context [EmailService.sendEmail ?a ?b ?c ?d ?n (world s)] =>
    destruct (EmailService.sendEmail a b c d n (world s)) as [[[p m r|err att]|ex] w'] eqn:E;
    destruct (sendEmail_about _ _ _ _ _ _ _ _ E) as (l & Hl & Hf)
  end;
  try destruct (Analytics.valid _);
  (eexists _, _; split; [reflexivity|]; exists l; split; [exact Hl|];
   eapply Forall_impl; [exact Hf|]; intros x Hx; exists e; split; [by left | exact Hx]).
Qed.

Lemma retryAll_log jobId job (entries : list ErrorLog.t) retried (s : State Net) :
  exists n s', retryAll jobId job entries retried s = Some (Normal n, s')
               /\ logsOnlyFor entries s s'.
Proof.
  revert retried s. induction entries as [|e entries IH]; intros retried s.
  - eexists _, _. split; [reflexivity | apply logsOnlyFor_refl].
  - cbn [retryAll]. unfold mbind at 1. unfold Proc_bind.
    destruct (retryOne_log jobId job retried e s) as (n1 & s1 & -> & H1).
    destruct (IH n1 s1) as (n & s' & -> & H2).
    eexists _, _. split; [reflexivity|].
    eapply logsOnlyFor_trans.
    + eapply logsOnlyFor_weaken; [|exact H1]. intros x [<-|[]]. by left.
    + eapply logsOnlyFor_weaken; [|exact H2]. intros x Hx. by right.
Qed.

(** What the retry service selects and sends.  [retryFailedEmails] and
    the periodic scan select the same entries, exactly those with
    [retryCount < 3] and [resolved] false; everything [retryFailedEmails]
    sends is addressed to a selected entry of the job; and a scan changes
    no job, so that a second scan over the same state selects and leaves
    out the same entries as the first. *)
Lemma retry_selection (jobId : nat) (s : State Net) :
  (forall job e,
      In e (failedEmails job) <->
      In e (Job.errorLog job) /\ (ErrorLog.retryCount e < 3)%nat
      /\ ErrorLog.resolved e = false)
  /\ (forall job, unresolvedErrors job = failedEmails job)
  /\ (exists c s',
        retryFailedEmails jobId s = Some (c, s')
        /\ exists new,
             EmailService.log (world s') = EmailService.log (world s) ++ new
             /\ forall l, l ∈ new ->
                  exists job e, jobs s !! jobId = Some job
                                /\ In e (failedEmails job)
                                /\ EmailService.recipient l = ErrorLog.email e)
  /\ (exists s1 s2,
        scheduleRetries s = Some (Normal tt, s1)
        /\ scheduleRetries s1 = Some (Normal tt, s2)
        /\ jobs s1 = jobs s /\ jobs s2 = jobs s
        /\ failedJobs (jobs s1) = failedJobs (jobs s)
        /\ excluded <$> jobs s1 = excluded <$> jobs s
        /\ unresolvedErrors <$> jobs s1 = unresolvedErrors <$> jobs s).
Proof.
  split; [exact selected_spec|]. split; [reflexivity|]. split.
  - unfold retryFailedEmails. proc.
    destruct (jobs s !! jobId) as [job|] eqn:Hjob.
    2:{ eexists _, _. split; [reflexivity|]. exists []. split; [by rewrite app_nil_r|].
        intros l Hl. by apply elem_of_nil in Hl. }
    destruct (length (Job.errorLog job) =? 0)%nat.
    { eexists _, _. split; [reflexivity|]. exists []. split; [by rewrite app_nil_r|].
      intros l Hl. by apply elem_of_nil in Hl. }
    destruct (length (failedEmails job) =? 0)%nat.
    { eexists _, _. split; [reflexivity|]. exists []. split; [by rewrite app_nil_r|].
      intros l Hl. by apply elem_of_nil in Hl. }
    destruct (retryAll_log jobId job (failedEmails job) 0%nat s) as (n & s' & -> & new & Hl & Hf).
    eexists _, _. split; [reflexivity|]. exists new. split; [exact Hl|].
    intros l Hin. rewrite Forall_forall in Hf.
    destruct (Hf l Hin) as (e & He & Hr). exists job, e. auto.
  - destruct (scheduleRetries_jobs s) as (s1 & H1 & J1).
    destruct (scheduleRetries_jobs s1) as (s2 & H2 & J2).
    exists s1, s2. rewrite J2, J1. repeat split; assumption || reflexivity.
Qed.

End RetryAttempts.

Lemma scheduleRetries_delay_sample : resubmits Sample.finished 1 Sample.finishedJob.
Proof.
  apply scheduleRetries_delay.
  - reflexivity.
  - reflexivity.
  - discriminate.
  - apply not_elem_of_nil.
Defined.

(** The scan passes over batches that are not [completed]: the statement
    without that restriction fails on a batch still being processed. *)
Lemma scheduleRetries_skips_unfinished :
  ~ (forall (s : State nat) (jobId : nat) (job : Job.t),
        jobs s !! jobId = Some job ->
        unresolvedErrors job <> [] ->
        true ∉ outages s ->
        resubmits s jobId job).
Proof.
  intros H.
  destruct (H Sample.stalled 1%nat Sample.stalledJob eq_refl ltac:(discriminate)
              (not_elem_of_nil _))
    as (s' & task & Hrun & Hin & _).
  vm_compute in Hrun. injection Hrun as <-.
  cbn in Hin. by apply elem_of_nil in Hin.
Qed.

(** ** The synchronous fallback and the queue workers *)

Section LoopRules.

Context {Net : Type}.

(** A slice of callbacks that all return, run under an invariant indexed
    by the elements processed so far. *)
Lemma promiseAll_inv {A} (f : A -> Proc Net unit) (Inv : list A -> State Net -> Prop)
    (l : list A) :
  (forall done x rest s, l = done ++ x :: rest -> Inv done s ->
      exists s', f x s = Some (Normal tt, s') /\ Inv (done ++ [x]) s') ->
  forall seg done rest s,
    l = done ++ seg ++ rest -> Inv done s ->
    exists s', promiseAll (map f seg) s = Some (Normal tt, s') /\ Inv (done ++ seg) s'.
Proof.
  intros Hstep. induction seg as [|x seg IH]; intros done rest s Hl Hinv.
  - exists s. rewrite app_nil_r. split; [reflexivity | exact Hinv].
  - cbn [map promiseAll].
    destruct (Hstep done x (seg ++ rest) s Hl Hinv) as (s1 & -> & Hinv1).
    destruct (IH (done ++ [x]) rest s1) as (s' & Hrun & Hinv').
    + rewrite Hl, <- app_assoc. reflexivity.
    + exact Hinv1.
    + exists s'. split; [exact Hrun|]. rewrite <- app_assoc in Hinv'. exact Hinv'.
Qed.

(** The chunked loop [for (i = 0; i < l.length; i += step)
    await Promise.all(l.slice(i, i + step).map(f))] under such an invariant. *)
Lemma forChunks_inv {A} (f : A -> Proc Net unit) (Inv : list A -> State Net -> Prop)
    (l : list A) (step : nat) :
  (0 < step)%nat ->
  (forall done x rest s, l = done ++ x :: rest -> Inv done s ->
      exists s', f x s = Some (Normal tt, s') /\ Inv (done ++ [x]) s') ->
  forall fuel i s,
    (length l - i <= fuel)%nat -> Inv (take i l) s ->
    exists s',
      forChunks fuel i step (length l)
        (fun i _ => promiseAll (map f (slice i (i + step) l))) tt s = Some (Normal tt, s')
      /\ Inv l s'.
Proof.
  intros Hstep Hf. induction fuel as [|fuel IH]; intros i s Hfuel Hinv.
  - cbn [forChunks]. destruct (Nat.ltb_spec i (length l)); [lia|].
    exists s. split; [reflexivity|]. rewrite take_ge in Hinv by lia. exact Hinv.
  - cbn [forChunks]. destruct (Nat.ltb_spec i (length l)) as [Hi|Hi].
    + unfold mbind, Proc_bind.
      destruct (promiseAll_inv f Inv l Hf (slice i (i + step) l) (take i l)
                               (drop (i + step) l) s) as (s1 & -> & Hinv1).
      * rewrite slice_drop, take_drop. reflexivity.
      * exact Hinv.
      * apply (IH (i + step)%nat s1); [lia|].
        unfold slice in Hinv1. replace (i + step - i)%nat with step in Hinv1 by lia.
        rewrite take_take_drop in Hinv1. exact Hinv1.
    + exists s. split; [reflexivity|]. rewrite take_ge in Hinv by lia. exact Hinv.
Qed.

End LoopRules.

Section Fallback.

Context {Net : Type}.
Variable sendWithMailgun :
  EmailService.Provider -> EmailService.EmailData -> Net
  -> (option EmailService.Response + JsError) * Net.
Variable sendWithSMTP :
  EmailService.Provider -> EmailService.EmailData -> Net
  -> (option EmailService.Response + JsError) * Net.
Variable providers : list EmailService.Provider.
Variable cfg : Config.

#[local] Abbreviation emailService_sendEmail :=
  (emailService_sendEmail sendWithMailgun sendWithSMTP providers).
#[local] Abbreviation deliver := (deliver sendWithMailgun sendWithSMTP providers).
#[local] Abbreviation tally := (tally sendWithMailgun sendWithSMTP providers).
#[local] Abbreviation count1 := (count1 sendWithMailgun sendWithSMTP providers).
#[local] Abbreviation sendSynchronously :=
  (sendSynchronously sendWithMailgun sendWithSMTP providers cfg).
#[local] Abbreviation processBatchSynchronously :=
  (processBatchSynchronously sendWithMailgun sendWithSMTP providers cfg).
#[local] Abbreviation processBatches :=
  (processBatches sendWithMailgun sendWithSMTP providers cfg).

(** A call of [sendEmail] from a service returns; whether it succeeded and
    what it did to the network is what [deliver] says. *)
Lemma emailService_sendEmail_run d k (s : State Net) :
  exists r w',
    emailService_sendEmail d k s = Some (Normal r, with_world w' s)
    /\ (EmailService.success r, EmailService.net w') = deliver k d (EmailService.net (world s)).
Proof.
  unfold emailService_sendEmail, call, deliver.
  destruct (sendEmail_returns sendWithMailgun sendWithSMTP providers d k (world s))
    as (r & w' & E & _).
  pose proof (sendEmail_net sendWithMailgun sendWithSMTP providers d k (world s)
                (EmailService.mkWorld (EmailService.net (world s)) [] []) eq_refl) as [Hc Hn].
  rewrite E in Hc, Hn |- *. cbn in Hc, Hn.
  destruct (EmailService.sendEmail _ _ _ _ _ (EmailService.mkWorld _ _ _)) as [c2 w2].
  cbn in Hc, Hn. subst c2. exists r, w'. split; [reflexivity|]. by rewrite Hn.
Qed.

Lemma sendSynchronously_run jobId campaignId userId campaignData total contact (s : State Net) :
  exists s' ok,
    sendSynchronously jobId campaignId userId campaignData total contact s
      = Some (Normal tt, s')
    /\ (ok, EmailService.net (world s'))
       = deliver (SYNC_SEND_RETRIES cfg) (emailDataOf campaignData (Recipient.email contact))
                 (EmailService.net (world s))
    /\ (exists update,
          jobs s' = Job.updateOne jobId Job.always update (jobs s)
          /\ forall j, Job.status (update j) = Job.status j
                       /\ Job.campaignId (update j) = Job.campaignId j
                       /\ Job.contacts (update j) = Job.contacts j
                       /\ Progress.sent (Job.progress (update j))
                          = Progress.sent (Job.progress j) + (if ok then 1 else 0)
                       /\ Progress.failed (Job.progress (update j))
                          = Progress.failed (Job.progress j) + (if ok then 0 else 1)
                       /\ Progress.total (Job.progress (update j))
                          = (if ok then total else Progress.total (Job.progress j)))
    /\ sameElsewhere s s'.
Proof.
  unfold sendSynchronously. proc.
  destruct (emailService_sendEmail_run
              (emailDataOf campaignData (Recipient.email contact))
              (SYNC_SEND_RETRIES cfg) s) as (r & w' & -> & Hd).
  destruct r as [provider messageId result|error attempts]; cbn in Hd;
    destruct (Analytics.valid _).
  1,2: eexists _, true. 3,4: eexists _, false.
  all: split; [reflexivity|]; split; [exact Hd|]; split;
    [eexists; split; [reflexivity|]; intros j; cbn; repeat split; lia | repeat split].
Qed.

#[local] Abbreviation underway := (underway sendWithMailgun sendWithSMTP providers).

Lemma tally_from k cd rs (a0 b0 : Z) (n : Net) a b n' :
  foldl (count1 k cd) (a0, b0, n) rs = (a, b, n') ->
  a0 <= a /\ b0 <= b /\ a + b = a0 + b0 + Z.of_nat (length rs).
Proof.
  revert a0 b0 n. induction rs as [|r rs IH]; intros a0 b0 n H.
  - cbn in H. injection H as <- <- <-. cbn. lia.
  - cbn [foldl] in H. 
    destruct (count1 k cd (a0, b0, n) r) as [[a1 b1] n1] eqn:E.
    apply IH in H. unfold count1 in E.
    destruct (deliver k _ n) as [[] n2]; injection E as <- <- <-; cbn [length]; lia.
Qed.

Lemma tally_sum k cd rs (n : Net) a b n' :
  tally k cd rs n = (a, b, n') -> 0 <= a /\ 0 <= b /\ a + b = Z.of_nat (length rs).
Proof. unfold tally. intros H. apply tally_from in H. lia. Qed.

(** One more recipient handled by the synchronous executor. *)
Lemma sendSynchronously_step jobId campaignId userId campaignData j0 (s0 : State Net)
    done x (s : State Net) :
  underway (SYNC_SEND_RETRIES cfg) campaignData jobId
           (Z.of_nat (length (Job.contacts j0))) j0 s0 done s ->
  exists s',
    sendSynchronously jobId campaignId userId campaignData
      (Z.of_nat (length (Job.contacts j0))) x s = Some (Normal tt, s')
    /\ underway (SYNC_SEND_RETRIES cfg) campaignData jobId
                (Z.of_nat (length (Job.contacts j0))) j0 s0 (done ++ [x]) s'
    /\ sameElsewhere s s'.
Proof.
  intros (j & Hj & Hst & Hc & Hcs & Ht & Htally & Hcamp & Hcache & Hother).
  destruct (sendSynchronously_run jobId campaignId userId campaignData
              (Z.of_nat (length (Job.contacts j0))) x s)
    as (s' & ok & Hrun & Hd & (update & Hjobs & Hupd) & Hframe').
  exists s'. split; [exact Hrun|]. split; [|exact Hframe'].
  destruct (Hupd j) as (Hu1 & Hu2 & Hu3 & Hu4 & Hu5 & Hu6).
  exists (update j). unfold Job.updateOne in Hjobs. rewrite Hj in Hjobs. cbn in Hjobs.
  rewrite Hjobs. split; [apply lookup_insert_eq|].
  split; [congruence|]. split; [congruence|]. split; [congruence|].
  split; [rewrite Hu6; destruct ok; [reflexivity | exact Ht]|].
  split.
  - unfold tally. rewrite foldl_snoc. fold (tally (SYNC_SEND_RETRIES cfg) campaignData done
                                                 (EmailService.net (world s0))).
    rewrite <- Htally. unfold count1. rewrite <- Hd, Hu4, Hu5.
    destruct ok; f_equal; f_equal; lia.
  - destruct Hframe' as (_ & Hc' & Hp' & _).
    split; [congruence|]. split; [congruence|].
    intros id Hid. rewrite lookup_insert_ne by congruence. apply Hother, Hid.
Qed.

(** The synchronous executor on a freshly planned batch. *)
Lemma processBatchSynchronously_run fuel (batch : Batch.t) campaignId userId campaignData
    (s : State Net) (j : Job.t) :
  jobs s !! Batch.jobId batch = Some j ->
  Job.contacts j = Batch.contacts batch ->
  Job.progress j = {| Progress.total := Z.of_nat (length (Batch.contacts batch));
                      Progress.sent := 0; Progress.failed := 0 |} ->
  (0 < SYNC_SEND_CONCURRENCY cfg)%nat ->
  (length (Batch.contacts batch) <= fuel)%nat ->
  exists s' j',
    processBatchSynchronously fuel batch campaignId userId campaignData s
      = Some (Normal tt, s')
    /\ jobs s' !! Batch.jobId batch = Some j'
    /\ Job.status j' = Job.completed
    /\ Progress.total (Job.progress j') = Z.of_nat (length (Batch.contacts batch))
    /\ (Progress.sent (Job.progress j'), Progress.failed (Job.progress j'),
        EmailService.net (world s'))
       = tally (SYNC_SEND_RETRIES cfg) campaignData (Batch.contacts batch)
               (EmailService.net (world s))
    /\ campaigns s'
       = closeCampaign campaignId (Progress.sent (Job.progress j'))
                       (Progress.failed (Job.progress j'))
                       (Z.of_nat (length (Batch.contacts batch))) (jobs s') (campaigns s)
    /\ (forall id, id <> Batch.jobId batch -> jobs s' !! id = jobs s !! id)
    /\ Job.campaignId j' = Job.campaignId j
    /\ queue s' = queue s /\ queued s' = queued s /\ outages s' = outages s
    /\ progressCache s' = progressCache s.
Proof.
  intros Hj Hcs Hp Hconc Hfuel.
  unfold processBatchSynchronously. proc.
  set (s1 := with_jobs (Job.updateOne (Batch.jobId batch) Job.always
                          (Job.set_status Job.processing)) s).
  assert (Hjobs1 : jobs s1 = <[Batch.jobId batch := Job.set_status Job.processing j]> (jobs s)).
  { subst s1. cbn. unfold Job.updateOne. rewrite Hj. reflexivity. }
  assert (Hinv : underway (SYNC_SEND_RETRIES cfg) campaignData (Batch.jobId batch)
                   (Z.of_nat (length (Job.contacts j))) j s1 [] s1).
  { exists (Job.set_status Job.processing j). rewrite Hjobs1.
    split; [apply lookup_insert_eq|]. cbn. rewrite Hp, Hcs. cbn.
    repeat split; reflexivity. }
  destruct (forChunks_inv
              (sendSynchronously (Batch.jobId batch) campaignId userId campaignData
                 (Z.of_nat (length (Batch.contacts batch))))
              (fun done s =>
                 underway (SYNC_SEND_RETRIES cfg) campaignData (Batch.jobId batch)
                          (Z.of_nat (length (Job.contacts j))) j s1 done s
                 /\ sameElsewhere s1 s)
              (Batch.contacts batch) (SYNC_SEND_CONCURRENCY cfg) Hconc) with
    (fuel := fuel) (i := 0%nat) (s := s1)
    as (s2 & Hloop & (j2 & Hj2 & Hst2 & Hc2 & Hcs2 & Ht2 & Htally & _ & _ & Hother) & Hframe).
  { intros done x rest s0 _ [Hu Hsame]. rewrite <- Hcs.
    destruct (sendSynchronously_step _ campaignId userId _ _ _ _ x _ Hu)
      as (s' & Hrun & Hu' & Hsame').
    exists s'. split; [exact Hrun|]. split; [exact Hu'|].
    unfold sameElsewhere in *. intuition congruence. }
  { lia. }
  { split; [exact Hinv | repeat split]. }
  rewrite Hloop, Hj2. cbv beta.
  destruct Hframe as (Hf1 & Hf2 & Hf3 & Hf4 & Hf5 & Hf6).
  assert (Hup : Job.updateOne (Batch.jobId batch) Job.always (Job.set_status Job.completed)
                  (jobs s2)
                = <[Batch.jobId batch := Job.set_status Job.completed j2]> (jobs s2)).
  { unfold Job.updateOne. rewrite Hj2. reflexivity. }
  match goal with
  | |- context [if ?c then _ else _] => destruct c eqn:E
  end;
  (eexists _, (Job.set_status Job.completed j2);
   split; [reflexivity|]; cbn in E |- *; rewrite Hup in E |- *;
   split; [apply lookup_insert_eq|];
   split; [reflexivity|];
   split; [cbn; rewrite Ht2, Hcs; reflexivity|];
   split; [cbn; exact Htally|];
   split; [unfold closeCampaign; rewrite E, Hf2; reflexivity|];
   split; [intros id Hid; rewrite lookup_insert_ne by congruence;
           rewrite (Hother id Hid), Hjobs1; apply lookup_insert_ne; congruence|];
   split; [exact Hc2|];
   rewrite Hf4, Hf5, Hf6, Hf3; repeat split).
Qed.

(** *** The queue workers *)

#[local] Abbreviation incProgress := (@incProgress Net cfg).
#[local] Abbreviation process_send_email :=
  (process_send_email sendWithMailgun sendWithSMTP providers cfg).
#[local] Abbreviation closedOut := (closedOut sendWithMailgun sendWithSMTP providers).

Lemma incProgress_unbatched jobId a b t (s : State Net) :
  PROGRESS_BATCHING cfg = false ->
  incProgress jobId a b t s
  = Some (Normal tt,
          with_jobs (Job.updateOne jobId Job.always
                       (fun j => Job.set_total_if_truthy t (Job.inc_progress a b j))) s).
Proof. intros H. unfold incProgress. rewrite H. reflexivity. Qed.

(** The check proper when it closes the job out. *)
Lemma checkCompletion_closes jobId campaignId t (s : State Net) j :
  jobs s !! jobId = Some j ->
  closesOut t j = true ->
  exists s',
    checkCompletion jobId campaignId t s = Some (Normal tt, s')
    /\ jobs s' = <[jobId := Job.set_status Job.completed j]> (jobs s)
    /\ campaigns s'
       = closeCampaign campaignId (Progress.sent (Job.progress j))
                       (Progress.failed (Job.progress j))
                       (or_number t (or_number (Progress.total (Job.progress j)) 0))
                       (jobs s') (campaigns s)
    /\ progressCache s' = progressCache s /\ world s' = world s
    /\ queue s' = queue s /\ queued s' = queued s /\ outages s' = outages s.
Proof.
  intros Hj Hc. unfold checkCompletion. proc. rewrite Hj.
  unfold closesOut in Hc. rewrite Hc.
  apply andb_prop in Hc as [_ Hst].
  assert (Hup : Job.updateOne jobId
                  (fun j => negb (bool_decide (Job.status j = Job.completed)))
                  (Job.set_status Job.completed) (jobs s)
                = <[jobId := Job.set_status Job.completed j]> (jobs s)).
  { unfold Job.updateOne. rewrite Hj, Hst. reflexivity. }
  match goal with
  | |- context [if ?c then _ else _] => destruct c eqn:E
  end;
  (eexists; split; [reflexivity|]; cbn in E |- *; rewrite Hup in E |- *;
   split; [reflexivity|]; split; [unfold closeCampaign; rewrite E; reflexivity|];
   repeat split).
Qed.

Lemma checkCompletion_idle jobId campaignId t (s : State Net) j :
  jobs s !! jobId = Some j ->
  closesOut t j = false ->
  checkCompletion jobId campaignId t s = Some (Normal tt, s).
Proof.
  intros Hj Hc. pose proof (checkCompletion_run jobId campaignId t s) as H.
  rewrite Hj, Hc in H. exact H.
Qed.

Lemma flushProgress_idle jobId (s : State Net) :
  progressCache s !! jobId = None -> flushProgress jobId s = Some (Normal tt, s).
Proof. intros H. rewrite flushProgress_run. unfold flushed. rewrite H. reflexivity. Qed.


(** The completion check, in either form, on a job that is being
    processed and has nothing cached. *)
Lemma check_after jobId campaignId N (s2 : State Net) j1 :
  jobs s2 !! jobId = Some j1 ->
  progressCache s2 !! jobId = None ->
  Job.status j1 = Job.processing ->
  Progress.total (Job.progress j1) = N ->
  0 < N ->
  exists s3,
    completionCheck jobId campaignId N s2 = Some (Normal tt, s3)
    /\ completionCheck_onFailure jobId campaignId N s2 = Some (Normal tt, s3)
    /\ if (N <=? Progress.sent (Job.progress j1) + Progress.failed (Job.progress j1))%Z
       then jobs s3 = <[jobId := Job.set_status Job.completed j1]> (jobs s2)
            /\ campaigns s3
               = closeCampaign campaignId (Progress.sent (Job.progress j1))
                               (Progress.failed (Job.progress j1)) N (jobs s3) (campaigns s2)
            /\ progressCache s3 = progressCache s2 /\ world s3 = world s2
            /\ queue s3 = queue s2 /\ queued s3 = queued s2 /\ outages s3 = outages s2
       else s3 = s2.
Proof.
  intros Hj Hcache Hst Ht HN.
  assert (Hor : or_number N (or_number (Progress.total (Job.progress j1)) 0) = N).
  { unfold or_number. destruct (Z.eqb_spec N 0); [lia | reflexivity]. }
  assert (Hc : closesOut N j1
               = (N <=? Progress.sent (Job.progress j1) + Progress.failed (Job.progress j1))%Z).
  { unfold closesOut. rewrite Hor, Hst.
    rewrite bool_decide_eq_false_2 by discriminate.
    destruct (Z.ltb_spec 0 N); [|lia]. rewrite !andb_true_r. reflexivity. }
  unfold completionCheck, completionCheck_onFailure, tryCatch, mbind, Proc_bind.
  rewrite (flushProgress_idle jobId s2 Hcache).
  destruct (N <=? _)%Z eqn:E.
  - destruct (checkCompletion_closes jobId campaignId N s2 j1 Hj Hc)
      as (s3 & Hrun & Hjobs & Hcamp & Hrest).
    exists s3. rewrite Hrun. split; [reflexivity|]. split; [reflexivity|].
    split; [exact Hjobs|]. rewrite Hor in Hcamp. split; [exact Hcamp | exact Hrest].
  - exists s2. rewrite (checkCompletion_idle jobId campaignId N s2 j1 Hj Hc).
    repeat split.
Qed.


(** Once the outcome of recipient [x] is recorded on the job, the
    completion check leaves the batch under way, or closed out if [x] was
    its last recipient. *)
Lemma outcome_recorded campaignData jobId campaignId j0 (s0 : State Net) done x rest
    (s s2 : State Net) j1 :
  progressCache s0 !! jobId = None ->
  Job.contacts j0 = done ++ x :: rest ->
  (forall id, id <> jobId -> jobs s !! id = jobs s0 !! id) ->
  campaigns s = campaigns s0 ->
  progressCache s = progressCache s0 ->
  jobs s2 = <[jobId := j1]> (jobs s) ->
  campaigns s2 = campaigns s ->
  progressCache s2 = progressCache s ->
  Job.status j1 = Job.processing ->
  Job.campaignId j1 = Job.campaignId j0 ->
  Job.contacts j1 = Job.contacts j0 ->
  Progress.total (Job.progress j1) = Z.of_nat (length (Job.contacts j0)) ->
  (Progress.sent (Job.progress j1), Progress.failed (Job.progress j1),
   EmailService.net (world s2))
  = tally 1 campaignData (done ++ [x]) (EmailService.net (world s0)) ->
  exists s3,
    completionCheck jobId campaignId (Z.of_nat (length (Job.contacts j0))) s2
      = Some (Normal tt, s3)
    /\ completionCheck_onFailure jobId campaignId (Z.of_nat (length (Job.contacts j0))) s2
       = Some (Normal tt, s3)
    /\ queue s3 = queue s2 /\ queued s3 = queued s2 /\ outages s3 = outages s2
    /\ match rest with
       | [] => closedOut 1 campaignData jobId campaignId j0 s0 s3
       | _ => underway 1 campaignData jobId (Z.of_nat (length (Job.contacts j0))) j0 s0
                       (done ++ [x]) s3
       end.
Proof.
  intros Hcache Hcs Hother Hcamp Hpc Hjobs2 Hcamp2 Hpc2 Hst1 Hc1 Hcs1 Ht1 Htally.
  assert (Hj1 : jobs s2 !! jobId = Some j1) by (rewrite Hjobs2; apply lookup_insert_eq).
  assert (Hsum := Htally). symmetry in Hsum. apply tally_sum in Hsum.
  rewrite length_app in Hsum. cbn [length] in Hsum.
  assert (Hlen : length (Job.contacts j0) = (length done + 1 + length rest)%nat).
  { rewrite Hcs, length_app. cbn. lia. }
  destruct (check_after jobId campaignId (Z.of_nat (length (Job.contacts j0))) s2 j1 Hj1)
    as (s3 & Hrun1 & Hrun2 & Hpost); try assumption; try lia.
  { congruence. }
  exists s3. split; [exact Hrun1|]. split; [exact Hrun2|].
  destruct rest as [|y rest].
  - destruct (Z.leb_spec (Z.of_nat (length (Job.contacts j0)))
                (Progress.sent (Job.progress j1) + Progress.failed (Job.progress j1)));
      [|cbn in Hlen; lia].
    destruct Hpost as (Hjobs3 & Hcamp3 & Hpc3 & Hw3 & Hq3 & Hqd3 & Hout3).
    split; [exact Hq3|]. split; [exact Hqd3|]. split; [exact Hout3|].
    exists (Job.set_status Job.completed j1). rewrite Hjobs3.
    split; [apply lookup_insert_eq|]. cbn.
    split; [reflexivity|]. split; [exact Hc1|]. split; [exact Ht1|].
    split; [cbn in Hlen; lia|].
    split; [rewrite Hw3, Hcs, Htally; reflexivity|].
    split; [rewrite Hcamp3, Hjobs3, Hcamp2, Hcamp; reflexivity|].
    split; [congruence|].
    intros id Hid. rewrite lookup_insert_ne by congruence.
    rewrite Hjobs2, lookup_insert_ne by congruence. apply Hother, Hid.
  - destruct (Z.leb_spec (Z.of_nat (length (Job.contacts j0)))
                (Progress.sent (Job.progress j1) + Progress.failed (Job.progress j1)));
      [cbn in Hlen; lia|].
    subst s3. repeat split; try reflexivity.
    exists j1. split; [exact Hj1|]. split; [exact Hst1|]. split; [exact Hc1|].
    split; [exact Hcs1|]. split; [exact Ht1|]. split; [exact Htally|].
    split; [congruence|]. split; [congruence|].
    intros id Hid. rewrite Hjobs2, lookup_insert_ne by congruence. apply Hother, Hid.
Qed.

(** A worker handles the send task of the next recipient of a batch, with
    progress written through and no analytics record made. *)
Lemma process_send_email_step campaignData jobId campaignId userId j0 (s0 : State Net)
    done x rest (s : State Net) :
  PROGRESS_BATCHING cfg = false ->
  ANALYTICS_ENABLED cfg = false ->
  progressCache s0 !! jobId = None ->
  Job.contacts j0 = done ++ x :: rest ->
  underway 1 campaignData jobId (Z.of_nat (length (Job.contacts j0))) j0 s0 done s ->
  exists c s',
    process_send_email (emailDataOf campaignData (Recipient.email x)) jobId campaignId userId
      (Recipient.contactId x) (Z.of_nat (length (Job.contacts j0))) s = Some (c, s')
    /\ queue s' = queue s /\ queued s' = queued s /\ outages s' = outages s
    /\ match rest with
       | [] => closedOut 1 campaignData jobId campaignId j0 s0 s'
       | _ => underway 1 campaignData jobId (Z.of_nat (length (Job.contacts j0))) j0 s0
                       (done ++ [x]) s'
       end.
Proof.
  intros Hb Ha Hcache Hcs (j & Hj & Hst & Hc & Hcsj & Ht & Htally & Hcamp & Hpc & Hother).
  set (N := Z.of_nat (length (Job.contacts j0))) in *.
  assert (HN : 0 < N).
  { subst N. rewrite Hcs, length_app. cbn. lia. }
  assert (Hor : or_number N 0 = N).
  { unfold or_number. destruct (Z.eqb_spec N 0); [lia | reflexivity]. }
  unfold process_send_email. unfold mbind at 1. unfold Proc_bind at 1.
  destruct (emailService_sendEmail_run
              (emailDataOf campaignData (Recipient.email x)) 1 s) as (r & w' & -> & Hd).
  assert (Hstep : forall ok a b,
             (ok, EmailService.net w')
             = deliver 1 (emailDataOf campaignData (Recipient.email x))
                       (EmailService.net (world s)) ->
             a = (if ok then 1 else 0) -> b = (if ok then 0 else 1) ->
             (Progress.sent (Job.progress j) + a, Progress.failed (Job.progress j) + b,
              EmailService.net w')
             = tally 1 campaignData (done ++ [x]) (EmailService.net (world s0))).
  { intros ok a b Hok -> ->. unfold tally. rewrite foldl_snoc.
    fold (tally 1 campaignData done (EmailService.net (world s0))).
    rewrite <- Htally. unfold count1. rewrite <- Hok. destruct ok; f_equal; f_equal; lia. }
  rewrite Hor.
  assert (Hupd : forall f, Job.updateOne jobId Job.always f (jobs s) = <[jobId := f j]> (jobs s)).
  { intros f. unfold Job.updateOne. rewrite Hj. reflexivity. }
  assert (Hset : forall j', Job.set_total_if_truthy N j' = Job.set_total N j').
  { intros j'. unfold Job.set_total_if_truthy. destruct (Z.eqb_spec N 0); [lia | reflexivity]. }
  destruct r as [provider messageId result|error attempts]; cbn in Hd.
  - unfold mbind, Proc_bind. rewrite (incProgress_unbatched _ _ _ _ _ Hb).
    rewrite Ha; unfold mret, Proc_ret;
    match goal with
    | |- context [completionCheck jobId campaignId N ?s2] =>
      destruct (outcome_recorded campaignData jobId campaignId j0 s0 done x rest s s2
                  (Job.set_total N (Job.inc_progress 1 0 j)) Hcache Hcs Hother Hcamp Hpc)
        as (s3 & Hrun & _ & Hq & Hqd & Hout & Hpost);
      [ cbn; rewrite Hupd, Hset; reflexivity | reflexivity | reflexivity
      | exact Hst | exact Hc | exact Hcsj | reflexivity
      | cbn; apply (Hstep true); [exact Hd | reflexivity | reflexivity]
      | subst N; rewrite Hrun; exists (Normal tt), s3; repeat split; assumption ]
    end.
  - unfold mbind, Proc_bind. rewrite (incProgress_unbatched _ _ _ _ _ Hb).
    rewrite Ha; unfold mret, Proc_ret, raise;
    match goal with
    | |- context [completionCheck_onFailure jobId campaignId N ?s2] =>
      destruct (outcome_recorded campaignData jobId campaignId j0 s0 done x rest s s2
                  (Job.set_total N (Job.inc_progress 0 1 j)) Hcache Hcs Hother Hcamp Hpc)
        as (s3 & _ & Hrun & Hq & Hqd & Hout & Hpost);
      [ cbn; rewrite Hupd, Hset; reflexivity | reflexivity | reflexivity
      | exact Hst | exact Hc | exact Hcsj | reflexivity
      | cbn; apply (Hstep false); [exact Hd | reflexivity | reflexivity]
      | subst N; rewrite Hrun; eexists (Throw _), s3; repeat split; assumption ]
    end.
Qed.


#[local] Abbreviation process_send_batch := (@process_send_batch Net cfg).
#[local] Abbreviation handler := (handler sendWithMailgun sendWithSMTP providers cfg).
#[local] Abbreviation workOne := (workOne sendWithMailgun sendWithSMTP providers cfg).
#[local] Abbreviation work := (work sendWithMailgun sendWithSMTP providers cfg).

(** The batch worker on a freshly planned batch, with Redis reachable: the
    job becomes [processing] and one send task per recipient is added. *)
Lemma process_send_batch_run fuel jobId campaignId userId contacts campaignData
    (s : State Net) (j : Job.t) :
  jobs s !! jobId = Some j ->
  Progress.sent (Job.progress j) = 0 -> Progress.failed (Job.progress j) = 0 ->
  (0 < length contacts)%nat ->
  true ∉ outages s ->
  (0 < BATCH_ENQUEUE_SIZE cfg)%nat ->
  (length contacts <= fuel)%nat ->
  exists s',
    process_send_batch fuel jobId campaignId userId contacts campaignData s
      = Some (Normal tt, s')
    /\ jobs s' = <[jobId := Job.set_status Job.processing j]> (jobs s)
    /\ queue s'
       = queue s ++ imap (emailTask (JOB_ATTEMPTS_EMAIL cfg) campaignData jobId campaignId
                                    userId (Z.of_nat (length contacts)) (queued s)) contacts
    /\ campaigns s' = campaigns s /\ progressCache s' = progressCache s
    /\ EmailService.net (world s') = EmailService.net (world s)
    /\ (true ∉ outages s').
Proof.
  intros Hj Hsent Hfailed Hlen Hup Hsize Hfuel.
  unfold process_send_batch, process_send_batch_during. proc. rewrite Hj.
  set (s1 := with_jobs (Job.updateOne jobId Job.always (Job.set_status Job.processing)) s).
  assert (Hjobs1 : jobs s1 = <[jobId := Job.set_status Job.processing j]> (jobs s)).
  { subst s1. cbn. unfold Job.updateOne. rewrite Hj. reflexivity. }
  destruct (forChunks_inv
              (fun contact =>
                 emailQueue_add
                   (Queue.send_email (emailDataOf campaignData (Recipient.email contact))
                      jobId campaignId userId (Recipient.contactId contact)
                      (Z.of_nat (length contacts)))
                   {| Queue.priority := Some 1%nat; Queue.attempts := JOB_ATTEMPTS_EMAIL cfg;
                      Queue.delay := 0 |} ≫= (fun _ => mret tt))
              (fun done st =>
                 queue st = queue s1
                            ++ imap (emailTask (JOB_ATTEMPTS_EMAIL cfg) campaignData jobId
                                       campaignId userId (Z.of_nat (length contacts))
                                       (queued s1)) done
                 /\ queued st = (queued s1 + length done)%nat
                 /\ (true ∉ outages st)
                 /\ jobs st = jobs s1 /\ campaigns st = campaigns s1
                 /\ progressCache st = progressCache s1 /\ world st = world s1)
              contacts (BATCH_ENQUEUE_SIZE cfg) Hsize) with
    (fuel := fuel) (i := 0%nat) (s := s1)
    as (s2 & Hloop & Hq & Hqd & Hup2 & Hjobs2 & Hcamp2 & Hpc2 & Hw2).
  { intros done x rest st _ (Hq & Hqd & Hupst & Hjobs & Hcamp & Hpc & Hw).
    unfold mbind, Proc_bind, mret, Proc_ret.
    destruct (emailQueue_add_up
                (Queue.send_email (emailDataOf campaignData (Recipient.email x))
                   jobId campaignId userId (Recipient.contactId x)
                   (Z.of_nat (length contacts)))
                {| Queue.priority := Some 1%nat; Queue.attempts := JOB_ATTEMPTS_EMAIL cfg;
                   Queue.delay := 0 |} st Hupst)
      as (st' & -> & Hjobs' & Hup' & Hqd' & Hq' & Hcamp' & Hpc' & Hw').
    exists st'. split; [reflexivity|].
    split.
    { rewrite Hq', Hq, imap_app, <- app_assoc. cbn. unfold emailTask at 3.
      rewrite Nat.add_0_r, Hqd. reflexivity. }
    split; [rewrite Hqd', Hqd, length_app; cbn; lia|].
    split; [exact Hup'|]. repeat split; congruence. }
  { lia. }
  { rewrite take_0. cbn. rewrite app_nil_r. repeat split; try reflexivity; try lia. exact Hup. }
  proc. rewrite Hloop. unfold sleep, call. cbn.
  assert (Hj2 : jobs s2 !! jobId = Some (Job.set_status Job.processing j)).
  { rewrite Hjobs2, Hjobs1. apply lookup_insert_eq. }
  rewrite Hj2. cbn. rewrite Hsent, Hfailed.
  destruct (Z.leb_spec (Z.of_nat (length contacts)) (0 + 0)); [lia|].
  eexists. split; [reflexivity|]. cbn.
  split; [rewrite Hjobs2; exact Hjobs1|]. split; [exact Hq|].
  split; [rewrite Hcamp2; reflexivity|]. split; [rewrite Hpc2; reflexivity|].
  split; [rewrite Hw2; reflexivity | exact Hup2].
Qed.

(** The workers take the send tasks of a batch one by one, each attempted
    once, with progress written through and no analytics record made;
    after the last one the batch is closed out. *)
Lemma work_emails campaignData jobId campaignId userId j0 (s0 : State Net) first fuel :
  PROGRESS_BATCHING cfg = false ->
  ANALYTICS_ENABLED cfg = false ->
  JOB_ATTEMPTS_EMAIL cfg = 1%nat ->
  progressCache s0 !! jobId = None ->
  forall rest done (s : State Net) turns,
    Job.contacts j0 = done ++ rest ->
    rest <> [] ->
    underway 1 campaignData jobId (Z.of_nat (length (Job.contacts j0))) j0 s0 done s ->
    queue s = imap (fun k => emailTask (JOB_ATTEMPTS_EMAIL cfg) campaignData jobId campaignId
                               userId (Z.of_nat (length (Job.contacts j0))) first
                               (length done + k)) rest ->
    (length rest <= turns)%nat ->
    exists s',
      work turns fuel s = Some (Normal tt, s')
      /\ closedOut 1 campaignData jobId campaignId j0 s0 s'
      /\ queue s' = [] /\ queued s' = queued s /\ outages s' = outages s.
Proof.
  intros Hb Ha Hatt Hcache.
  induction rest as [|x rest IH]; intros done s turns Hcs Hne Hu Hq Hturns; [congruence|].
  destruct turns as [|turns]; [cbn in Hturns; lia|].
  set (task := emailTask (JOB_ATTEMPTS_EMAIL cfg) campaignData jobId campaignId userId
                        (Z.of_nat (length (Job.contacts j0))) first (length done + 0) x).
  set (tasks := imap ((fun k => emailTask (JOB_ATTEMPTS_EMAIL cfg) campaignData jobId
                                  campaignId userId (Z.of_nat (length (Job.contacts j0)))
                                  first (length done + k)) ∘ S) rest).
  assert (Hq' : queue s = task :: tasks) by (rewrite Hq, imap_cons; reflexivity).
  cbn [work]. cbv beta. rewrite Hq'.
  unfold mbind, Proc_bind. unfold workOne at 1. rewrite Hq'.
  subst task. cbn [Queue.data emailTask handler].
  assert (Hu' : underway 1 campaignData jobId (Z.of_nat (length (Job.contacts j0))) j0 s0 done
                  (with_queue (fun _ => tasks) s))
    by exact Hu.
  destruct (process_send_email_step campaignData jobId campaignId userId j0 s0 done x rest _
              Hb Ha Hcache Hcs Hu') as (c & s1 & Hrun & Hq1 & Hqd1 & Hout1 & Hpost).
  rewrite Hrun. cbn [Queue.attemptsMade Queue.attempts Queue.opts emailTask].
  rewrite Hatt. cbn [Nat.add Nat.ltb Nat.leb].
  assert (Hnext : exists s',
             work turns fuel s1 = Some (Normal tt, s')
             /\ closedOut 1 campaignData jobId campaignId j0 s0 s'
             /\ queue s' = [] /\ queued s' = queued s /\ outages s' = outages s).
  { destruct rest as [|y rest].
    - exists s1. subst tasks. cbn in Hq1. split.
      + destruct turns; cbn [work]; rewrite Hq1; reflexivity.
      + split; [exact Hpost|]. split; [exact Hq1|]. split; [exact Hqd1 | exact Hout1].
    - destruct (IH (done ++ [x]) s1 turns) as (s' & Hw & Hc & Hqe & Hqd & Hout).
      + rewrite Hcs, <- app_assoc. reflexivity.
      + discriminate.
      + exact Hpost.
      + rewrite Hq1. cbn [queue with_queue]. subst tasks. apply imap_ext. intros k z _. cbn.
        rewrite length_app. cbn. f_equal. lia.
      + cbn in Hturns |- *. lia.
      + exists s'. split; [exact Hw|]. split; [exact Hc|]. split; [exact Hqe|].
        split; [rewrite Hqd; exact Hqd1 | rewrite Hout; exact Hout1]. }
  destruct c as [[]|e]; exact Hnext.
Qed.

(** *** Counting the open jobs of a campaign *)

Lemma countRemaining_insert c i x (m : gmap nat Job.t) :
  Job.countRemaining c (<[i := x]> m)
  = ((if decide (Job.campaignId x = c /\ (Job.status x = Job.pending \/
                                          Job.status x = Job.processing))
      then 1 else 0) + Job.countRemaining c (delete i m))%nat.
Proof.
  unfold Job.countRemaining. rewrite <- insert_delete_eq.
  rewrite map_to_list_insert by apply lookup_delete_eq.
  rewrite filter_cons. cbn [snd]. case_decide; reflexivity.
Qed.

Lemma closeCampaign_agree c a b t i (j1 j2 : Job.t) (m : gmap nat Job.t) cs :
  Job.campaignId j1 = Job.campaignId j2 -> Job.status j1 = Job.status j2 ->
  closeCampaign c a b t (<[i := j1]> m) cs = closeCampaign c a b t (<[i := j2]> m) cs.
Proof.
  intros Hc Hs. unfold closeCampaign. rewrite !countRemaining_insert, Hc, Hs. reflexivity.
Qed.

Lemma jobs_as_insert (m m' : gmap nat Job.t) i j' :
  m' !! i = Some j' -> (forall id, id <> i -> m' !! id = m !! id) -> m' = <[i := j']> m.
Proof.
  intros Hi Hother. apply map_eq. intros id.
  destruct (decide (i = id)) as [<-|Hne].
  - rewrite lookup_insert_eq. exact Hi.
  - rewrite lookup_insert_ne by exact Hne. apply Hother. congruence.
Qed.

(** *** The two ways a batch is processed *)

(** The fallback: the enqueue throws and the batch is processed in the
    calling process. *)
Lemma fallback_run fuel (batch : Batch.t) campaignId userId campaignData
    (s : State Net) (j : Job.t) :
  jobs s !! Batch.jobId batch = Some j ->
  Job.contacts j = Batch.contacts batch ->
  Job.progress j = {| Progress.total := Z.of_nat (length (Batch.contacts batch));
                      Progress.sent := 0; Progress.failed := 0 |} ->
  (0 < SYNC_SEND_CONCURRENCY cfg)%nat ->
  (length (Batch.contacts batch) <= fuel)%nat ->
  head (outages s) = Some true ->
  exists s',
    processBatches fuel campaignId userId campaignData [batch] s
      = Some (Normal [ {| sub_jobId := Batch.jobId batch; queueJobId := None;
                          sub_batchNumber := Batch.batchNumber batch |} ], s')
    /\ queue s' = queue s
    /\ closedOut (SYNC_SEND_RETRIES cfg) campaignData (Batch.jobId batch) campaignId j s s'.
Proof.
  intros Hj Hcs Hp Hconc Hfuel Hdown.
  unfold processBatches. cbn [processBatches_loop].
  unfold mbind at 1. unfold Proc_bind at 1. unfold tryCatch.
  unfold mbind at 1. unfold Proc_bind at 1. unfold emailQueue_add at 1. rewrite Hdown.
  unfold mbind at 1. unfold Proc_bind at 1.
  match goal with
  | |- context [processBatchSynchronously fuel batch campaignId userId campaignData ?s1] =>
    destruct (processBatchSynchronously_run fuel batch campaignId userId campaignData s1 j
                Hj Hcs Hp Hconc Hfuel)
      as (s' & j' & Hrun & Hj' & Hst' & Ht' & Htally & Hcamp & Hother & Hc' & Hq & Hqd & Hout
          & Hpc)
  end.
  rewrite Hrun. exists s'. split; [reflexivity|]. split; [exact Hq|].
  exists j'. split; [exact Hj'|]. split; [exact Hst'|]. split; [exact Hc'|].
  rewrite Hcs. split; [exact Ht'|].
  split.
  { symmetry in Htally. apply tally_sum in Htally. lia. }
  split; [exact Htally|]. split; [exact Hcamp|]. split; [exact Hpc | exact Hother].
Qed.

(** The durable path in the configuration where it closes a batch out as
    the fallback does: the enqueue succeeds, a worker expands the batch
    into one send task per recipient and the workers take these one by one,
    each attempted once, with progress written through and no analytics
    record made.  The error log is no part of [closedOut]: the send tasks
    never write it. *)
Lemma durable_run fuel turns (batch : Batch.t) campaignId userId campaignData
    (s : State Net) (j : Job.t) :
  jobs s !! Batch.jobId batch = Some j ->
  Job.contacts j = Batch.contacts batch ->
  Job.progress j = {| Progress.total := Z.of_nat (length (Batch.contacts batch));
                      Progress.sent := 0; Progress.failed := 0 |} ->
  (0 < length (Batch.contacts batch))%nat ->
  (0 < BATCH_ENQUEUE_SIZE cfg)%nat ->
  JOB_ATTEMPTS_EMAIL cfg = 1%nat ->
  PROGRESS_BATCHING cfg = false ->
  ANALYTICS_ENABLED cfg = false ->
  progressCache s !! Batch.jobId batch = None ->
  queue s = [] ->
  true ∉ outages s ->
  (length (Batch.contacts batch) <= fuel)%nat ->
  (length (Batch.contacts batch) < turns)%nat ->
  exists s',
    (processBatches fuel campaignId userId campaignData [batch] ≫= fun _ => work turns fuel) s
      = Some (Normal tt, s')
    /\ queue s' = []
    /\ closedOut 1 campaignData (Batch.jobId batch) campaignId j s s'.
Proof.
  intros Hj Hcs Hp Hlen Hsize Hatt Hb Ha Hcache Hqueue Hup Hfuel Hturns.
  destruct turns as [|turns]; [lia|].
  unfold processBatches. cbn [processBatches_loop].
  unfold mbind at 1. unfold Proc_bind at 1.
  unfold mbind at 1. unfold Proc_bind at 1. unfold tryCatch.
  unfold mbind at 1. unfold Proc_bind at 1.
  destruct (emailQueue_add_up
              (Queue.send_batch (Batch.jobId batch) campaignId userId (Batch.contacts batch)
                 campaignData)
              {| Queue.priority := Some 1%nat; Queue.attempts := 1; Queue.delay := 0 |} s Hup)
    as (sa & -> & Hjobsa & Hupa & Hqda & Hqa & Hcampa & Hpca & Hwa).
  unfold mret at 1 2. unfold Proc_ret. cbv beta iota.
  rewrite Hqueue in Hqa. cbn [app] in Hqa.
  unfold mret, Proc_ret. cbn [work]. cbv beta. rewrite Hqa.
  unfold mbind, Proc_bind. unfold workOne at 1. rewrite Hqa.
  cbn [Queue.data handler].
  destruct (process_send_batch_run fuel (Batch.jobId batch) campaignId userId
              (Batch.contacts batch) campaignData (with_queue (fun _ => []) sa) j)
    as (sb & -> & Hjobsb & Hqb & Hcampb & Hpcb & Hnetb & Hupb); try assumption.
  { cbn. rewrite Hjobsa. exact Hj. }
  { rewrite Hp. reflexivity. }
  { rewrite Hp. reflexivity. }
  cbn [queue with_queue queued app] in Hqb.
  cbn [jobs campaigns progressCache world with_queue] in Hjobsb, Hcampb, Hpcb, Hnetb.
  destruct (work_emails campaignData (Batch.jobId batch) campaignId userId j sb (queued sa)
              fuel Hb Ha Hatt) with
    (rest := Batch.contacts batch) (done := @nil Recipient.t) (s := sb) (turns := turns)
    as (s' & Hwork & Hclosed & Hq' & _).
  { rewrite Hpcb, Hpca. exact Hcache. }
  { rewrite Hcs. reflexivity. }
  { intros H. rewrite H in Hlen. cbn in Hlen. lia. }
  { exists (Job.set_status Job.processing j). rewrite Hjobsb.
    split; [apply lookup_insert_eq|]. cbn. rewrite Hp. cbn. rewrite Hcs.
    repeat split; reflexivity. }
  { rewrite Hqb, Hcs. reflexivity. }
  { lia. }
  rewrite Hwork. exists s'. split; [reflexivity|]. split; [exact Hq'|].
  destruct Hclosed as (j' & Hj' & Hst' & Hc' & Ht' & Hsum & Htally & Hcamp & Hpc & Hother).
  exists j'. split; [exact Hj'|]. split; [exact Hst'|]. split; [exact Hc'|].
  split; [exact Ht'|]. split; [exact Hsum|].
  split; [rewrite Htally, Hnetb, Hwa; reflexivity|].
  split; [rewrite Hcamp, Hcampb, Hcampa; reflexivity|].
  split; [rewrite Hpc, Hpcb, Hpca; reflexivity|].
  intros id Hid. rewrite (Hother id Hid), Hjobsb, lookup_insert_ne by congruence.
  rewrite Hjobsa. reflexivity.
Qed.

(** While the recipients of a batch are each handled once, the counters
    stay within the total, which stays what [createBatches] set. *)
Lemma underway_within_total k campaignData jobId j0 (s0 s : State Net) done rest :
  Job.contacts j0 = done ++ rest ->
  underway k campaignData jobId (Z.of_nat (length (Job.contacts j0))) j0 s0 done s ->
  exists j,
    jobs s !! jobId = Some j
    /\ Progress.total (Job.progress j) = Z.of_nat (length (Job.contacts j0))
    /\ 0 <= Progress.sent (Job.progress j) /\ 0 <= Progress.failed (Job.progress j)
    /\ Progress.sent (Job.progress j) + Progress.failed (Job.progress j)
       <= Progress.total (Job.progress j).
Proof.
  intros Hcs (j & Hj & _ & _ & _ & Ht & Htally & _).
  exists j. split; [exact Hj|]. split; [exact Ht|].
  symmetry in Htally. apply tally_sum in Htally.
  rewrite Ht, Hcs, length_app. lia.
Qed.

(** Resolving a retry moves one unit from [failed] to [sent]: the sum and
    the total are unchanged. *)
Lemma retry_resolution_keeps_sum (l : list ErrorLog.t) (j : Job.t) :
  let j' := Job.inc_progress 1 (-1) (Job.set_errorLog l j) in
  Progress.sent (Job.progress j') + Progress.failed (Job.progress j')
  = Progress.sent (Job.progress j) + Progress.failed (Job.progress j)
  /\ Progress.total (Job.progress j') = Progress.total (Job.progress j).
Proof. cbn. split; [lia | reflexivity]. Qed.

End Fallback.

(** C2 (behaviour of the code): the synchronous fallback and the durable
    path do not leave a batch in the same terminal state.  The batch is
    the first batch of campaign 7, of two recipients, planned as job 1;
    on the durable path the workers run until the queue is empty.
    (1) Default configuration, every send refused: both paths end with the
    job completed and two failures counted, but the fallback logs the two
    failed recipients on the job, where the retry service finds them,
    while the send tasks log none.  When the send tasks are processed
    during the wait of the batch worker, the last of them and the batch
    worker both close the batch, and the statistics of the campaign count
    four failures for two recipients.
    (2) Progress caching on, every send refused: the send tasks check for
    completion without flushing the cache, so the job stays processing
    with no outcome on the document and the campaign stays as it was,
    while the fallback completes both.
    (3) Default configuration, mailgun accepting every message: each send
    task throws when its analytics record is rejected, before it checks
    for completion, so the job stays processing and the campaign stays as
    it was, while the fallback completes both. *)
Theorem fallback_and_queue_diverge :
  (exists sf sd jf jd,
      SampleMore.viaFallback EmailService.refuse EmailService.refuse defaults
      = Some (Normal [ {| sub_jobId := 1; queueJobId := None; sub_batchNumber := 1 |} ], sf)
      /\ SampleMore.viaQueue EmailService.refuse EmailService.refuse defaults
         = Some (Normal tt, sd)
      /\ queue sf = [] /\ queue sd = []
      /\ jobs sf !! 1%nat = Some jf /\ jobs sd !! 1%nat = Some jd
      /\ Job.status jf = Job.completed /\ Job.status jd = Job.completed
      /\ Job.progress jf = {| Progress.total := 2; Progress.sent := 0; Progress.failed := 2 |}
      /\ Job.progress jd = Job.progress jf
      /\ campaigns sd = campaigns sf
      /\ Job.errorLog jf
         ≡ₚ [ {| ErrorLog.email := "ann@example.org"; ErrorLog.error := "connect ECONNREFUSED";
                 ErrorLog.retryCount := 0; ErrorLog.resolved := false |};
              {| ErrorLog.email := "bob@example.org"; ErrorLog.error := "connect ECONNREFUSED";
                 ErrorLog.retryCount := 0; ErrorLog.resolved := false |} ]
      /\ failedEmails jf = Job.errorLog jf
      /\ Job.errorLog jd = []
      /\ failedJobs (jobs sd) = []
      /\ exists so jo,
           SampleMore.viaQueueOverlapping EmailService.refuse EmailService.refuse defaults
           = Some (Normal tt, so)
           /\ queue so = []
           /\ jobs so !! 1%nat = Some jo
           /\ Job.status jo = Job.completed
           /\ Job.progress jo = Job.progress jf
           /\ Job.errorLog jo = []
           /\ Campaign.stats <$> campaigns sf !! 7%nat
              = Some {| Progress.total := 2; Progress.sent := 0; Progress.failed := 2 |}
           /\ Campaign.stats <$> campaigns so !! 7%nat
              = Some {| Progress.total := 2; Progress.sent := 0; Progress.failed := 4 |})
  /\ (exists sf sd jf jd,
        SampleMore.viaFallback EmailService.refuse EmailService.refuse
          SampleMore.cachedProgress
        = Some (Normal [ {| sub_jobId := 1; queueJobId := None; sub_batchNumber := 1 |} ], sf)
        /\ SampleMore.viaQueue EmailService.refuse EmailService.refuse
             SampleMore.cachedProgress
           = Some (Normal tt, sd)
        /\ queue sf = [] /\ queue sd = []
        /\ jobs sf !! 1%nat = Some jf /\ jobs sd !! 1%nat = Some jd
        /\ Job.status jf = Job.completed
        /\ Job.progress jf
           = {| Progress.total := 2; Progress.sent := 0; Progress.failed := 2 |}
        /\ Campaign.status <$> campaigns sf !! 7%nat = Some Campaign.completed
        /\ Campaign.stats <$> campaigns sf !! 7%nat
           = Some {| Progress.total := 2; Progress.sent := 0; Progress.failed := 2 |}
        /\ Job.status jd = Job.processing
        /\ Job.progress jd
           = {| Progress.total := 2; Progress.sent := 0; Progress.failed := 0 |}
        /\ progressCache sd !! 1%nat
           = Some {| Progress.total := 2; Progress.sent := 0; Progress.failed := 2 |}
        /\ campaigns sd = campaigns (Sample.planned []))
  /\ (exists sf sd jf jd,
        SampleMore.viaFallback (EmailService.flaky 0) EmailService.refuse defaults
        = Some (Normal [ {| sub_jobId := 1; queueJobId := None; sub_batchNumber := 1 |} ], sf)
        /\ SampleMore.viaQueue (EmailService.flaky 0) EmailService.refuse defaults
           = Some (Normal tt, sd)
        /\ queue sf = [] /\ queue sd = []
        /\ jobs sf !! 1%nat = Some jf /\ jobs sd !! 1%nat = Some jd
        /\ Job.status jf = Job.completed
        /\ Job.progress jf
           = {| Progress.total := 2; Progress.sent := 2; Progress.failed := 0 |}
        /\ Campaign.status <$> campaigns sf !! 7%nat = Some Campaign.completed
        /\ Campaign.stats <$> campaigns sf !! 7%nat
           = Some {| Progress.total := 2; Progress.sent := 2; Progress.failed := 0 |}
        /\ Job.status jd = Job.processing
        /\ Job.progress jd = Job.progress jf
        /\ campaigns sd = campaigns (Sample.planned [])).
Proof.
  split; [|split]; eexists _, _, _, _;
    (split; [vm_compute; reflexivity|]); (split; [vm_compute; reflexivity|]);
    (split; [reflexivity|]); (split; [reflexivity|]);
    (split; [vm_compute; reflexivity|]); (split; [vm_compute; reflexivity|]);
    [|repeat split..].
  do 9 (split; [reflexivity|]).
  eexists _, _. split; [vm_compute; reflexivity|]. split; [reflexivity|].
  split; [vm_compute; reflexivity|]. repeat split.
Qed.

(** Both paths on the sample batch, with smtp reachable from the fourth
    transport call on: the first recipient fails, the second is sent. *)
Example both_paths_sample :
  exists s' sd j,
    processBatches EmailService.refuse (EmailService.flaky 3)
      [EmailService.mailgun; EmailService.smtp] defaults 2 7 1 Sample.campaignData
      [Sample.batch1] (Sample.planned [true])
      = Some (Normal [ {| sub_jobId := 1; queueJobId := None; sub_batchNumber := 1 |} ], s')
    /\ (processBatches EmailService.refuse (EmailService.flaky 3)
          [EmailService.mailgun; EmailService.smtp] defaults 2 7 1 Sample.campaignData
          [Sample.batch1]
          ≫= fun _ => work EmailService.refuse (EmailService.flaky 3)
                           [EmailService.mailgun; EmailService.smtp] defaults 3 2)
         (Sample.planned [])
       = Some (Normal tt, sd)
    /\ jobs sd !! 1%nat = Some j
    /\ Job.status j = Job.completed
    /\ Job.progress j = {| Progress.total := 2; Progress.sent := 1; Progress.failed := 1 |}
    /\ Job.status <$> jobs s' !! 1%nat = Some Job.completed
    /\ Job.progress <$> jobs s' !! 1%nat = Some (Job.progress j)
    /\ campaigns s' = campaigns sd.
Proof.
  eexists _, _, _. split; [vm_compute; reflexivity|].
  split; [vm_compute; reflexivity|].
  split; [vm_compute; reflexivity|].
  repeat split.
Qed.

(** ** The progress counters when a send task is attempted twice *)

(** C8 (behaviour of the code): with two attempts per send task and a
    provider that refuses every message, the pipeline runs a batch of two
    recipients to its end with [progress.failed = 4] and
    [progress.total = 2]: the failure of a recipient is counted again each
    time its task is retried, so [sent + failed] exceeds [total]. *)
Theorem retried_task_counted_again :
  exists s' j',
    (processBatches EmailService.refuse EmailService.refuse [EmailService.mailgun]
       Sample.twoAttempts 2 7 1 Sample.campaignData [Sample.batch1]
       ≫= fun _ => work EmailService.refuse EmailService.refuse [EmailService.mailgun]
                        Sample.twoAttempts 8 2)
      (Sample.planned [])
      = Some (Normal tt, s')
    /\ queue s' = []
    /\ jobs s' !! 1%nat = Some j'
    /\ Job.progress j' = {| Progress.total := 2; Progress.sent := 0; Progress.failed := 4 |}
    /\ ~ (Progress.sent (Job.progress j') + Progress.failed (Job.progress j')
          <= Progress.total (Job.progress j')).
Proof.
  eexists _, _. split; [vm_compute; reflexivity|].
  split; [reflexivity|]. split; [vm_compute; reflexivity|].
  split; [reflexivity|]. cbn. lia.
Qed.

(** ** More about the email service *)

Section EmailServiceBounds.

Import EmailService.

Context {Net : Type}.
Variable sendWithMailgun : Provider -> EmailData -> Net -> (option Response + JsError) * Net.
Variable sendWithSMTP : Provider -> EmailData -> Net -> (option Response + JsError) * Net.

#[local] Abbreviation World := (@World Net).
#[local] Abbreviation tryProvider := (tryProvider sendWithMailgun sendWithSMTP).
#[local] Abbreviation sendEmail := (sendEmail sendWithMailgun sendWithSMTP).
#[local] Abbreviation fails := (fails sendWithMailgun sendWithSMTP).
#[local] Abbreviation RoundsFail := (RoundsFail sendWithMailgun sendWithSMTP).

(** A round logs at most one failure per provider and awaits nothing. *)
Lemma forProviders_bound ps d a le (w : World) c w' :
  forProviders tryProvider ps d a le w = (c, w') ->
  slept w' = slept w
  /\ exists l, log w' = log w ++ l /\ (length (failures l) <= length ps)%nat.
Proof.
  revert le w. induction ps as [|p ps IH]; intros le w H.
  - injection H as <- <-. split; [reflexivity|]. exists []. by rewrite app_nil_r.
  - rewrite forProviders_cons in H.
    destruct (tryProvider p d a w) as [[res|e] w1] eqn:E;
      destruct (tryProvider_effects sendWithMailgun sendWithSMTP _ _ _ _ _ _ E)
        as (Hs1 & l1 & Hl1 & Hf1).
    + injection H as <- <-. split; [exact Hs1|]. exists l1. split; [exact Hl1|].
      rewrite Hf1. cbn. lia.
    + destruct (IH _ _ H) as (Hs & l & Hl & Hlen). split; [by rewrite Hs|].
      exists (l1 ++ FailedVia (name p) (to d) (message e) (a + 1) :: l). split.
      * rewrite Hl. cbn. rewrite Hl1, <- !app_assoc. reflexivity.
      * rewrite failures_app, Hf1. cbn [app].
        change (failures (FailedVia (name p) (to d) (message e) (a + 1) :: l))
          with ((name p, (a + 1)%nat, message e) :: failures l).
        cbn [length]. lia.
Qed.

Lemma forAttempts_bound ps d n k a le (w : World) c w' :
  (a + k = n)%nat ->
  forAttempts tryProvider k a n ps d le w = (c, w') ->
  exists l j,
    log w' = log w ++ l
    /\ (length (failures l) <= k * length ps)%nat
    /\ (j <= k - 1)%nat
    /\ slept w' = slept w ++ map (fun r => 1000 * Z.of_nat r) (seq (a + 1) j).
Proof.
  revert a le w. induction k as [|k IH]; intros a le w Hn H.
  - injection H as <- <-. exists [AllFailed (to d) (e ← le; message e)], 0%nat.
    cbn. rewrite app_nil_r. repeat split; lia.
  - rewrite forAttempts_S in H.
    destruct (forProviders tryProvider ps d a le w) as [[[res|le']|e] w1] eqn:E;
      destruct (forProviders_bound _ _ _ _ _ _ _ E) as (Hs1 & l1 & Hl1 & Hlen1).
    + injection H as <- <-. exists l1, 0%nat. cbn [seq map].
      rewrite app_nil_r. repeat split; [exact Hl1 | lia | lia | exact Hs1].
    + destruct (IH (a + 1)%nat le' _ ltac:(lia) H) as (l & j & Hl & Hlen & Hj & Hs).
      unfold afterRound in Hl, Hs.
      destruct (Nat.ltb_spec a (n - 1)) as [Hlt|Hge]; cbn in Hl, Hs.
      * exists (l1 ++ l), (S j). repeat split.
        -- rewrite Hl, Hl1, <- app_assoc. reflexivity.
        -- rewrite failures_app, length_app. lia.
        -- lia.
        -- rewrite Hs, Hs1, <- app_assoc. cbn [seq map app].
           replace (S (a + 1)) with (a + 1 + 1)%nat by lia.
           do 3 f_equal. lia.
      * assert (j = 0%nat) as -> by lia.
        exists (l1 ++ l), 0%nat. repeat split.
        -- rewrite Hl, Hl1, <- app_assoc. reflexivity.
        -- rewrite failures_app, length_app. lia.
        -- lia.
        -- rewrite Hs, Hs1. reflexivity.
    + injection H as <- <-. exists l1, 0%nat. cbn [seq map].
      rewrite app_nil_r. repeat split; [exact Hl1 | lia | lia | exact Hs1].
Qed.

(** X1: whatever the transports do, a call of [sendEmail] returns after at
    most maxRetries x (number of providers) failed attempts, and the
    delays it awaits are 1000 ms, 2000 ms, ... with at most
    maxRetries - 1 of them. *)
Theorem sendEmail_bounded (providers : list Provider) (emailData : EmailData)
    (maxRetries : nat) (w : World) :
  exists res w' new j,
    sendEmail providers emailData maxRetries w = (Normal res, w')
    /\ log w' = log w ++ new
    /\ (length (failures new) <= maxRetries * length providers)%nat
    /\ (j <= maxRetries - 1)%nat
    /\ slept w' = slept w ++ map (fun r => 1000 * Z.of_nat r) (seq 1 j).
Proof.
  destruct (sendEmail_returns sendWithMailgun sendWithSMTP providers emailData maxRetries w)
    as (res & w' & Hrun & _).
  destruct (forAttempts_bound providers emailData maxRetries maxRetries 0 None w _ _
              eq_refl Hrun) as (l & j & Hl & Hlen & Hj & Hs).
  exists res, w', l, j. auto.
Qed.

Lemma naps_full a k n :
  (a + k = n)%nat ->
  naps a k n = map (fun r => 1000 * Z.of_nat r) (seq (a + 1) (k - 1)).
Proof.
  intros Hn. destruct k as [|k]; [reflexivity|].
  replace (S k - 1)%nat with k by lia.
  rewrite <- (naps_all a k n) by lia.
  unfold naps. rewrite seq_S, filter_app, map_app.
  rewrite filter_cons, decide_False by lia. cbn. by rewrite app_nil_r.
Qed.

(** X2: when every provider fails, [sendEmail] with any number of rounds
    tries each provider once per round, in order, awaits 1000 ms after the
    first round, 2000 ms after the second, and so on, with no delay after
    the last round, and returns a failure whose [attempts] is the number
    of rounds and whose [error] is the message logged last (or 'Unknown
    error'). *)
Theorem sendEmail_backoff (providers : list Provider) (emailData : EmailData)
    (maxRetries : nat) (w : World) :
  (forall p, p ∈ providers -> fails p emailData) ->
  exists w' new last_message,
    sendEmail providers emailData maxRetries w
      = (Normal (Failure (or_default last_message "Unknown error") maxRetries), w')
    /\ log w' = log w ++ new ++ [AllFailed (to emailData) last_message]
    /\ (failures new).*1
       = flat_map (fun r => map (fun p => (name p, r)) providers) (seq 1 maxRetries)
    /\ slept w' = slept w ++ map (fun r => 1000 * Z.of_nat r) (seq 1 (maxRetries - 1)).
Proof.
  intros Hall.
  destruct (RoundsFail_of_fails sendWithMailgun sendWithSMTP providers emailData maxRetries
              Hall maxRetries 0%nat w) as (w1 & Hrounds).
  destruct (RoundsFail_run sendWithMailgun sendWithSMTP _ _ _ _ _ _ _ Hrounds 0%nat None)
    as (le' & new & Hrun & Hlog & Hf & Hs & _).
  rewrite Nat.add_0_r in Hrun.
  eexists _, new, _. split; [|split; [|split]].
  - unfold EmailService.sendEmail, sendEmailWith. rewrite Hrun. cbn [forAttempts].
    unfold mbind, Eff_bind, logger, mret, Eff_ret. reflexivity.
  - cbn. rewrite Hlog, <- app_assoc. reflexivity.
  - exact Hf.
  - cbn. rewrite Hs, naps_full by lia. reflexivity.
Qed.

(** A provider entry named 'sendgrid' has no transport behind it. *)
Lemma tryProvider_sendgrid p d a (w : World) :
  name p = "sendgrid" ->
  tryProvider p d a w = (Throw (Error "SendGrid not yet implemented"), w).
Proof.
  intros Hp. unfold EmailService.tryProvider. rewrite Hp. reflexivity.
Qed.

Lemma forProviders_sendgrid ps d a le (w : World) :
  Forall (fun p => name p = "sendgrid") ps ->
  exists w',
    forProviders tryProvider ps d a le w
      = (Normal (inr (match ps with
                      | [] => le
                      | _ => Some (Error "SendGrid not yet implemented")
                      end)), w')
    /\ net w' = net w.
Proof.
  intros Hall. revert le w. induction Hall as [|p ps Hp _ IH]; intros le w.
  - exists w. split; reflexivity.
  - rewrite forProviders_cons, tryProvider_sendgrid by exact Hp.
    destruct (IH (Some (Error "SendGrid not yet implemented"))
                 (caught p d a (Error "SendGrid not yet implemented") w)) as (w' & Hrun & Hnet).
    exists w'. split; [|exact Hnet]. rewrite Hrun. by destruct ps.
Qed.

Lemma forAttempts_sendgrid ps d n k a le (w : World) :
  Forall (fun p => name p = "sendgrid") ps -> ps <> [] ->
  exists w',
    forAttempts tryProvider k a n ps d le w
      = (Normal (Failure (or_default (e ← (match k with
                                           | O => le
                                           | _ => Some (Error "SendGrid not yet implemented")
                                           end); message e) "Unknown error") n), w')
    /\ net w' = net w.
Proof.
  intros Hall Hne. revert a le w. induction k as [|k IH]; intros a le w.
  - eexists. split; reflexivity.
  - rewrite forAttempts_S.
    destruct (forProviders_sendgrid ps d a le w Hall) as (w1 & -> & Hnet1).
    destruct ps as [|p ps]; [done|].
    destruct (IH (a + 1)%nat (Some (Error "SendGrid not yet implemented"))
                 (afterRound a n w1)) as (w' & -> & Hnet).
    exists w'. split; [by destruct k|].
    rewrite Hnet. unfold afterRound. by destruct (a <? n - 1)%nat.
Qed.

(** X3: a service whose only providers are 'sendgrid' entries (only
    SENDGRID_API_KEY is configured) fails every send with the error
    'SendGrid not yet implemented' and never touches the network. *)
Theorem sendgrid_never_sends (providers : list Provider) (emailData : EmailData)
    (maxRetries : nat) (w : World) :
  Forall (fun p => name p = "sendgrid") providers ->
  providers <> [] ->
  (0 < maxRetries)%nat ->
  exists w',
    sendEmail providers emailData maxRetries w
      = (Normal (Failure "SendGrid not yet implemented" maxRetries), w')
    /\ net w' = net w.
Proof.
  intros Hall Hne Hn.
  destruct (forAttempts_sendgrid providers emailData maxRetries maxRetries 0 None w Hall Hne)
    as (w' & Hrun & Hnet).
  exists w'. split; [|exact Hnet].
  unfold EmailService.sendEmail, sendEmailWith. rewrite Hrun.
  destruct maxRetries; [lia | reflexivity].
Qed.

End EmailServiceBounds.

(** ** The provider list *)

Section ProviderList.

Import EmailService EmailServiceMore.

Lemma getNextProviders_from (ps : list Provider) :
  ps <> [] ->
  forall k idx,
    getNextProviders k ps idx
    = Normal (map (fun i => ps !! (if i is O then idx else (idx + i) mod length ps)%nat)
                  (seq 0 k),
              if k is O then idx else ((idx + k) mod length ps)%nat).
Proof.
  intros Hne. assert (Hlen : (length ps =? 0)%nat = false).
  { destruct ps; [done | reflexivity]. }
  assert (Hpos : (0 < length ps)%nat) by (destruct ps; [done | cbn; lia]).
  induction k as [|k IH]; intros idx; [reflexivity|].
  cbn [getNextProviders]. unfold getNextProvider. rewrite Hlen, IH.
  f_equal. f_equal.
  - cbn [seq map]. f_equal. rewrite <- seq_shift, map_map.
    apply map_ext_in. intros i _.
    destruct i as [|i].
    + by rewrite Nat.add_1_r.
    + f_equal. rewrite Nat.Div0.add_mod_idemp_l. f_equal. lia.
  - destruct k as [|k]; [reflexivity|].
    rewrite Nat.Div0.add_mod_idemp_l. f_equal. lia.
Qed.

(** X4: with at least one provider configured and the index inside the
    list, [getNextProvider] hands out the providers round-robin: the
    [i]-th call returns the provider at position (index + i) modulo the
    number of providers, never [undefined], and after as many calls as
    there are providers the index is back where it started. *)
Theorem getNextProvider_round_robin (providers : list Provider) (index k : nat) :
  (index < length providers)%nat ->
  exists handed final,
    getNextProviders k providers index = Normal (handed, final)
    /\ length handed = k
    /\ (forall i, (i < k)%nat ->
          exists p, handed !! i = Some (Some p)
                    /\ providers !! ((index + i) mod length providers)%nat = Some p)
    /\ (final < length providers)%nat
    /\ (k = length providers -> final = index).
Proof.
  intros Hidx. assert (Hne : providers <> []) by (destruct providers; [cbn in Hidx; lia | done]).
  rewrite (getNextProviders_from providers Hne).
  eexists _, _. split; [reflexivity|]. split; [|split; [|split]].
  - by rewrite length_map, length_seq.
  - intros i Hi.
    assert (Hlt : ((index + i) mod length providers < length providers)%nat)
      by (apply Nat.mod_upper_bound; lia).
    destruct (lookup_lt_is_Some_2 _ _ Hlt) as [p Hp].
    exists p. split; [|exact Hp].
    rewrite list_lookup_fmap, lookup_seq_lt by exact Hi. cbn.
    destruct i as [|i]; [|by rewrite Hp].
    rewrite Nat.add_0_r, Nat.mod_small in Hp by exact Hidx. by rewrite Hp.
  - destruct k; [exact Hidx|]. apply Nat.mod_upper_bound. lia.
  - intros ->. destruct (length providers) as [|n] eqn:E; [reflexivity|].
    rewrite <- E. replace (index + length providers)%nat
      with (index + 1 * length providers)%nat by lia.
    rewrite Nat.Div0.mod_add. apply Nat.mod_small. lia.
Qed.

(** X5: the provider list [initializeProviders] leaves behind is in
    strictly ascending priority with pairwise distinct names, whatever
    credentials are configured, so the final [sort] changes nothing, and
    it is empty exactly when no credentials are configured. *)
Theorem initializeProviders_order (env : Env) :
  sortByPriority (initializeProviders env) = initializeProviders env
  /\ StronglySorted (fun p q => (priority p < priority q)%nat) (initializeProviders env)
  /\ NoDup (map name (initializeProviders env))
  /\ (initializeProviders env = []
      <-> MAILGUN env = false /\ MAILGUN_BACKUP env = false
          /\ SENDGRID_API_KEY env = false /\ SMTP env = false).
Proof.
  split_and!.
  - by destruct env as [[] [] [] []].
  - destruct env as [[] [] [] []]; cbn;
      repeat first [apply SSorted_nil | apply SSorted_cons | apply Forall_nil_2
                   | apply Forall_cons_2]; cbn; lia.
  - destruct env as [[] [] [] []]; apply (bool_decide_unpack _); vm_compute; exact I.
  - destruct env as [[] [] [] []]; cbn; split; try discriminate; try done;
      intros (? & ? & ? & ?); discriminate.
Qed.

(** X6: for a message of the send pipeline (built by the batch worker,
    the synchronous executor or the retry service from a campaign with a
    sender address), both transports set Reply-To to the campaign's
    reply-to address, or to the sender address when there is none; the
    [|| emailData.from] fallback of the transports is never taken. *)
Theorem pipeline_replyTo (fromName fromEmail subject body bodyHtml replyTo to_ : string)
    (attachments : list Attachment) :
  fromEmail <> "" ->
  let emailData := emailDataFor fromName fromEmail subject body bodyHtml replyTo attachments to_ in
  h_Reply_To (mailgunData emailData) = or_string replyTo fromEmail
  /\ mo_replyTo (mailOptions emailData) = or_string replyTo fromEmail
  /\ h_Reply_To (mailgunData emailData) <> ""
  /\ mg_to (mailgunData emailData) = to_ /\ mo_to (mailOptions emailData) = to_.
Proof.
  intros Hfrom emailData. unfold mailgunData, mailOptions, emailData, emailDataFor. cbn.
  assert (Hne : or_string replyTo fromEmail <> "").
  { unfold or_string. destruct (String.eqb_spec replyTo ""); [exact Hfrom | assumption]. }
  assert (H : or_string (or_string replyTo fromEmail) (fromName ++ " <" ++ fromEmail ++ ">")
              = or_string replyTo fromEmail).
  { unfold or_string at 1. by destruct (String.eqb_spec (or_string replyTo fromEmail) ""). }
  rewrite H. auto.
Qed.

End ProviderList.

(** ** What a success carries *)

Section EmailServiceResults.

Import EmailService.

Context {Net : Type}.
Variable sendWithMailgun : Provider -> EmailData -> Net -> (option Response + JsError) * Net.
Variable sendWithSMTP : Provider -> EmailData -> Net -> (option Response + JsError) * Net.

#[local] Abbreviation World := (@World Net).
#[local] Abbreviation Eff := (@Eff Net).
#[local] Abbreviation tryProvider := (tryProvider sendWithMailgun sendWithSMTP).
#[local] Abbreviation sendEmail := (sendEmail sendWithMailgun sendWithSMTP).

(** A result returned by the provider loop was returned by a [try] block. *)
Lemma forProviders_success_from (tb : Provider -> EmailData -> nat -> Eff SendResult)
    ps d a le (w : World) res w' :
  forProviders tb ps d a le w = (Normal (inl res), w') ->
  exists p w0, p ∈ ps /\ tb p d a w0 = (Normal res, w').
Proof.
  revert le w. induction ps as [|p ps IH]; intros le w H; [discriminate|].
  rewrite forProviders_cons in H.
  destruct (tb p d a w) as [[res0|e] w1] eqn:E.
  - injection H as <- <-. exists p, w. split; [left | exact E].
  - destruct (IH _ _ H) as (q & w0 & Hq & Hrun). exists q, w0. split; [by right | exact Hrun].
Qed.

Lemma forAttempts_success_from (tb : Provider -> EmailData -> nat -> Eff SendResult)
    k a n ps d le (w : World) q m r w' :
  forAttempts tb k a n ps d le w = (Normal (Success q m r), w') ->
  exists p a' w0, p ∈ ps /\ tb p d a' w0 = (Normal (Success q m r), w').
Proof.
  revert a le w. induction k as [|k IH]; intros a le w H; [discriminate|].
  rewrite forAttempts_S in H.
  destruct (forProviders tb ps d a le w) as [[[res|le']|e] w1] eqn:E; [| |discriminate].
  - injection H as -> ->.
    destruct (forProviders_success_from _ _ _ _ _ _ _ _ E) as (p & w0 & Hp & Hrun).
    exists p, a, w0. auto.
  - exact (IH _ _ _ H).
Qed.

Lemma or_default_nonempty (v : option string) (dflt : string) :
  dflt <> "" -> or_default v dflt <> "".
Proof.
  intros Hd. unfold or_default, js_or, truthy.
  destruct v as [s|]; [|exact Hd].
  destruct (String.eqb_spec s ""); cbn; assumption.
Qed.

(** X7: a success returned by [sendEmail] names one of the configured
    providers of kind 'mailgun', 'mailgun-backup' or 'smtp', carries the
    response that provider's transport resolved with, and its message id
    is the response's [id], else its [message], else 'unknown'; it is
    never the empty string.  The 'sent successfully' line is the last
    thing logged. *)
Theorem sendEmail_success_shape (providers : list Provider) (emailData : EmailData)
    (maxRetries : nat) (w w' : World) (provider messageId : string)
    (result : option Response) :
  sendEmail providers emailData maxRetries w
    = (Normal (Success provider messageId result), w') ->
  exists p response,
    p ∈ providers /\ provider = name p
    /\ provider ∈ ["mailgun"; "mailgun-backup"; "smtp"]
    /\ result = Some response
    /\ messageId = or_default (js_or (id response) (resp_message response)) "unknown"
    /\ messageId <> ""
    /\ exists attempt, last (log w') = Some (SentVia provider (to emailData) attempt).
Proof.
  intros H. apply forAttempts_success_from in H as (p & a & w0 & Hp & H).
  exists p. revert H.
  unfold EmailService.tryProvider, mbind, Eff_bind, await, throw, mret, Eff_ret, logger.
  intros H.
  repeat match type of H with
  | context [if ?b then _ else _] => destruct b eqn:?
  | context [match ?c (net w0) with _ => _ end] => destruct (c (net w0)) as [[[r|]|e] n]
  end; cbn in H; try discriminate; injection H as <- <- <- <-;
  exists r; (split; [exact Hp|]); (split; [reflexivity|]).
  - split; [|split; [reflexivity|split; [reflexivity|split]]].
    + match goal with Hb : (_ || _)%bool = true |- _ => apply orb_true_iff in Hb as [Hb|Hb];
        apply String.eqb_eq in Hb; rewrite Hb end; set_solver.
    + by apply or_default_nonempty.
    + eexists. cbn. by rewrite last_snoc.
  - split; [|split; [reflexivity|split; [reflexivity|split]]].
    + match goal with Hb : String.eqb _ "smtp" = true |- _ =>
        apply String.eqb_eq in Hb; rewrite Hb end. set_solver.
    + by apply or_default_nonempty.
    + eexists. cbn. by rewrite last_snoc.
Qed.

End EmailServiceResults.

(** *** The statements at sample inputs *)

Section EmailServiceMoreSamples.

Import EmailService EmailServiceMore.

Lemma sendEmail_backoff_sample :
  exists w' new last_message,
    sendEmail refuse refuse [mailgun; smtp] newsletter 4 quiet
      = (Normal (Failure (or_default last_message "Unknown error") 4), w')
    /\ log w' = log quiet ++ new ++ [AllFailed (to newsletter) last_message]
    /\ (failures new).*1
       = flat_map (fun r => map (fun p => (name p, r)) [mailgun; smtp]) (seq 1 4)
    /\ slept w' = slept quiet ++ map (fun r => 1000 * Z.of_nat r) (seq 1 (4 - 1)).
Proof.
  apply (sendEmail_backoff refuse refuse [mailgun; smtp] newsletter 4 quiet).
  intros p Hp attempt w.
  apply elem_of_cons in Hp as [->|Hp]; [eexists _, _; reflexivity|].
  apply elem_of_cons in Hp as [->|Hp]; [eexists _, _; reflexivity|].
  by apply elem_of_nil in Hp.
Defined.

Lemma sendgrid_never_sends_sample :
  exists w',
    sendEmail (flaky 0) (flaky 0)
      (initializeProviders {| MAILGUN := false; MAILGUN_BACKUP := false;
                              SENDGRID_API_KEY := true; SMTP := false |})
      newsletter 3 quiet
      = (Normal (Failure "SendGrid not yet implemented" 3), w')
    /\ net w' = net quiet.
Proof.
  apply (sendgrid_never_sends (flaky 0) (flaky 0)).
  - repeat constructor.
  - discriminate.
  - lia.
Defined.

Lemma getNextProvider_round_robin_sample :
  exists handed final,
    getNextProviders 3 [mailgun; sendgrid; smtp] 1 = Normal (handed, final)
    /\ length handed = 3%nat
    /\ (forall i, (i < 3)%nat ->
          exists p, handed !! i = Some (Some p)
                    /\ [mailgun; sendgrid; smtp]
                         !! ((1 + i) mod length [mailgun; sendgrid; smtp])%nat = Some p)
    /\ (final < length [mailgun; sendgrid; smtp])%nat
    /\ (3%nat = length [mailgun; sendgrid; smtp] -> final = 1%nat).
Proof.
  apply (getNextProvider_round_robin [mailgun; sendgrid; smtp] 1 3). cbn. lia.
Defined.

Lemma pipeline_replyTo_sample :
  let emailData := emailDataOf Sample.campaignData "ann@example.org" in
  h_Reply_To (mailgunData emailData) = or_string "news@example.org" "news@example.org"
  /\ mo_replyTo (mailOptions emailData) = or_string "news@example.org" "news@example.org"
  /\ h_Reply_To (mailgunData emailData) <> ""
  /\ mg_to (mailgunData emailData) = "ann@example.org"
  /\ mo_to (mailOptions emailData) = "ann@example.org".
Proof.
  apply (pipeline_replyTo "News" "news@example.org" "Hello" "Hi there" "Hi there"
           "news@example.org" "ann@example.org" []).
  discriminate.
Defined.

Lemma sendEmail_success_shape_sample :
  exists p response,
    p ∈ [mailgun; smtp] /\ "smtp" = name p
    /\ "smtp" ∈ ["mailgun"; "mailgun-backup"; "smtp"]
    /\ Some accepted = Some response
    /\ "<20240101.1@mg.example.org>"
       = or_default (js_or (id response) (resp_message response)) "unknown"
    /\ "<20240101.1@mg.example.org>" <> ""
    /\ exists attempt,
         last (log (mkWorld 2%nat [FailedVia "mailgun" "ann@example.org"
                                     (Some "connect ECONNREFUSED") 1;
                                   SentVia "smtp" "ann@example.org" 1] []))
         = Some (SentVia "smtp" (to newsletter) attempt).
Proof.
  apply (sendEmail_success_shape refuse (flaky 0) [mailgun; smtp] newsletter 3 quiet).
  reflexivity.
Defined.

End EmailServiceMoreSamples.

(** ** More about batch planning *)

Section BatchPlanningMore.

Context {Net : Type}.
Variable cfg : Config.

#[local] Abbreviation B := (MAX_EMAILS_PER_BATCH cfg).

(** X8: when no contact matches the filters, [createBatches] throws 'No
    contacts found matching the filters' and stores nothing. *)
Theorem createBatches_no_contacts (fuel campaignId userId : nat)
    (contactFilters : ContactFilters) (s : State Net) :
  List.filter (matchesQuery userId contactFilters) (contacts s) = [] ->
  createBatches cfg fuel campaignId userId contactFilters s
  = Some (Throw (Error "No contacts found matching the filters"), s).
Proof.
  intros Hnone. unfold createBatches. proc. rewrite Hnone. reflexivity.
Qed.

(** X9: with MAX_EMAILS_PER_BATCH=0 and at least one matching contact,
    [createBatches] throws on the first iteration of its loop: the batch
    number [Math.floor(0 / 0) + 1] is [NaN], which [Job.create] rejects.
    No job is stored and nothing else has changed. *)
Theorem createBatches_zero_batch_size (fuel campaignId userId : nat)
    (contactFilters : ContactFilters) (s : State Net) :
  B = 0%nat ->
  List.filter (matchesQuery userId contactFilters) (contacts s) <> [] ->
  (0 < fuel)%nat ->
  createBatches cfg fuel campaignId userId contactFilters s
  = Some (Throw (Error "Job validation failed: batchNumber"), s).
Proof.
  intros HB Hsome Hfuel. unfold createBatches. proc.
  destruct (List.filter _ _) as [|c found] eqn:E; [done|].
  cbn [length Nat.eqb]. destruct fuel as [|fuel]; [lia|].
  cbn [forChunks Nat.ltb Nat.leb]. unfold createBatch. rewrite HB.
  reflexivity.
Qed.

Lemma elem_of_slice {A} (x : A) i j l : x ∈ slice i j l -> x ∈ l.
Proof.
  unfold slice. intros H. apply elem_of_take in H as (k & Hk & _).
  rewrite lookup_drop in Hk. by eapply list_elem_of_lookup_2.
Qed.

(** The loop of [createBatches], whenever it returns. *)
Lemma createBatches_loop_frame (campaignId userId : nat) (found : list Contact.t) :
  forall fuel i acc (s : State Net) out s',
    forChunks fuel i B (length found) (createBatch cfg campaignId userId found) acc s
      = Some (Normal out, s') ->
    exists bs,
      out = acc ++ bs
      /\ sameButJobs s s'
      /\ NoDup (map Batch.jobId bs)
      /\ (forall b, b ∈ bs ->
            jobs s !! Batch.jobId b = None
            /\ jobs s' !! Batch.jobId b
               = Some (newJob campaignId userId (Batch.batchNumber b) (Batch.contacts b))
            /\ forall r, r ∈ Batch.contacts b -> r ∈ map toRecipient found)
      /\ (forall id j, jobs s !! id = Some j -> jobs s' !! id = Some j)
      /\ (forall id, is_Some (jobs s' !! id) ->
            is_Some (jobs s !! id) \/ id ∈ map Batch.jobId bs).
Proof.
  induction fuel as [|fuel IH]; intros i acc s out s' H.
  - cbn [forChunks] in H. destruct (i <? length found)%nat; [discriminate|].
    injection H as <- <-. exists []. rewrite app_nil_r.
    split; [reflexivity|]. split; [by repeat split|]. split; [constructor|].
    split; [intros b Hb; by apply elem_of_nil in Hb|]. split; [done | by left].
  - cbn [forChunks] in H. destruct (i <? length found)%nat.
    + unfold mbind at 1 in H. unfold Proc_bind in H.
      unfold createBatch at 1 in H.
      destruct (B =? 0)%nat; [discriminate H|].
      unfold mbind, Proc_bind, Job_create, Job.create, mret, Proc_ret in H.
      set (cs := map toRecipient (slice i (i + B) found)) in H.
      set (s1 := with_jobs _ s) in H.
      set (b0 := {| Batch.jobId := _ |}) in H.
      destruct (IH _ _ _ _ _ H) as (bs & -> & Hsame & Hnd & Hnew & Hkeep & Hdom).
      assert (Hfresh : jobs s !! fresh (dom (jobs s)) = None).
      { apply not_elem_of_dom, is_fresh. }
      assert (H0 : jobs s1 !! Batch.jobId b0
                   = Some (newJob campaignId userId (Batch.batchNumber b0) cs)).
      { subst s1 b0. cbn. apply lookup_insert_eq. }
      exists (b0 :: bs). rewrite <- app_assoc. split; [reflexivity|].
      split; [exact Hsame|]. split; [|split; [|split]].
      * cbn [map]. apply NoDup_cons. split; [|exact Hnd].
        intros Hin. apply list_elem_of_fmap in Hin as (b & Hid & Hb).
        destruct (Hnew b Hb) as (Hnone & _). rewrite <- Hid in Hnone. congruence.
      * intros b Hb. apply elem_of_cons in Hb as [->|Hb].
        -- split; [exact Hfresh|]. split; [apply Hkeep, H0|].
           intros r Hr. subst b0 cs. cbn in Hr.
           apply list_elem_of_fmap in Hr as (c & -> & Hc).
           apply list_elem_of_fmap. exists c. split; [reflexivity|].
           by eapply elem_of_slice.
        -- destruct (Hnew b Hb) as (Hnone & Hjob & Hrs). split; [|by split].
           subst s1. cbn in Hnone.
           destruct (decide (Batch.jobId b = fresh (dom (jobs s)))) as [E|E].
           ++ by rewrite E, lookup_insert_eq in Hnone.
           ++ by rewrite lookup_insert_ne in Hnone.
      * intros id j Hj. apply Hkeep. subst s1. cbn.
        rewrite lookup_insert_ne; [exact Hj|]. intros <-. congruence.
      * intros id Hid. destruct (Hdom id Hid) as [Hold|Hin].
        -- subst s1. cbn in Hold.
           destruct (decide (id = fresh (dom (jobs s)))) as [->|E].
           ++ right. left.
           ++ left. by rewrite lookup_insert_ne in Hold.
        -- right. by right.
    + injection H as <- <-. exists []. rewrite app_nil_r.
      split; [reflexivity|]. split; [by repeat split|]. split; [constructor|].
      split; [intros b Hb; by apply elem_of_nil in Hb|]. split; [done | by left].
Qed.

Lemma matchesQuery_selected user contactFilters c :
  matchesQuery user contactFilters c = true -> selected user contactFilters c.
Proof.
  unfold matchesQuery, selected. intros H.
  apply andb_true_iff in H as [H Htags]. apply andb_true_iff in H as [Huser Hstatus].
  apply Nat.eqb_eq in Huser. split; [exact Huser|].
  split; [|split].
  - intros E. rewrite E in Hstatus. by apply String.eqb_eq.
  - intros Hne. destruct (filter_status contactFilters) as [|st sts] eqn:E; [done|].
    apply existsb_exists in Hstatus as (x & Hx & Heq).
    apply String.eqb_eq in Heq. rewrite Heq. by apply list_elem_of_In.
  - intros Hne. destruct (filter_tags contactFilters) as [|tg tgs] eqn:E; [done|].
    apply existsb_exists in Htags as (t & Ht & Hin).
    apply existsb_exists in Hin as (x & Hx & Heq). apply String.eqb_eq in Heq.
    exists t. split; [by apply list_elem_of_In|]. rewrite Heq. by apply list_elem_of_In.
Qed.

(** X10: every recipient of a batch [createBatches] returns is a contact
    of the user making the call that the filters select: without a status
    filter only 'active' contacts, with one the contacts in one of the
    listed states (the restriction to 'active' no longer applies), and
    with a tag filter only contacts carrying one of the tags. *)
Theorem createBatches_recipients (fuel campaignId userId : nat)
    (contactFilters : ContactFilters) (s s' : State Net) (plan : Plan) :
  createBatches cfg fuel campaignId userId contactFilters s = Some (Normal plan, s') ->
  forall b r, b ∈ batches plan -> r ∈ Batch.contacts b ->
    exists c, c ∈ contacts s /\ r = toRecipient c /\ selected userId contactFilters c.
Proof.
  unfold createBatches. proc.
  set (found := List.filter (matchesQuery userId contactFilters) (contacts s)).
  destruct (length found =? 0)%nat; [discriminate|].
  destruct (forChunks _ _ _ _ _ _ _) as [[[bs|e] s1]|] eqn:E; try discriminate.
  intros [= <- <-] b r Hb Hr. cbn in Hb.
  apply createBatches_loop_frame in E as (bs' & -> & _ & _ & Hnew & _).
  destruct (Hnew b Hb) as (_ & _ & Hrs).
  apply Hrs, list_elem_of_fmap in Hr as (c & -> & Hc).
  apply list_elem_of_In, filter_In in Hc as [Hc Hm].
  exists c. split; [by apply list_elem_of_In|]. split; [reflexivity|].
  by apply matchesQuery_selected.
Qed.

(** What a call of [createBatches] that returns has changed. *)
Lemma createBatches_changes (fuel campaignId userId : nat)
    (contactFilters : ContactFilters) (s s' : State Net) (plan : Plan) :
  createBatches cfg fuel campaignId userId contactFilters s = Some (Normal plan, s') ->
  sameButJobs s s'
  /\ NoDup (map Batch.jobId (batches plan))
  /\ (forall b, b ∈ batches plan -> jobs s !! Batch.jobId b = None)
  /\ (forall id j, jobs s !! id = Some j -> jobs s' !! id = Some j)
  /\ dom (jobs s') = dom (jobs s) ∪ list_to_set (map Batch.jobId (batches plan)).
Proof.
  unfold createBatches. proc.
  set (found := List.filter (matchesQuery userId contactFilters) (contacts s)).
  destruct (length found =? 0)%nat; [discriminate|].
  destruct (forChunks _ _ _ _ _ _ _) as [[[bs|e] s1]|] eqn:E; try discriminate.
  intros [= <- <-]. cbn [batches].
  apply createBatches_loop_frame in E as (bs' & -> & Hsame & Hnd & Hnew & Hkeep & Hdom).
  cbn [app]. split; [exact Hsame|]. split; [exact Hnd|].
  split; [intros b Hb; by destruct (Hnew b Hb)|]. split; [exact Hkeep|].
  apply set_eq. intros id. rewrite elem_of_union, !elem_of_dom, elem_of_list_to_set. split.
  - apply Hdom.
  - intros [[j Hj]|Hin]; [eexists; by apply Hkeep|].
    apply list_elem_of_fmap in Hin as (b & -> & Hb).
    destruct (Hnew b Hb) as (_ & Hjob & _). by eexists.
Qed.

(** X11: a call of [createBatches] that returns has changed nothing but
    the job collection, to which it has added one document per batch:
    the job ids of the batches are new and pairwise distinct, every
    earlier job is still there unchanged, and there is no other new job. *)
Theorem createBatches_frame (fuel campaignId userId : nat)
    (contactFilters : ContactFilters) (s s' : State Net) (plan : Plan) :
  createBatches cfg fuel campaignId userId contactFilters s = Some (Normal plan, s') ->
  sameButJobs s s'
  /\ NoDup (map Batch.jobId (batches plan))
  /\ (forall b, b ∈ batches plan -> jobs s !! Batch.jobId b = None)
  /\ (forall id j, jobs s !! id = Some j -> jobs s' !! id = Some j)
  /\ dom (jobs s') = dom (jobs s) ∪ list_to_set (map Batch.jobId (batches plan)).
Proof. apply createBatches_changes. Qed.

End BatchPlanningMore.

(** ** Submitting batches *)

Section Submitting.

Context {Net : Type}.
Variable sendWithMailgun :
  EmailService.Provider -> EmailService.EmailData -> Net
  -> (option EmailService.Response + JsError) * Net.
Variable sendWithSMTP :
  EmailService.Provider -> EmailService.EmailData -> Net
  -> (option EmailService.Response + JsError) * Net.
Variable providers : list EmailService.Provider.
Variable cfg : Config.

#[local] Abbreviation processBatches :=
  (processBatches sendWithMailgun sendWithSMTP providers cfg).
#[local] Abbreviation processBatches_loop :=
  (processBatches_loop sendWithMailgun sendWithSMTP providers cfg).
#[local] Abbreviation sendSynchronously :=
  (sendSynchronously sendWithMailgun sendWithSMTP providers cfg).
#[local] Abbreviation processBatchSynchronously :=
  (processBatchSynchronously sendWithMailgun sendWithSMTP providers cfg).

(** An [add] made while Redis is reachable. *)
Lemma emailQueue_add_ok (data : Queue.Data) (opts : Queue.Opts) (s : State Net) :
  head (outages s) <> Some true ->
  emailQueue_add data opts s
  = Some (Normal (queued s),
          mkState (contacts s) (jobs s) (campaigns s) (analytics s) (progressCache s)
                  (queue s ++ [ {| Queue.id := queued s; Queue.data := data;
                                   Queue.opts := opts; Queue.attemptsMade := 0 |} ])
                  (S (queued s)) (tail (outages s)) (world s)).
Proof. unfold emailQueue_add. by destruct (head (outages s)) as [[]|]. Qed.

Lemma reachable_head (l : list bool) : true ∉ l -> head l <> Some true.
Proof. destruct l as [|[] l]; cbn; [done | | done]. intros H _. apply H. left. Qed.

Lemma reachable_tail (l : list bool) : true ∉ l -> true ∉ tail l.
Proof. destruct l as [|b l]; cbn; [done|]. intros H Hin. apply H. by right. Qed.

Lemma imap_submittedAs q b bs :
  imap (submittedAs q) (b :: bs) = submittedAs q 0 b :: imap (submittedAs (S q)) bs.
Proof.
  rewrite imap_cons. f_equal. apply imap_ext. intros i x _. unfold submittedAs.
  cbn. do 2 f_equal. lia.
Qed.

Lemma imap_batchTask campaignId userId campaignData q b bs :
  imap (batchTask campaignId userId campaignData q) (b :: bs)
  = batchTask campaignId userId campaignData q 0 b
    :: imap (batchTask campaignId userId campaignData (S q)) bs.
Proof.
  rewrite imap_cons. f_equal. apply imap_ext. intros i x _. unfold batchTask.
  cbn. f_equal. lia.
Qed.

Lemma processBatches_loop_up fuel campaignId userId campaignData :
  forall bs submitted (s : State Net),
    true ∉ outages s ->
    exists s',
      processBatches_loop fuel campaignId userId campaignData bs submitted s
        = Some (Normal (submitted ++ imap (submittedAs (queued s)) bs), s')
      /\ queue s' = queue s ++ imap (batchTask campaignId userId campaignData (queued s)) bs
      /\ queued s' = (queued s + length bs)%nat
      /\ (true ∉ outages s')
      /\ jobs s' = jobs s
      /\ contacts s' = contacts s /\ campaigns s' = campaigns s
      /\ analytics s' = analytics s /\ progressCache s' = progressCache s
      /\ world s' = world s.
Proof.
  induction bs as [|batch rest IH]; intros submitted s Hup.
  - exists s. cbn. rewrite !app_nil_r, Nat.add_0_r. repeat split; done.
  - cbn [processBatches_loop]. proc.
    rewrite emailQueue_add_ok by by apply reachable_head.
    set (s1 := mkState _ _ _ _ _ _ _ _ _).
    destruct (IH (submitted ++ [ {| sub_jobId := Batch.jobId batch;
                                    queueJobId := Some (queued s);
                                    sub_batchNumber := Batch.batchNumber batch |} ]) s1)
      as (s' & Hrun & Hq & Hn & Hup' & Hjobs & Hc & Hcs & Ha & Hp & Hw).
    { subst s1. cbn. by apply reachable_tail. }
    exists s'. rewrite Hrun. subst s1.
    cbn [queued outages contacts jobs campaigns analytics progressCache world queue length]
      in *. split; [|split; [|split; [|split]]].
    + rewrite <- app_assoc, imap_submittedAs. unfold submittedAs at 2.
      by rewrite Nat.add_0_r.
    + rewrite Hq, <- app_assoc, imap_batchTask. unfold batchTask at 2.
      by rewrite Nat.add_0_r.
    + lia.
    + exact Hup'.
    + repeat split; assumption.
Qed.

(** X12: while Redis is reachable, [processBatches] sends nothing itself
    and changes no document: it adds one 'send-batch' job per batch, in
    the order of the batches and with consecutive queue ids, each to be
    attempted once with priority 1, and reports those ids batch by batch. *)
Theorem processBatches_queued (fuel campaignId userId : nat) (campaignData : CampaignData.t)
    (batches : list Batch.t) (s : State Net) :
  true ∉ outages s ->
  exists s',
    processBatches fuel campaignId userId campaignData batches s
      = Some (Normal (imap (submittedAs (queued s)) batches), s')
    /\ queue s' = queue s ++ imap (batchTask campaignId userId campaignData (queued s)) batches
    /\ queued s' = (queued s + length batches)%nat
    /\ jobs s' = jobs s /\ campaigns s' = campaigns s /\ analytics s' = analytics s
    /\ progressCache s' = progressCache s /\ world s' = world s.
Proof.
  intros Hup.
  destruct (processBatches_loop_up fuel campaignId userId campaignData batches [] s Hup)
    as (s' & Hrun & Hq & Hn & _ & Hjobs & _ & Hcs & Ha & Hp & Hw).
  exists s'. split; [exact Hrun|]. auto 10.
Qed.

End Submitting.

(** ** What the synchronous executor records *)

Section SynchronousRecords.

Context {Net : Type}.
Variable sendWithMailgun :
  EmailService.Provider -> EmailService.EmailData -> Net
  -> (option EmailService.Response + JsError) * Net.
Variable sendWithSMTP :
  EmailService.Provider -> EmailService.EmailData -> Net
  -> (option EmailService.Response + JsError) * Net.
Variable providers : list EmailService.Provider.
Variable cfg : Config.

#[local] Abbreviation emailService_sendEmail :=
  (emailService_sendEmail sendWithMailgun sendWithSMTP providers).
#[local] Abbreviation sendSynchronously :=
  (sendSynchronously sendWithMailgun sendWithSMTP providers cfg).
#[local] Abbreviation processBatchSynchronously :=
  (processBatchSynchronously sendWithMailgun sendWithSMTP providers cfg).



End SynchronousRecords.

(** ** The status of a campaign's batches *)

Section BatchStatuses.

Context {Net : Type}.
Variable cfg : Config.

#[local] Abbreviation B := (MAX_EMAILS_PER_BATCH cfg).

#[local] Instance byBatchNumber_total : Total byBatchNumber.
Proof. intros a b. unfold byBatchNumber. lia. Qed.

#[local] Instance byBatchNumber_trans : Transitive byBatchNumber.
Proof. intros a b c. unfold byBatchNumber. lia. Qed.

(** A loop that has ended ends the same way when given more iterations. *)
Lemma forChunks_more_fuel {A} (body : nat -> A -> Proc Net A) (step n : nat) :
  forall fuel i acc s r,
    forChunks fuel i step n body acc s = Some r ->
    forall fuel', (fuel <= fuel')%nat -> forChunks fuel' i step n body acc s = Some r.
Proof.
  induction fuel as [|fuel IH]; intros i acc s r H fuel' Hle.
  - cbn [forChunks] in H. destruct fuel'; cbn [forChunks];
      destruct (i <? n)%nat; try discriminate; exact H.
  - destruct fuel' as [|fuel']; [lia|]. cbn [forChunks] in H |- *.
    destruct (i <? n)%nat; [|exact H].
    unfold mbind, Proc_bind in H |- *.
    destruct (body i acc s) as [[[a|e] s1]|]; [|exact H|discriminate].
    apply (IH _ _ _ _ H). lia.
Qed.

(** Whenever [createBatches] returns, it returns the plan in which the
    selected contacts are cut into consecutive batches. *)
Lemma createBatches_returned (fuel campaignId userId : nat)
    (contactFilters : ContactFilters) (s s' : State Net) (plan : Plan) :
  createBatches cfg fuel campaignId userId contactFilters s = Some (Normal plan, s') ->
  let found := List.filter (matchesQuery userId contactFilters) (contacts s) in
  (0 < B)%nat
  /\ totalContacts plan = length found
  /\ totalBatches plan = ceil_div (length found) B
  /\ concat (map Batch.contacts (batches plan)) = map toRecipient found
  /\ map Batch.batchNumber (batches plan) = seq 1 (length (batches plan))
  /\ forall b, b ∈ batches plan ->
       jobs s' !! Batch.jobId b
       = Some (newJob campaignId userId (Batch.batchNumber b) (Batch.contacts b)).
Proof.
  intros H found. revert H. unfold createBatches. proc. fold found.
  destruct (Nat.eqb_spec (length found) 0) as [|Hpos]; [discriminate|].
  destruct (forChunks _ _ _ _ _ _ _) as [[[bs|e] s1]|] eqn:E; try discriminate.
  intros [= <- <-]. cbn [totalContacts totalBatches batches].
  assert (HB : (0 < B)%nat).
  { destruct (Nat.eqb_spec B 0) as [EB|]; [exfalso|lia].
    destruct fuel as [|fuel]; cbn [forChunks] in E;
      (destruct (Nat.ltb_spec 0 (length found)); [|lia]); [discriminate|].
    unfold mbind, Proc_bind, createBatch in E. rewrite EB in E. cbn in E. discriminate. }
  split; [exact HB|].
  pose proof (forChunks_more_fuel _ _ _ _ _ _ _ _ E (fuel + length found)%nat
                ltac:(lia)) as E'.
  destruct (createBatches_loop cfg campaignId userId found HB (fuel + length found)%nat
              0%nat [] s ltac:(lia))
    as (bs' & s'' & Hrun & Hlen & Hcat & Hnum & Hat & _).
  rewrite Hrun in E'. injection E' as <- <-. cbn [app] in *.
  rewrite drop_0 in Hcat. rewrite Nat.Div0.div_0_l in Hnum.
  split; [reflexivity|]. split; [reflexivity|]. split; [exact Hcat|].
  split; [exact Hnum|].
  intros b Hb. apply list_elem_of_lookup in Hb as [k Hk].
  by destruct (Hat k b Hk) as (_ & _ & _ & Hjob).
Qed.

Lemma foldl_addProgress campaignId userId (bs : list Batch.t) (p : Progress.t) :
  foldl addProgress p
        (map (fun b => (Batch.jobId b,
                        newJob campaignId userId (Batch.batchNumber b) (Batch.contacts b))) bs)
  = {| Progress.total := Progress.total p
                         + Z.of_nat (length (concat (map Batch.contacts bs)));
       Progress.sent := Progress.sent p; Progress.failed := Progress.failed p |}.
Proof.
  revert p. induction bs as [|b bs IH]; intros p.
  - cbn. destruct p. cbn. f_equal. lia.
  - cbn [map foldl concat]. rewrite IH. unfold addProgress. cbn.
    rewrite length_app. f_equal; lia.
Qed.

Lemma seq_strongly_sorted {A} (key : A -> nat) (l : list A) start :
  map key l = seq start (length l) ->
  StronglySorted (fun a b => (key a < key b)%nat) l.
Proof.
  revert start. induction l as [|a l IH]; intros start H; [constructor|].
  cbn in H. injection H as Ha Hl. constructor; [by eapply IH|].
  apply Forall_forall. intros b Hb.
  assert (Hin : key b ∈ seq (S start) (length l)).
  { rewrite <- Hl. apply list_elem_of_fmap. eauto. }
  apply elem_of_seq in Hin. lia.
Qed.

(** X14: right after [createBatches] has planned a campaign that had no
    jobs before, [getAllBatchStatuses] lists the batches of the plan in
    batch order, each one pending with nothing sent or failed, and the
    total it reports is the number of contacts of the plan. *)
Theorem statuses_after_planning (fuel campaignId userId : nat)
    (contactFilters : ContactFilters) (s s' : State Net) (plan : Plan) :
  createBatches cfg fuel campaignId userId contactFilters s = Some (Normal plan, s') ->
  (forall id j, jobs s !! id = Some j -> Job.campaignId j <> campaignId) ->
  getAllBatchStatuses campaignId s'
  = Some (Normal {| statusJobs := map plannedStatus (batches plan);
                    totalProgress := {| Progress.total := Z.of_nat (totalContacts plan);
                                        Progress.sent := 0; Progress.failed := 0 |} |},
          s').
Proof.
  intros Hplan Hnone.
  destruct (createBatches_returned _ _ _ _ _ _ _ Hplan)
    as (HB & Htotal & _ & Hcat & Hnum & Hjobs).
  destruct (createBatches_changes cfg _ _ _ _ _ _ _ Hplan)
    as (_ & Hnd & Hfresh & Hkeep & Hdom).
  set (planned := map (fun b => (Batch.jobId b,
                                 newJob campaignId userId (Batch.batchNumber b)
                                        (Batch.contacts b))) (batches plan)).
  assert (Hsorted : StronglySorted (fun a b => (Job.batchNumber a.2 < Job.batchNumber b.2)%nat)
                      planned).
  { apply (seq_strongly_sorted (fun a => Job.batchNumber a.2) planned 1).
    subst planned. rewrite map_map, length_map. cbn. exact Hnum. }
  assert (Hperm : List.filter (fun kv => (Job.campaignId kv.2 =? campaignId)%nat)
                    (map_to_list (jobs s')) ≡ₚ planned).
  { apply NoDup_Permutation.
    - apply NoDup_ListNoDup, List.NoDup_filter, NoDup_ListNoDup, NoDup_map_to_list.
    - apply (NoDup_fmap_1 fst). subst planned.
      change (NoDup (map fst (map (fun b => (Batch.jobId b,
                newJob campaignId userId (Batch.batchNumber b) (Batch.contacts b)))
                (batches plan)))).
      rewrite map_map. exact Hnd.
    - intros [id j]. rewrite list_elem_of_In, filter_In, <- list_elem_of_In.
      rewrite elem_of_map_to_list. cbn. rewrite Nat.eqb_eq. subst planned. split.
      + intros [Hj Hc].
        assert (Hid : id ∈ dom (jobs s')) by (apply elem_of_dom; eauto).
        rewrite Hdom, elem_of_union, elem_of_dom, elem_of_list_to_set in Hid.
        destruct Hid as [[j0 Hj0]|Hid].
        * pose proof (Hkeep _ _ Hj0) as Hj0'. rewrite Hj in Hj0'. injection Hj0' as ->.
          by destruct (Hnone _ _ Hj0).
        * apply list_elem_of_fmap in Hid as (b & -> & Hb).
          apply list_elem_of_fmap. exists b. split; [|exact Hb].
          f_equal. rewrite (Hjobs b Hb) in Hj. by injection Hj.
      + intros Hin. apply list_elem_of_fmap in Hin as (b & [= -> ->] & Hb).
        split; [by apply Hjobs | reflexivity]. }
  assert (Hfound : jobsOfCampaign campaignId (jobs s') = planned).
  { unfold jobsOfCampaign. apply (Sorted_unique_strong byBatchNumber).
    - intros x1 x2 Hin Hx2 H12 H21. unfold byBatchNumber in *.
      assert (Hx1 : x1 ∈ planned).
      { rewrite <- Hperm, <- (merge_sort_Permutation byBatchNumber). exact Hin. }
      clear -Hsorted Hx1 Hx2 H12 H21.
      induction Hsorted as [|a l _ IH Ha]; [by apply elem_of_nil in Hx1|].
      rewrite Forall_forall in Ha.
      apply elem_of_cons in Hx1 as [->|Hx1]; apply elem_of_cons in Hx2 as [->|Hx2];
        [reflexivity | | | by apply IH].
      * specialize (Ha _ Hx2). lia.
      * specialize (Ha _ Hx1). lia.
    - apply Sorted_merge_sort, _.
    - clear -Hsorted. induction Hsorted as [|a l _ IH Ha]; constructor; [exact IH|].
      destruct Ha as [|b l Hab _]; constructor. unfold byBatchNumber. lia.
    - rewrite merge_sort_Permutation. exact Hperm. }
  unfold getAllBatchStatuses. proc. rewrite Hfound. subst planned.
  rewrite map_map, foldl_addProgress, Hcat, length_map, Htotal. reflexivity.
Qed.

Lemma elem_of_jobsOfCampaign campaignId (js : gmap nat Job.t) id job :
  (id, job) ∈ jobsOfCampaign campaignId js
  <-> js !! id = Some job /\ Job.campaignId job = campaignId.
Proof.
  unfold jobsOfCampaign. rewrite merge_sort_Permutation.
  rewrite list_elem_of_In, filter_In, <- list_elem_of_In, elem_of_map_to_list. cbn.
  by rewrite Nat.eqb_eq.
Qed.

(** X30: the two status calls agree.  For a job that exists,
    [getBatchStatus] returns its status entry, and that entry is in the
    list [getAllBatchStatuses] returns for the job's campaign; every
    entry of that list is what [getBatchStatus] returns for its job id;
    and the list is in ascending batch-number order.  Neither call
    changes anything. *)
Theorem batch_statuses_agree (jobId : nat) (job : Job.t) (s : State Net) :
  jobs s !! jobId = Some job ->
  exists entry all,
    getBatchStatus jobId s = Some (Normal entry, s)
    /\ getAllBatchStatuses (Job.campaignId job) s = Some (Normal all, s)
    /\ entry ∈ statusJobs all
    /\ (forall e, e ∈ statusJobs all ->
          getBatchStatus (BatchStatus.jobId e) s = Some (Normal e, s))
    /\ Sorted (fun a b => (BatchStatus.batchNumber a <= BatchStatus.batchNumber b)%nat)
              (statusJobs all).
Proof.
  intros Hj. eexists _, _. split; [|split].
  { unfold getBatchStatus. proc. rewrite Hj. reflexivity. }
  { unfold getAllBatchStatuses. proc. reflexivity. }
  cbn [statusJobs]. split; [|split].
  - apply list_elem_of_fmap. exists (jobId, job). split; [reflexivity|].
    by apply elem_of_jobsOfCampaign.
  - intros e He. apply list_elem_of_fmap in He as ([id j] & -> & Hin).
    apply elem_of_jobsOfCampaign in Hin as [Hid _].
    unfold getBatchStatus. proc. cbn. rewrite Hid. reflexivity.
  - unfold jobsOfCampaign.
    pose proof (Sorted_merge_sort byBatchNumber
                  (List.filter (fun kv => (Job.campaignId kv.2 =? Job.campaignId job)%nat)
                               (map_to_list (jobs s)))) as Hs.
    induction Hs as [|a l _ IH Ha]; [constructor|].
    cbn [map]. constructor; [exact IH|].
    destruct Ha as [|b l Hab]; constructor. exact Hab.
Qed.

End BatchStatuses.

(** *** The statements at sample inputs *)

Section BatchSamples.

(** User 2 has no contacts. *)
Lemma createBatches_no_contacts_sample :
  createBatches Sample.smallBatches 5 7 2 Sample.noFilters Sample.unsent
  = Some (Throw (Error "No contacts found matching the filters"), Sample.unsent).
Proof.
  apply (createBatches_no_contacts Sample.smallBatches 5 7 2 Sample.noFilters Sample.unsent).
  reflexivity.
Defined.

Lemma createBatches_zero_batch_size_sample :
  createBatches SampleMore.emptyBatches 1000 7 1 Sample.noFilters Sample.unsent
  = Some (Throw (Error "Job validation failed: batchNumber"), Sample.unsent).
Proof.
  apply (createBatches_zero_batch_size SampleMore.emptyBatches 1000 7 1 Sample.noFilters
           Sample.unsent).
  - reflexivity.
  - discriminate.
  - lia.
Defined.

Lemma createBatches_recipients_sample :
  exists plan s',
    createBatches Sample.smallBatches 5 7 1 Sample.noFilters Sample.unsent
      = Some (Normal plan, s')
    /\ forall b r, b ∈ batches plan -> r ∈ Batch.contacts b ->
         exists c, c ∈ contacts Sample.unsent /\ r = toRecipient c
                   /\ selected 1 Sample.noFilters c.
Proof.
  eexists _, _. split; [vm_compute; reflexivity|].
  eapply (createBatches_recipients Sample.smallBatches 5 7 1 Sample.noFilters Sample.unsent).
  vm_compute. reflexivity.
Defined.

Lemma createBatches_frame_sample :
  exists plan s',
    createBatches Sample.smallBatches 5 7 1 Sample.noFilters Sample.unsent
      = Some (Normal plan, s')
    /\ sameButJobs Sample.unsent s'
    /\ NoDup (map Batch.jobId (batches plan))
    /\ (forall b, b ∈ batches plan -> jobs Sample.unsent !! Batch.jobId b = None)
    /\ (forall id j, jobs Sample.unsent !! id = Some j -> jobs s' !! id = Some j)
    /\ dom (jobs s') = dom (jobs Sample.unsent) ∪ list_to_set (map Batch.jobId (batches plan)).
Proof.
  eexists _, _. split; [vm_compute; reflexivity|].
  eapply (createBatches_frame Sample.smallBatches 5 7 1 Sample.noFilters Sample.unsent).
  vm_compute. reflexivity.
Defined.

Lemma processBatches_queued_sample :
  exists s',
    processBatches EmailService.refuse EmailService.refuse [EmailService.mailgun] defaults
      2 7 1 Sample.campaignData [Sample.batch1] (Sample.planned [false])
      = Some (Normal (imap (submittedAs (queued (Sample.planned [false]))) [Sample.batch1]), s')
    /\ queue s'
       = queue (Sample.planned [false])
         ++ imap (batchTask 7 1 Sample.campaignData (queued (Sample.planned [false])))
                 [Sample.batch1]
    /\ queued s' = (queued (Sample.planned [false]) + length [Sample.batch1])%nat
    /\ jobs s' = jobs (Sample.planned [false])
    /\ campaigns s' = campaigns (Sample.planned [false])
    /\ analytics s' = analytics (Sample.planned [false])
    /\ progressCache s' = progressCache (Sample.planned [false])
    /\ world s' = world (Sample.planned [false]).
Proof.
  apply (processBatches_queued EmailService.refuse EmailService.refuse [EmailService.mailgun]
           defaults 2 7 1 Sample.campaignData [Sample.batch1] (Sample.planned [false])).
  cbn. intros H. apply list_elem_of_singleton in H. discriminate.
Defined.


Lemma statuses_after_planning_sample :
  exists plan s',
    createBatches Sample.smallBatches 5 7 1 Sample.noFilters Sample.unsent
      = Some (Normal plan, s')
    /\ getAllBatchStatuses 7 s'
       = Some (Normal {| statusJobs := map plannedStatus (batches plan);
                         totalProgress :=
                           {| Progress.total := Z.of_nat (totalContacts plan);
                              Progress.sent := 0; Progress.failed := 0 |} |}, s').
Proof.
  eexists _, _. split; [vm_compute; reflexivity|].
  eapply (statuses_after_planning Sample.smallBatches 5 7 1 Sample.noFilters Sample.unsent).
  - vm_compute. reflexivity.
  - intros id j Hj. vm_compute in Hj. discriminate.
Defined.

Lemma batch_statuses_agree_sample :
  exists entry all,
    getBatchStatus 1 Sample.finished = Some (Normal entry, Sample.finished)
    /\ getAllBatchStatuses (Job.campaignId Sample.finishedJob) Sample.finished
       = Some (Normal all, Sample.finished)
    /\ entry ∈ statusJobs all
    /\ (forall e, e ∈ statusJobs all ->
          getBatchStatus (BatchStatus.jobId e) Sample.finished
          = Some (Normal e, Sample.finished))
    /\ Sorted (fun a b => (BatchStatus.batchNumber a <= BatchStatus.batchNumber b)%nat)
              (statusJobs all).
Proof.
  apply (batch_statuses_agree 1 Sample.finishedJob Sample.finished). reflexivity.
Defined.

End BatchSamples.

(** ** More about the queue workers *)

Section WorkerRecords.

Context {Net : Type}.
Variable sendWithMailgun :
  EmailService.Provider -> EmailService.EmailData -> Net
  -> (option EmailService.Response + JsError) * Net.
Variable sendWithSMTP :
  EmailService.Provider -> EmailService.EmailData -> Net
  -> (option EmailService.Response + JsError) * Net.
Variable providers : list EmailService.Provider.
Variable cfg : Config.

#[local] Abbreviation incProgress := (@incProgress Net cfg).
#[local] Abbreviation process_send_email :=
  (process_send_email sendWithMailgun sendWithSMTP providers cfg).
#[local] Abbreviation deliver := (deliver sendWithMailgun sendWithSMTP providers).

Lemma countersOnly_refl (s : State Net) : countersOnly s s.
Proof. by repeat split. Qed.

Lemma countersOnly_trans (s1 s2 s3 : State Net) :
  countersOnly s1 s2 -> countersOnly s2 s3 -> countersOnly s1 s3.
Proof. unfold countersOnly. intuition congruence. Qed.

Lemma updateOne_fixed id cond (update : Job.t -> Job.t) (js : gmap nat Job.t) :
  (forall j, fixedPart (update j) = fixedPart j) ->
  fixedPart <$> Job.updateOne id cond update js = fixedPart <$> js.
Proof.
  intros Hf. unfold Job.updateOne. destruct (js !! id) as [j|] eqn:E; [|reflexivity].
  destruct (cond j); [|reflexivity].
  rewrite fmap_insert, Hf. apply insert_id. by rewrite lookup_fmap, E.
Qed.

Lemma progress_update_fixed a b t j :
  fixedPart (Job.set_total_if_truthy t (Job.inc_progress a b j)) = fixedPart j.
Proof. unfold Job.set_total_if_truthy. by destruct (t =? 0)%Z. Qed.

Lemma flushed_countersOnly jobId (s : State Net) : countersOnly s (flushed jobId s).
Proof.
  unfold flushed. destruct (progressCache s !! jobId) as [c|]; [|apply countersOnly_refl].
  destruct (_ && _); [apply countersOnly_refl|].
  split; [|by repeat split]. cbn. apply updateOne_fixed. intros j. apply progress_update_fixed.
Qed.

Lemma incProgress_countersOnly jobId a b t (s : State Net) :
  exists s', incProgress jobId a b t s = Some (Normal tt, s')
             /\ countersOnly s s' /\ world s' = world s.
Proof.
  unfold incProgress. destruct (PROGRESS_BATCHING cfg); cbn [negb].
  - proc. match goal with |- context [if ?c then _ else _] => destruct c end.
    + rewrite flushProgress_run. eexists. split; [reflexivity|].
      split; [|unfold flushed; cbn;
               destruct (_ !! _) as [c|]; [destruct (_ && _)|]; reflexivity].
      eapply countersOnly_trans; [|apply flushed_countersOnly]. by repeat split.
    + eexists. split; [reflexivity|]. by repeat split.
  - proc. eexists. split; [reflexivity|]. split; [|reflexivity].
    split; [|by repeat split]. cbn. apply updateOne_fixed. intros j.
    apply progress_update_fixed.
Qed.

Lemma checkCompletion_countersOnly jobId campaignId t (s : State Net) :
  exists c s', checkCompletion jobId campaignId t s = Some (c, s')
               /\ countersOnly s s' /\ world s' = world s.
Proof.
  pose proof (checkCompletion_run jobId campaignId t s) as H.
  destruct (jobs s !! jobId) as [j|] eqn:Hj.
  - destruct (closesOut t j) eqn:Hc.
    + destruct (checkCompletion_closes jobId campaignId t s j Hj Hc)
        as (s' & Hrun & Hjobs & _ & _ & Hw & Hq & Hn & Ho).
      exists (Normal tt), s'. split; [exact Hrun|]. split; [|exact Hw].
      split; [|repeat split; try assumption].
      * rewrite Hjobs, fmap_insert. apply insert_id. by rewrite lookup_fmap, Hj.
      * revert Hrun. unfold checkCompletion. proc. rewrite Hj.
        unfold closesOut in Hc. rewrite Hc.
        match goal with |- context [if ?c then _ else _] => destruct c end;
          intros [= <-]; reflexivity.
    + exists (Normal tt), s. split; [exact H|]. split; [apply countersOnly_refl | reflexivity].
  - exists (Throw TypeError), s. split; [exact H|].
    split; [apply countersOnly_refl | reflexivity].
Qed.

Lemma completionCheck_countersOnly jobId campaignId t (s : State Net) :
  (exists s', completionCheck jobId campaignId t s = Some (Normal tt, s')
              /\ countersOnly s s' /\ world s' = world s)
  /\ (exists s', completionCheck_onFailure jobId campaignId t s = Some (Normal tt, s')
                 /\ countersOnly s s' /\ world s' = world s).
Proof.
  split.
  - unfold completionCheck. proc. rewrite flushProgress_run.
    destruct (checkCompletion_countersOnly jobId campaignId t (flushed jobId s))
      as ([[]|e] & s' & -> & Hc & Hw); exists s'; (split; [reflexivity|]);
      (split; [eapply countersOnly_trans; [apply flushed_countersOnly | exact Hc]|]);
      rewrite Hw; unfold flushed;
      (destruct (_ !! _) as [c|]; [destruct (_ && _)|]; reflexivity).
  - unfold completionCheck_onFailure. proc.
    destruct (checkCompletion_countersOnly jobId campaignId t s)
      as ([[]|e] & s' & -> & Hc & Hw); exists s'; auto.
Qed.

(** X15: the 'send-email' worker always comes to an end, and whatever the
    outcome of the send it leaves the error log of every job as it was:
    of the job documents it changes counters and status only, and it
    queues nothing.  A recipient that fails on the durable path is thus
    absent from the entries [retryFailedEmails] and [scheduleRetries]
    work from. *)
Theorem send_email_worker_keeps_errorLog (emailData : EmailService.EmailData)
    (jobId campaignId userId contactId : nat) (total : Z) (s : State Net) :
  exists c s',
    process_send_email emailData jobId campaignId userId contactId total s = Some (c, s')
    /\ countersOnly s s'
    /\ Job.errorLog <$> jobs s' = Job.errorLog <$> jobs s
    /\ failedEmails <$> jobs s' = failedEmails <$> jobs s
    /\ unresolvedErrors <$> jobs s' = unresolvedErrors <$> jobs s.
Proof.
  assert (Hgoal : exists c s',
             process_send_email emailData jobId campaignId userId contactId total s
               = Some (c, s') /\ countersOnly s s').
  { unfold process_send_email. proc.
    destruct (emailService_sendEmail_run sendWithMailgun sendWithSMTP providers
                emailData 1 s) as (r & w' & -> & _).
    assert (H0 : countersOnly s (with_world w' s)) by by repeat split.
    destruct r as [provider messageId result|error attempts].
    - destruct (incProgress_countersOnly jobId 1 0 (or_number total 0) (with_world w' s))
        as (s1 & -> & H1 & _).
      destruct (ANALYTICS_ENABLED cfg); [destruct (Analytics.valid _)|].
      + match goal with |- context [completionCheck _ _ _ ?st] =>
          destruct (completionCheck_countersOnly jobId campaignId total st)
            as [(s2 & -> & H2 & _) _] end.
        eexists _, _. split; [reflexivity|].
        eapply countersOnly_trans; [exact H0|]. eapply countersOnly_trans; [exact H1|].
        eapply countersOnly_trans; [|exact H2]. by repeat split.
      + eexists _, _. split; [reflexivity|].
        eapply countersOnly_trans; [exact H0 | exact H1].
      + destruct (completionCheck_countersOnly jobId campaignId total s1)
          as [(s2 & -> & H2 & _) _].
        eexists _, _. split; [reflexivity|].
        eapply countersOnly_trans; [exact H0|]. eapply countersOnly_trans; eassumption.
    - destruct (incProgress_countersOnly jobId 0 1 (or_number total 0) (with_world w' s))
        as (s1 & -> & H1 & _).
      destruct (ANALYTICS_ENABLED cfg); [destruct (Analytics.valid _)|].
      + match goal with |- context [completionCheck_onFailure _ _ _ ?st] =>
          destruct (completionCheck_countersOnly jobId campaignId total st)
            as [_ (s2 & -> & H2 & _)] end.
        eexists _, _. split; [reflexivity|].
        eapply countersOnly_trans; [exact H0|]. eapply countersOnly_trans; [exact H1|].
        eapply countersOnly_trans; [|exact H2]. by repeat split.
      + eexists _, _. split; [reflexivity|].
        eapply countersOnly_trans; [exact H0 | exact H1].
      + destruct (completionCheck_countersOnly jobId campaignId total s1)
          as [_ (s2 & -> & H2 & _)].
        eexists _, _. split; [reflexivity|].
        eapply countersOnly_trans; [exact H0|]. eapply countersOnly_trans; eassumption. }
  destruct Hgoal as (c & s' & Hrun & Hc). exists c, s'. split; [exact Hrun|].
  split; [exact Hc|]. destruct Hc as (Hfixed & _).
  assert (Hvia : forall (g : list ErrorLog.t -> list ErrorLog.t),
             (fun j => g (Job.errorLog j)) <$> jobs s'
             = (fun j => g (Job.errorLog j)) <$> jobs s).
  { intros g.
    change (fun j => g (Job.errorLog j)) with ((fun p => g p.2) ∘ fixedPart).
    by rewrite !(map_fmap_compose fixedPart), Hfixed. }
  split; [exact (Hvia (fun l => l))|]. split; apply Hvia.
Qed.

End WorkerRecords.

(** ** The cached progress counters *)

Section CachedProgress.

Context {Net : Type}.
Variable sendWithMailgun :
  EmailService.Provider -> EmailService.EmailData -> Net
  -> (option EmailService.Response + JsError) * Net.
Variable sendWithSMTP :
  EmailService.Provider -> EmailService.EmailData -> Net
  -> (option EmailService.Response + JsError) * Net.
Variable providers : list EmailService.Provider.
Variable cfg : Config.

#[local] Abbreviation incProgress := (@incProgress Net cfg).
#[local] Abbreviation process_send_email :=
  (process_send_email sendWithMailgun sendWithSMTP providers cfg).
#[local] Abbreviation deliver := (deliver sendWithMailgun sendWithSMTP providers).








End CachedProgress.

(** ** The batch worker when things go wrong *)

Section BatchWorkerErrors.

Context {Net : Type}.
Variable cfg : Config.

#[local] Abbreviation process_send_batch := (@process_send_batch Net cfg).

(** X18: the 'send-batch' worker, given the id of a job that does not
    exist, throws 'Job not found' and leaves everything as it was. *)
Theorem process_send_batch_missing_job (fuel jobId campaignId userId : nat)
    (contacts : list Recipient.t) (campaignData : CampaignData.t) (s : State Net) :
  jobs s !! jobId = None ->
  process_send_batch fuel jobId campaignId userId contacts campaignData s
  = Some (Throw (Error "Job not found"), s).
Proof.
  intros Hj. unfold process_send_batch, process_send_batch_during. proc. rewrite Hj. cbn.
  unfold with_jobs, Job.updateOne. rewrite Hj. by destruct s.
Qed.

Lemma add_callback_run (data : Queue.Data) (opts : Queue.Opts) (s : State Net) :
  exists c s1,
    (emailQueue_add data opts ;; mret tt) s = Some (c, s1)
    /\ jobs s1 = jobs s /\ campaigns s1 = campaigns s
    /\ (head (outages s) = Some true ->
        c = Throw (Error "connect ECONNREFUSED 127.0.0.1:6379")).
Proof.
  unfold mbind, Proc_bind, emailQueue_add, mret, Proc_ret.
  destruct (head (outages s)) as [[]|]; eexists _, _; repeat split; done.
Qed.

(** A slice of [add] calls started together: all of them are made, and
    when Redis is down for the first one its error is what comes out. *)
Lemma promiseAll_adds (task : Recipient.t -> Queue.Data) (opts : Queue.Opts) :
  forall (l : list Recipient.t) (s : State Net),
    exists c s',
      promiseAll (map (fun contact => emailQueue_add (task contact) opts ;; mret tt) l) s
        = Some (c, s')
      /\ jobs s' = jobs s /\ campaigns s' = campaigns s
      /\ (head (outages s) = Some true -> l <> [] ->
          c = Throw (Error "connect ECONNREFUSED 127.0.0.1:6379")).
Proof.
  induction l as [|x l IH]; intros s.
  - exists (Normal tt), s. by repeat split.
  - cbn [map promiseAll].
    destruct (add_callback_run (task x) opts s) as (c1 & s1 & -> & Hjobs1 & Hcs1 & Hthrow).
    destruct (IH s1) as (c & s' & -> & Hjobs & Hcs & _).
    destruct c1 as [[]|e]; eexists _, s'; (split; [reflexivity|]);
      (split; [congruence|]); (split; [congruence|]); intros Hdown _.
    + by specialize (Hthrow Hdown).
    + by rewrite (Hthrow Hdown).
Qed.

(** X19: when Redis cannot be reached for the first 'send-email' job the
    batch worker tries to add, the worker marks the batch failed and
    rethrows the connection error; nothing else of the job document
    changes and the campaign documents are left as they were. *)
Theorem process_send_batch_redis_down (fuel jobId campaignId userId : nat)
    (contacts : list Recipient.t) (campaignData : CampaignData.t) (s : State Net)
    (j : Job.t) :
  jobs s !! jobId = Some j ->
  contacts <> [] ->
  (0 < BATCH_ENQUEUE_SIZE cfg)%nat ->
  (0 < fuel)%nat ->
  head (outages s) = Some true ->
  exists s',
    process_send_batch fuel jobId campaignId userId contacts campaignData s
      = Some (Throw (Error "connect ECONNREFUSED 127.0.0.1:6379"), s')
    /\ jobs s' = <[jobId := Job.set_status Job.failed j]> (jobs s)
    /\ campaigns s' = campaigns s.
Proof.
  intros Hj Hne Hsize Hfuel Hdown. unfold process_send_batch, process_send_batch_during. proc. rewrite Hj.
  set (s1 := with_jobs _ s).
  assert (Hjobs1 : jobs s1 = <[jobId := Job.set_status Job.processing j]> (jobs s)).
  { subst s1. cbn. unfold Job.updateOne. by rewrite Hj. }
  destruct fuel as [|fuel]; [lia|]. cbn [forChunks].
  destruct (Nat.ltb_spec 0 (length contacts)) as [_|Hlen];
    [|destruct contacts; [done | cbn in Hlen; lia]].
  destruct (promiseAll_adds
              (fun contact =>
                 Queue.send_email (emailDataOf campaignData (Recipient.email contact))
                   jobId campaignId userId (Recipient.contactId contact)
                   (Z.of_nat (length contacts)))
              {| Queue.priority := Some 1%nat; Queue.attempts := JOB_ATTEMPTS_EMAIL cfg;
                 Queue.delay := 0 |}
              (slice 0 (0 + BATCH_ENQUEUE_SIZE cfg) contacts) s1)
    as (c & s2 & Hrun & Hjobs2 & Hcs2 & Hthrow).
  rewrite Hthrow in Hrun; [|exact Hdown|].
  - proc. rewrite Hrun.
    eexists. split; [reflexivity|]. cbn. rewrite Hcs2. split; [|reflexivity].
    rewrite Hjobs2, Hjobs1. unfold Job.updateOne. rewrite lookup_insert_eq. cbn.
    by rewrite insert_insert_eq.
  - unfold slice. destruct contacts as [|x l]; [done|].
    destruct (BATCH_ENQUEUE_SIZE cfg) as [|b]; [lia|]. cbn. done.
Qed.

End BatchWorkerErrors.

(** ** More about the retry service *)

Section RetryMore.

Context {Net : Type}.
Variable sendWithMailgun :
  EmailService.Provider -> EmailService.EmailData -> Net
  -> (option EmailService.Response + JsError) * Net.
Variable sendWithSMTP :
  EmailService.Provider -> EmailService.EmailData -> Net
  -> (option EmailService.Response + JsError) * Net.
Variable providers : list EmailService.Provider.

#[local] Abbreviation retryOne := (retryOne sendWithMailgun sendWithSMTP providers).
#[local] Abbreviation retryAll := (retryAll sendWithMailgun sendWithSMTP providers).
#[local] Abbreviation retryFailedEmails :=
  (retryFailedEmails sendWithMailgun sendWithSMTP providers).

(** X20: [retryFailedEmails] throws 'Job not found' when the job does not
    exist, and reports zero retries when the job has no entry left to
    retry (no entry at all, or every entry resolved or at the ceiling);
    in both cases it sends nothing and changes nothing. *)
Theorem retryFailedEmails_nothing_to_do (jobId : nat) (s : State Net) :
  match jobs s !! jobId with
  | Some job => failedEmails job = []
  | None => True
  end ->
  retryFailedEmails jobId s
  = Some (match jobs s !! jobId with
          | Some _ => Normal {| retried := 0; retry_total := None |}
          | None => Throw (Error "Job not found")
          end, s).
Proof.
  unfold retryFailedEmails. proc.
  destruct (jobs s !! jobId) as [job|]; [|reflexivity].
  intros ->. by destruct (length (Job.errorLog job) =? 0)%nat.
Qed.

Lemma updateOne_proj {X} (proj : Job.t -> X) id cond (update : Job.t -> Job.t)
    (js : gmap nat Job.t) :
  (forall j, proj (update j) = proj j) ->
  proj <$> Job.updateOne id cond update js = proj <$> js.
Proof.
  intros Hf. unfold Job.updateOne. destruct (js !! id) as [j|] eqn:E; [|reflexivity].
  destruct (cond j); [|reflexivity].
  rewrite fmap_insert, Hf. apply insert_id. by rewrite lookup_fmap, E.
Qed.

Lemma updateFirst_emails email (f : ErrorLog.t -> ErrorLog.t) (l : list ErrorLog.t) :
  (forall e, ErrorLog.email (f e) = ErrorLog.email e) ->
  map ErrorLog.email (updateFirst email f l) = map ErrorLog.email l.
Proof.
  intros Hf. induction l as [|e l IH]; [reflexivity|]. cbn.
  destruct (String.eqb _ _); cbn; [by rewrite Hf | by rewrite IH].
Qed.

(** One retry: what it keeps, and what it reports and records. *)
Lemma retryOne_keeps jobId job retried (e : ErrorLog.t) (s : State Net) :
  exists n s',
    retryOne jobId job retried e s = Some (Normal n, s')
    /\ keptByRetry <$> jobs s' = keptByRetry <$> jobs s
    /\ campaigns s' = campaigns s /\ queue s' = queue s /\ progressCache s' = progressCache s
    /\ (retried <= n <= retried + 1)%nat
    /\ exists records,
         analytics s' = analytics s ++ records
         /\ length records = (n - retried)%nat
         /\ Forall (fun a => Analytics.event a = "sent"
                             /\ Analytics.email a = ErrorLog.email e) records.
Proof.
  unfold retryOne. proc.
  destruct (find _ (Job.contacts job)) as [contact|];
    [|eexists _, _; split; [reflexivity|]; repeat split; try lia;
      exists []; rewrite app_nil_r, Nat.sub_diag; by repeat split].
  destruct (campaigns s !! Job.campaignId job) as [campaign|];
    [|eexists _, _; split; [reflexivity|]; repeat split; try lia;
      exists []; rewrite app_nil_r, Nat.sub_diag; by repeat split].
  match goal with
  | |- context [emailService_sendEmail ?a ?b ?c ?d ?n s] =>
    destruct (emailService_sendEmail_run a b c d n s) as (r & w' & -> & _)
  end.
  destruct r as [provider messageId result|error attempts];
    [destruct (Analytics.valid _)|].
  - eexists _, _. split; [reflexivity|]. cbn. split.
    { apply updateOne_proj. intros j. unfold keptByRetry. cbn.
      rewrite updateFirst_emails by done. do 2 f_equal. lia. }
    repeat split; try lia.
    eexists [_]. split; [reflexivity|]. split; [cbn; lia|]. by repeat constructor.
  - eexists _, _. split; [reflexivity|]. cbn. split.
    { apply updateOne_proj. intros j. unfold keptByRetry. cbn.
      rewrite updateFirst_emails by done. do 2 f_equal. lia. }
    repeat split; try lia.
    exists []. rewrite app_nil_r, Nat.sub_diag. by repeat split.
  - eexists _, _. split; [reflexivity|]. cbn. split.
    { apply updateOne_proj. intros j. unfold keptByRetry. cbn.
      by rewrite updateFirst_emails. }
    repeat split; try lia.
    exists []. rewrite app_nil_r, Nat.sub_diag. by repeat split.
Qed.

Lemma retryAll_keeps jobId job (entries : list ErrorLog.t) retried (s : State Net) :
  exists n s',
    retryAll jobId job entries retried s = Some (Normal n, s')
    /\ keptByRetry <$> jobs s' = keptByRetry <$> jobs s
    /\ campaigns s' = campaigns s /\ queue s' = queue s /\ progressCache s' = progressCache s
    /\ (retried <= n <= retried + length entries)%nat
    /\ exists records,
         analytics s' = analytics s ++ records
         /\ length records = (n - retried)%nat
         /\ Forall (fun a => Analytics.event a = "sent"
                             /\ Analytics.email a ∈ map ErrorLog.email entries) records.
Proof.
  revert retried s. induction entries as [|e entries IH]; intros retried s.
  - eexists _, _. split; [reflexivity|]. repeat split; try (cbn; lia).
    exists []. rewrite app_nil_r, Nat.sub_diag. by repeat split.
  - cbn [retryAll]. unfold mbind at 1. unfold Proc_bind.
    destruct (retryOne_keeps jobId job retried e s)
      as (n1 & s1 & -> & Hk1 & Hc1 & Hq1 & Hp1 & Hn1 & rs1 & Ha1 & Hl1 & Hf1).
    destruct (IH n1 s1) as (n & s' & -> & Hk & Hc & Hq & Hp & Hn & rs & Ha & Hl & Hf).
    eexists _, _. split; [reflexivity|].
    split; [congruence|]. split; [congruence|]. split; [congruence|]. split; [congruence|].
    split; [cbn [length]; lia|].
    exists (rs1 ++ rs). split; [by rewrite Ha, Ha1, app_assoc|].
    split; [rewrite length_app; lia|].
    apply Forall_app. split.
    + eapply Forall_impl; [exact Hf1|]. intros a [Hev Hem]. split; [exact Hev|].
      rewrite Hem. left.
    + eapply Forall_impl; [exact Hf|]. intros a [Hev Hem]. split; [exact Hev|].
      by right.
Qed.

Lemma retryFailedEmails_keeps jobId (s : State Net) :
  exists c s',
    retryFailedEmails jobId s = Some (c, s')
    /\ keptByRetry <$> jobs s' = keptByRetry <$> jobs s
    /\ campaigns s' = campaigns s /\ queue s' = queue s /\ progressCache s' = progressCache s
    /\ exists records,
         analytics s' = analytics s ++ records
         /\ Forall (fun a => Analytics.event a = "sent") records
         /\ match c with
            | Normal report =>
              length records = retried report
              /\ forall total, retry_total report = Some total ->
                   (retried report <= total)%nat
                   /\ exists job, jobs s !! jobId = Some job
                                  /\ total = length (failedEmails job)
            | Throw _ => records = []
            end.
Proof.
  unfold retryFailedEmails. proc.
  destruct (jobs s !! jobId) as [job|] eqn:Hj.
  - destruct (length (Job.errorLog job) =? 0)%nat;
      [eexists _, s; split; [reflexivity|]; repeat split; exists [];
       rewrite app_nil_r; repeat split; [constructor | discriminate | discriminate]|].
    destruct (length (failedEmails job) =? 0)%nat;
      [eexists _, s; split; [reflexivity|]; repeat split; exists [];
       rewrite app_nil_r; repeat split; [constructor | discriminate | discriminate]|].
    destruct (retryAll_keeps jobId job (failedEmails job) 0 s)
      as (n & s' & -> & Hk & Hc & Hq & Hp & Hn & rs & Ha & Hl & Hf).
    eexists _, s'. split; [reflexivity|]. repeat split; try assumption.
    exists rs. split; [exact Ha|].
    split; [eapply Forall_impl; [exact Hf|]; by intros a [? _]|].
    cbn. split; [lia|]. intros total [= <-]. split; [lia|]. by exists job.
  - eexists _, s. split; [reflexivity|]. repeat split. exists [].
    rewrite app_nil_r. by repeat split.
Qed.

(** X21: a call of [retryFailedEmails] comes to an end and, of every job
    document, leaves the identity, the recipients, the status, the total
    and the sum of sent and failed as they were (a resolved entry moves
    one unit from failed to sent), and keeps the addresses of the
    error-log entries in their order: no entry is removed or added.  The
    campaign documents, and with them the campaign statistics, are not
    touched, and nothing is queued. *)
Theorem retry_keeps_accounts (jobId : nat) (s : State Net) :
  exists c s',
    retryFailedEmails jobId s = Some (c, s')
    /\ keptByRetry <$> jobs s' = keptByRetry <$> jobs s
    /\ campaigns s' = campaigns s
    /\ queue s' = queue s
    /\ progressCache s' = progressCache s.
Proof.
  destruct (retryFailedEmails_keeps jobId s) as (c & s' & Hrun & Hk & Hc & Hq & Hp & _).
  exists c, s'. auto.
Qed.

(** X22: the report of [retryFailedEmails] counts what it did: [retried]
    is the number of analytics records the call has appended, all of them
    'sent' events, and it is at most [total], the number of entries that
    were selected for the retry. *)
Theorem retry_report (jobId : nat) (s s' : State Net) (report : RetryReport) :
  retryFailedEmails jobId s = Some (Normal report, s') ->
  exists records,
    analytics s' = analytics s ++ records
    /\ length records = retried report
    /\ Forall (fun a => Analytics.event a = "sent") records
    /\ forall total, retry_total report = Some total ->
         (retried report <= total)%nat
         /\ exists job, jobs s !! jobId = Some job /\ total = length (failedEmails job).
Proof.
  intros Hrun.
  destruct (retryFailedEmails_keeps jobId s)
    as (c & s1 & Hrun' & _ & _ & _ & _ & rs & Ha & Hf & H).
  rewrite Hrun in Hrun'. injection Hrun' as <- <-.
  exists rs. destruct H as [Hl Ht]. auto.
Qed.

(** X23: when the campaign of a job no longer exists, [retryFailedEmails]
    sends nothing and changes nothing, whatever entries are selected,
    and reports zero retries out of the number of selected entries; the
    entries stay as they are, to be selected again by the next call. *)
Theorem retry_without_campaign (jobId : nat) (s : State Net) (job : Job.t) :
  jobs s !! jobId = Some job ->
  campaigns s !! Job.campaignId job = None ->
  failedEmails job <> [] ->
  retryFailedEmails jobId s
  = Some (Normal {| retried := 0; retry_total := Some (length (failedEmails job)) |}, s).
Proof.
  intros Hj Hc Hne. unfold retryFailedEmails. proc. rewrite Hj.
  assert (Hall : forall entries n, retryAll jobId job entries n s = Some (Normal n, s)).
  { induction entries as [|e entries IH]; intros n; [reflexivity|].
    cbn [retryAll]. unfold mbind at 1. unfold Proc_bind.
    assert (Hone : retryOne jobId job n e s = Some (Normal n, s)).
    { unfold retryOne. proc. destruct (find _ _); [|reflexivity]. by rewrite Hc. }
    rewrite Hone. apply IH. }
  destruct (Nat.eqb_spec (length (Job.errorLog job)) 0) as [H0|_].
  { unfold failedEmails in Hne. destruct (Job.errorLog job); [done | discriminate]. }
  destruct (Nat.eqb_spec (length (failedEmails job)) 0) as [H0|_].
  { destruct (failedEmails job); [done | discriminate]. }
  rewrite Hall. reflexivity.
Qed.





End RetryMore.


(** ** More about the retry scan *)

Section ScanMore.

Context {Net : Type}.

Lemma imap_retryTask q x l :
  imap (retryTask q) (x :: l) = retryTask q 0 x :: imap (retryTask (S q)) l.
Proof.
  rewrite imap_cons. f_equal. apply imap_ext. intros i y _. unfold retryTask.
  cbn. f_equal. lia.
Qed.

Lemma scheduleRetries_loop_exact (found : list (nat * Job.t)) (s : State Net) :
  true ∉ outages s ->
  exists s',
    scheduleRetries_loop found s = Some (Normal tt, s')
    /\ queue s'
       = queue s ++ imap (retryTask (queued s))
                         (List.filter (fun kv => (0 <? length (unresolvedErrors kv.2))%nat)
                                      found)
    /\ queued s'
       = (queued s + length (List.filter
                               (fun kv => (0 <? length (unresolvedErrors kv.2))%nat)
                               found))%nat
    /\ jobs s' = jobs s /\ campaigns s' = campaigns s
    /\ (true ∉ outages s').
Proof.
  revert s. induction found as [|[id job] found IH]; intros s Hup.
  - exists s. cbn. rewrite app_nil_r, Nat.add_0_r. by repeat split.
  - cbn [scheduleRetries_loop List.filter snd]. proc.
    destruct (0 <? length (unresolvedErrors job))%nat.
    + rewrite emailQueue_add_ok by by apply reachable_head.
      match goal with |- context [scheduleRetries_loop found ?st] =>
        destruct (IH st) as (s' & -> & Hq & Hn & Hj & Hc & Hup') end.
      { cbn. by apply reachable_tail. }
      exists s'. split; [reflexivity|].
      cbn [queue queued jobs campaigns outages] in Hq, Hn, Hj, Hc.
      split; [|split; [|by repeat split]].
      * rewrite Hq, <- app_assoc, imap_retryTask. unfold retryTask at 2.
        by rewrite Nat.add_0_r.
      * rewrite Hn. cbn [length]. lia.
    + apply IH, Hup.
Qed.

Lemma scheduleRetries_exact (s : State Net) :
  true ∉ outages s ->
  exists s',
    scheduleRetries s = Some (Normal tt, s')
    /\ queue s' = queue s ++ imap (retryTask (queued s)) (toRetry (jobs s))
    /\ queued s' = (queued s + length (toRetry (jobs s)))%nat
    /\ jobs s' = jobs s
    /\ (true ∉ outages s').
Proof.
  intros Hup. unfold scheduleRetries. proc.
  destruct (scheduleRetries_loop_exact (failedJobs (jobs s)) s Hup)
    as (s1 & -> & Hq1 & Hn1 & Hj1 & _ & Hup1).
  exists s1. auto.
Qed.

(** X24: while Redis is reachable, a scan adds exactly one retry job for
    every completed batch that has entries left to retry, in the order
    the batches are found, and none for the others.  It does not look at
    what is already waiting: a second scan adds a job for each of the
    same batches again. *)
Theorem scheduleRetries_queues (s : State Net) :
  true ∉ outages s ->
  exists s1 s2,
    scheduleRetries s = Some (Normal tt, s1)
    /\ queue s1 = queue s ++ imap (retryTask (queued s)) (toRetry (jobs s))
    /\ scheduleRetries s1 = Some (Normal tt, s2)
    /\ queue s2 = queue s1 ++ imap (retryTask (queued s1)) (toRetry (jobs s))
    /\ queued s1 = (queued s + length (toRetry (jobs s)))%nat
    /\ jobs s2 = jobs s.
Proof.
  intros Hup.
  destruct (scheduleRetries_exact s Hup) as (s1 & Hrun1 & Hq1 & Hn1 & Hj1 & Hup1).
  destruct (scheduleRetries_exact s1 Hup1) as (s2 & Hrun2 & Hq2 & _ & Hj2 & _).
  exists s1, s2. rewrite Hj1 in Hq2.
  split; [exact Hrun1|]. split; [exact Hq1|]. split; [exact Hrun2|].
  split; [exact Hq2|]. split; [exact Hn1 | congruence].
Qed.

Lemma scheduleRetries_loop_outage (found : list (nat * Job.t)) (s : State Net) :
  head (outages s) = Some true ->
  List.filter (fun kv => (0 <? length (unresolvedErrors kv.2))%nat) found <> [] ->
  exists e s',
    scheduleRetries_loop found s = Some (Throw e, s')
    /\ queue s' = queue s /\ queued s' = queued s /\ jobs s' = jobs s
    /\ outages s' = tail (outages s).
Proof.
  intros Hdown. induction found as [|[id job] found IH]; intros Hne; [done|].
  cbn [scheduleRetries_loop]. cbn [List.filter snd] in Hne. proc.
  destruct (0 <? length (unresolvedErrors job))%nat.
  - unfold emailQueue_add. rewrite Hdown. eexists _, _. split; [reflexivity|].
    by repeat split.
  - apply IH, Hne.
Qed.

(** X25: when Redis cannot be reached for the first retry job a scan
    tries to add, the scan ends there without a word: it returns
    normally, nothing has been queued, also not for the batches that come
    after, and no job has changed. *)
Theorem scheduleRetries_outage (s : State Net) :
  head (outages s) = Some true ->
  toRetry (jobs s) <> [] ->
  exists s',
    scheduleRetries s = Some (Normal tt, s')
    /\ queue s' = queue s /\ queued s' = queued s /\ jobs s' = jobs s
    /\ outages s' = tail (outages s).
Proof.
  intros Hdown Hne. unfold scheduleRetries. proc.
  destruct (scheduleRetries_loop_outage (failedJobs (jobs s)) s Hdown Hne)
    as (e & s' & -> & H).
  exists s'. split; [reflexivity | exact H].
Qed.

End ScanMore.

(** ** The send route *)

Section SendRouteFacts.

Context {Net : Type}.
Variable sendWithMailgun :
  EmailService.Provider -> EmailService.EmailData -> Net
  -> (option EmailService.Response + JsError) * Net.
Variable sendWithSMTP :
  EmailService.Provider -> EmailService.EmailData -> Net
  -> (option EmailService.Response + JsError) * Net.
Variable providers : list EmailService.Provider.
Variable cfg : Config.
Variable contactFilters : nat -> ContactFilters.

#[local] Abbreviation sendCampaign :=
  (sendCampaign sendWithMailgun sendWithSMTP providers cfg contactFilters).
#[local] Abbreviation B := (MAX_EMAILS_PER_BATCH cfg).

(** X26: the send route answers 404 when the signed-in user has no
    campaign of that id and 400 when the campaign is already being sent;
    in both cases nothing is changed, planned or queued. *)
Theorem sendCampaign_refused (fuel id user : nat) (s : State Net) :
  (forall c, ownCampaign id user s = Some c -> Campaign.status c = Campaign.sending) ->
  sendCampaign fuel id user s
  = Some (Normal (match ownCampaign id user s with
                  | None => SendRoute.status 404 (Some "Campaign not found")
                  | Some _ => SendRoute.status 400 (Some "Campaign is already being sent")
                  end), s).
Proof.
  intros Hguard. unfold sendCampaign. proc.
  destruct (ownCampaign id user s) as [c|]; [|reflexivity].
  by rewrite (Hguard c eq_refl).
Qed.

Lemma ownCampaign_lookup id user (s : State Net) c :
  ownCampaign id user s = Some c -> campaigns s !! id = Some c.
Proof.
  unfold ownCampaign. destruct (campaigns s !! id) as [c0|]; [|discriminate]. cbn.
  destruct (_ =? _)%nat; [|discriminate]. by intros [= ->].
Qed.

(** X27: when the campaign may be sent but no contact matches its
    filters, the route answers 500 with the message 'No contacts found
    matching the filters' and leaves the campaign in status 'draft',
    whatever its status was before; no job is created and nothing is
    queued. *)
Theorem sendCampaign_no_contacts (fuel id user : nat) (s : State Net) (c : Campaign.t) :
  ownCampaign id user s = Some c ->
  Campaign.status c <> Campaign.sending ->
  List.filter (matchesQuery user (contactFilters id)) (contacts s) = [] ->
  exists s',
    sendCampaign fuel id user s
      = Some (Normal (SendRoute.status 500 (Some "No contacts found matching the filters")),
              s')
    /\ campaigns s' = <[id := Campaign.set_status Campaign.draft c]> (campaigns s)
    /\ jobs s' = jobs s /\ queue s' = queue s /\ world s' = world s.
Proof.
  intros Hown Hst Hnone. pose proof (ownCampaign_lookup _ _ _ _ Hown) as Hc.
  unfold sendCampaign. proc. rewrite Hown.
  set (s1 := with_campaigns (Campaign.updateOne id (Campaign.set_status Campaign.sending)) s).
  assert (Hthrow : createBatches cfg fuel id user (contactFilters id) s1
                   = Some (Throw (Error "No contacts found matching the filters"), s1)).
  { unfold createBatches. proc. subst s1. cbn [contacts with_campaigns].
    rewrite Hnone. reflexivity. }
  destruct (Campaign.status c) eqn:Est; try done; fold s1; rewrite Hthrow;
    (eexists; split; [reflexivity|]; subst s1; cbn;
     unfold Campaign.updateOne; rewrite Hc, lookup_insert_eq, insert_insert_eq;
     by repeat split).
Qed.

(** X28: when the campaign may be sent, contacts match its filters and
    Redis is reachable, the route marks the campaign 'sending', plans the
    batches and queues one 'send-batch' job per batch, in batch order,
    carrying the campaign data prepared from the campaign document; it
    answers with the number of contacts, the number of batches and the
    job of each batch.  Every job is stored as planned, and no message
    has been sent when the route answers. *)
Theorem sendCampaign_queues (fuel id user : nat) (s : State Net) (c : Campaign.t) :
  let found := List.filter (matchesQuery user (contactFilters id)) (contacts s) in
  ownCampaign id user s = Some c ->
  Campaign.status c <> Campaign.sending ->
  (0 < length found)%nat -> (0 < B)%nat -> (length found <= fuel)%nat ->
  true ∉ outages s ->
  exists s' bs,
    sendCampaign fuel id user s
      = Some (Normal (SendRoute.queuedForSending id (length found)
                        (ceil_div (length found) B)
                        (map (fun b => (Batch.jobId b, Batch.batchNumber b)) bs)), s')
    /\ length bs = ceil_div (length found) B
    /\ concat (map Batch.contacts bs) = map toRecipient found
    /\ campaigns s' = <[id := Campaign.set_status Campaign.sending c]> (campaigns s)
    /\ queue s' = queue s ++ imap (batchTask id user (campaignDataOf c) (queued s)) bs
    /\ (forall b, b ∈ bs ->
          jobs s' !! Batch.jobId b
          = Some (newJob id user (Batch.batchNumber b) (Batch.contacts b)))
    /\ world s' = world s.
Proof.
  intros found Hown Hst Hpos HB Hfuel Hup.
  pose proof (ownCampaign_lookup _ _ _ _ Hown) as Hc.
  set (s1 := with_campaigns (Campaign.updateOne id (Campaign.set_status Campaign.sending)) s).
  destruct (createBatches_loop cfg id user found HB fuel 0%nat [] s1 ltac:(lia))
    as (bs & s2 & Hloop & Hlen & Hcat & _ & Hat & _).
  rewrite Nat.sub_0_r in Hlen. rewrite drop_0 in Hcat. cbn [app] in Hloop.
  destruct (createBatches_loop_frame cfg id user found _ _ _ _ _ _ Hloop)
    as (bs' & Hbs & Hsame & _).
  destruct Hsame as (_ & Hcs2 & _ & _ & Hq2 & Hn2 & Ho2 & Hw2).
  assert (Hplan : createBatches cfg fuel id user (contactFilters id) s1
                  = Some (Normal {| totalContacts := length found;
                                    totalBatches := ceil_div (length found) B;
                                    batches := bs |}, s2)).
  { unfold createBatches, mbind, Proc_bind, gets. subst s1. cbn [contacts with_campaigns].
    fold found. destruct (Nat.eqb_spec (length found) 0) as [H0|_]; [lia|].
    cbn [contacts with_campaigns] in Hloop. rewrite Hloop. reflexivity. }
  destruct (processBatches_loop_up sendWithMailgun sendWithSMTP providers cfg fuel id user
              (campaignDataOf c) bs [] s2)
    as (s3 & Hsub & Hq3 & _ & _ & Hj3 & _ & Hcs3 & _ & _ & Hw3).
  { by rewrite Ho2. }
  fold (processBatches sendWithMailgun sendWithSMTP providers cfg fuel id user
          (campaignDataOf c) bs) in Hsub.
  assert (Hfinal : campaigns s3 = <[id := Campaign.set_status Campaign.sending c]> (campaigns s)
                   /\ queue s3 = queue s ++ imap (batchTask id user (campaignDataOf c)
                                                            (queued s)) bs
                   /\ (forall b, b ∈ bs ->
                         jobs s3 !! Batch.jobId b
                         = Some (newJob id user (Batch.batchNumber b) (Batch.contacts b)))
                   /\ world s3 = world s).
  { split; [|split; [|split]].
    - rewrite Hcs3, Hcs2. subst s1. cbn. unfold Campaign.updateOne. by rewrite Hc.
    - rewrite Hq3, Hq2, Hn2. reflexivity.
    - intros b Hb. apply list_elem_of_lookup in Hb as [k Hk]. rewrite Hj3.
      by destruct (Hat k b Hk) as (_ & _ & _ & Hjob).
    - rewrite Hw3, Hw2. reflexivity. }
  exists s3, bs. split; [|split; [exact Hlen|]; split; [exact Hcat | exact Hfinal]].
  unfold sendCampaign. proc. rewrite Hown.
  destruct (Campaign.status c) eqn:Est; try done; fold s1; rewrite Hplan;
    cbn [batches totalContacts totalBatches]; proc; rewrite Hsub; reflexivity.
Qed.

End SendRouteFacts.

(** ** The direct send route *)

Section DirectSendFacts.

Context {Net : Type}.
Variable sendWithMailgun :
  EmailService.Provider -> EmailService.EmailData -> Net
  -> (option EmailService.Response + JsError) * Net.
Variable sendWithSMTP :
  EmailService.Provider -> EmailService.EmailData -> Net
  -> (option EmailService.Response + JsError) * Net.
Variable providers : list EmailService.Provider.

#[local] Abbreviation sendDirect := (sendDirect sendWithMailgun sendWithSMTP providers).
#[local] Abbreviation deliver := (deliver sendWithMailgun sendWithSMTP providers).

(** X29: the direct send route answers 400 without sending anything when
    the recipient, the subject or both bodies are missing.  Otherwise it
    makes one call of [sendEmail] with three rounds and answers 200 with
    the name of a configured provider when that call succeeds and 502
    when it fails; as [sendEmail] never throws, the route never answers
    500.  Only the world (network, log, timers) changes. *)
Theorem sendDirect_answers (body : EmailRoute.Body) (userEmail : string) (s : State Net) :
  exists response s',
    sendDirect body userEmail s = Some (Normal response, s')
    /\ if EmailRoute.incomplete body
       then response = EmailRoute.missingFields /\ s' = s
       else
         let emailData := EmailRoute.directEmailData body userEmail in
         (exists w', s' = with_world w' s
                     /\ EmailService.net w'
                        = (deliver 3 emailData (EmailService.net (world s))).2)
         /\ match response with
            | EmailRoute.sent provider _ to_ =>
              provider ∈ map EmailService.name providers
              /\ to_ = or_default (EmailRoute.to body) ""
              /\ (deliver 3 emailData (EmailService.net (world s))).1 = true
            | EmailRoute.failedToSend _ to_ =>
              to_ = or_default (EmailRoute.to body) ""
              /\ (deliver 3 emailData (EmailService.net (world s))).1 = false
            | _ => False
            end.
Proof.
  unfold sendDirect. proc. destruct (EmailRoute.incomplete body).
  - eexists _, s. split; [reflexivity|]. by split.
  - destruct (emailService_sendEmail_run sendWithMailgun sendWithSMTP providers
                (EmailRoute.directEmailData body userEmail) 3 s) as (r & w' & Hrun & Hd).
    destruct (sendEmail_returns sendWithMailgun sendWithSMTP providers
                (EmailRoute.directEmailData body userEmail) 3 (world s))
      as (res & w2 & E & Hwf).
    pose proof Hrun as Hrun'. unfold emailService_sendEmail, call in Hrun'.
    rewrite E in Hrun'. injection Hrun' as <- _.
    rewrite Hrun. rewrite <- Hd.
    destruct res as [provider messageId result|error attempts];
      eexists _, _; (split; [reflexivity|]); cbn; split; eauto.
Qed.

End DirectSendFacts.

(** *** The statements at sample inputs *)

Section WorkerSamples.



Lemma process_send_batch_missing_job_sample :
  process_send_batch defaults 2 1 7 1 (Batch.contacts Sample.batch1) Sample.campaignData
    Sample.unsent
  = Some (Throw (Error "Job not found"), Sample.unsent).
Proof.
  apply (process_send_batch_missing_job defaults 2 1 7 1 (Batch.contacts Sample.batch1)
           Sample.campaignData Sample.unsent).
  reflexivity.
Defined.

Lemma process_send_batch_redis_down_sample :
  exists s',
    process_send_batch defaults 2 1 7 1 (Batch.contacts Sample.batch1) Sample.campaignData
      (Sample.planned [true])
      = Some (Throw (Error "connect ECONNREFUSED 127.0.0.1:6379"), s')
    /\ jobs s'
       = <[1%nat := Job.set_status Job.failed (newJob 7 1 1 (Batch.contacts Sample.batch1))]>
           (jobs (Sample.planned [true]))
    /\ campaigns s' = campaigns (Sample.planned [true]).
Proof.
  apply (process_send_batch_redis_down defaults 2 1 7 1 (Batch.contacts Sample.batch1)
           Sample.campaignData (Sample.planned [true])
           (newJob 7 1 1 (Batch.contacts Sample.batch1))).
  - reflexivity.
  - discriminate.
  - cbn. lia.
  - lia.
  - reflexivity.
Defined.

End WorkerSamples.

Section RetrySamples.

Lemma retryFailedEmails_nothing_to_do_sample :
  retryFailedEmails EmailService.refuse EmailService.refuse [EmailService.mailgun] 1
    SampleMore.settled
  = Some (match jobs SampleMore.settled !! 1%nat with
          | Some _ => Normal {| retried := 0; retry_total := None |}
          | None => Throw (Error "Job not found")
          end, SampleMore.settled).
Proof.
  apply (retryFailedEmails_nothing_to_do EmailService.refuse EmailService.refuse
           [EmailService.mailgun] 1 SampleMore.settled).
  reflexivity.
Defined.

(** Both pending entries of the finished batch are retried with smtp
    reachable. *)
Lemma retry_report_sample :
  exists report s',
    retryFailedEmails EmailService.refuse (EmailService.flaky 0)
      [EmailService.mailgun; EmailService.smtp] 1 Sample.finished
      = Some (Normal report, s')
    /\ exists records,
         analytics s' = analytics Sample.finished ++ records
         /\ length records = retried report
         /\ Forall (fun a => Analytics.event a = "sent") records
         /\ forall total, retry_total report = Some total ->
              (retried report <= total)%nat
              /\ exists job, jobs Sample.finished !! 1%nat = Some job
                             /\ total = length (failedEmails job).
Proof.
  eexists _, _. split; [vm_compute; reflexivity|].
  eapply (retry_report EmailService.refuse (EmailService.flaky 0)
            [EmailService.mailgun; EmailService.smtp] 1 Sample.finished).
  vm_compute. reflexivity.
Defined.

Lemma retry_without_campaign_sample :
  retryFailedEmails EmailService.refuse (EmailService.flaky 0)
    [EmailService.mailgun; EmailService.smtp] 1 SampleMore.orphaned
  = Some (Normal {| retried := 0;
                    retry_total := Some (length (failedEmails Sample.finishedJob)) |},
          SampleMore.orphaned).
Proof.
  apply (retry_without_campaign EmailService.refuse (EmailService.flaky 0)
           [EmailService.mailgun; EmailService.smtp] 1 SampleMore.orphaned
           Sample.finishedJob).
  - reflexivity.
  - reflexivity.
  - discriminate.
Defined.

Lemma scheduleRetries_queues_sample :
  exists s1 s2,
    scheduleRetries Sample.finished = Some (Normal tt, s1)
    /\ queue s1 = queue Sample.finished
                  ++ imap (retryTask (queued Sample.finished)) (toRetry (jobs Sample.finished))
    /\ scheduleRetries s1 = Some (Normal tt, s2)
    /\ queue s2 = queue s1 ++ imap (retryTask (queued s1)) (toRetry (jobs Sample.finished))
    /\ queued s1 = (queued Sample.finished + length (toRetry (jobs Sample.finished)))%nat
    /\ jobs s2 = jobs Sample.finished.
Proof.
  apply (scheduleRetries_queues Sample.finished). cbn. apply not_elem_of_nil.
Defined.

Lemma scheduleRetries_outage_sample :
  exists s',
    scheduleRetries (with_outages (fun _ => [true; false]) Sample.finished)
      = Some (Normal tt, s')
    /\ queue s' = queue (with_outages (fun _ => [true; false]) Sample.finished)
    /\ queued s' = queued (with_outages (fun _ => [true; false]) Sample.finished)
    /\ jobs s' = jobs (with_outages (fun _ => [true; false]) Sample.finished)
    /\ outages s' = tail (outages (with_outages (fun _ => [true; false]) Sample.finished)).
Proof.
  apply (scheduleRetries_outage (with_outages (fun _ => [true; false]) Sample.finished)).
  - reflexivity.
  - vm_compute. discriminate.
Defined.

End RetrySamples.

Section RouteSamples.

(** Campaign 7 of [Sample.unsent] is being sent already. *)
Lemma sendCampaign_refused_sample :
  sendCampaign EmailService.refuse EmailService.refuse [EmailService.mailgun]
    Sample.smallBatches SampleMore.everyone 5 7 1 Sample.unsent
  = Some (Normal (match ownCampaign 7 1 Sample.unsent with
                  | None => SendRoute.status 404 (Some "Campaign not found")
                  | Some _ => SendRoute.status 400 (Some "Campaign is already being sent")
                  end), Sample.unsent).
Proof.
  apply (sendCampaign_refused EmailService.refuse EmailService.refuse [EmailService.mailgun]
           Sample.smallBatches SampleMore.everyone 5 7 1 Sample.unsent).
  intros c Hc. vm_compute in Hc. injection Hc as <-. reflexivity.
Defined.

(** No contact carries the tag 'vip'. *)
Lemma sendCampaign_no_contacts_sample :
  exists s',
    sendCampaign EmailService.refuse EmailService.refuse [EmailService.mailgun]
      Sample.smallBatches SampleMore.vipOnly 5 7 1 SampleMore.resend
      = Some (Normal (SendRoute.status 500 (Some "No contacts found matching the filters")),
              s')
    /\ campaigns s'
       = <[7%nat := Campaign.set_status Campaign.draft SampleMore.sentCampaign]>
           (campaigns SampleMore.resend)
    /\ jobs s' = jobs SampleMore.resend /\ queue s' = queue SampleMore.resend
    /\ world s' = world SampleMore.resend.
Proof.
  apply (sendCampaign_no_contacts EmailService.refuse EmailService.refuse
           [EmailService.mailgun] Sample.smallBatches SampleMore.vipOnly 5 7 1
           SampleMore.resend SampleMore.sentCampaign).
  - reflexivity.
  - discriminate.
  - reflexivity.
Defined.

Lemma sendCampaign_queues_sample :
  exists s' bs,
    sendCampaign EmailService.refuse EmailService.refuse [EmailService.mailgun]
      Sample.smallBatches SampleMore.everyone 5 7 1 SampleMore.drafted
      = Some (Normal (SendRoute.queuedForSending 7
                        (length (List.filter (matchesQuery 1 (SampleMore.everyone 7))
                                             (contacts SampleMore.drafted)))
                        (ceil_div (length (List.filter (matchesQuery 1 (SampleMore.everyone 7))
                                                       (contacts SampleMore.drafted)))
                                  (MAX_EMAILS_PER_BATCH Sample.smallBatches))
                        (map (fun b => (Batch.jobId b, Batch.batchNumber b)) bs)), s')
    /\ length bs
       = ceil_div (length (List.filter (matchesQuery 1 (SampleMore.everyone 7))
                                       (contacts SampleMore.drafted)))
                  (MAX_EMAILS_PER_BATCH Sample.smallBatches)
    /\ concat (map Batch.contacts bs)
       = map toRecipient (List.filter (matchesQuery 1 (SampleMore.everyone 7))
                                      (contacts SampleMore.drafted))
    /\ campaigns s'
       = <[7%nat := Campaign.set_status Campaign.sending SampleMore.draftCampaign]>
           (campaigns SampleMore.drafted)
    /\ queue s'
       = queue SampleMore.drafted
         ++ imap (batchTask 7 1 (campaignDataOf SampleMore.draftCampaign)
                            (queued SampleMore.drafted)) bs
    /\ (forall b, b ∈ bs ->
          jobs s' !! Batch.jobId b
          = Some (newJob 7 1 (Batch.batchNumber b) (Batch.contacts b)))
    /\ world s' = world SampleMore.drafted.
Proof.
  apply (sendCampaign_queues EmailService.refuse EmailService.refuse [EmailService.mailgun]
           Sample.smallBatches SampleMore.everyone 5 7 1 SampleMore.drafted
           SampleMore.draftCampaign).
  - reflexivity.
  - discriminate.
  - cbn. lia.
  - cbn. lia.
  - cbn. lia.
  - cbn. apply not_elem_of_nil.
Defined.

End RouteSamples.
